(** * A shallow embedding of the TL-B struct-tag codec ([tlb/loader.go])

    The Go package walks the fields of a struct by reflection, splits each
    field's [tlb:"..."] tag into tokens and, token by token, reads from a
    [*cell.Slice] ([LoadFromCell]) or writes to a [*cell.Builder] ([ToCell]).
    Three kinds of results are distinguished throughout: a normal return, a
    returned [error], and a Go [panic]. *)

From Stdlib Require Import ZArith String Ascii List Bool Lia.
From stdpp Require Import base list.
Import ListNotations.

Local Open Scope string_scope.
Local Open Scope Z_scope.

(** ** Results of Go calls *)

(** An argument handed to [fmt.Errorf] besides the wrapped error. *)
Inductive farg : Type :=
| AStr (s : string)
| ANum (z : Z).

(** Go [error] values: errors made by the cell library, and the two shapes
    [fmt.Errorf] produces here (with and without a [%w] cause). *)
Inductive error : Type :=
| ErrPrim (msg : string)
| Errorf (format : string) (args : list farg)
| Wrapf (format : string) (args : list farg) (cause : error).

Inductive outcome (A : Type) : Type :=
| Ok (a : A)
| Err (e : error)
| Panic (msg : string).
Arguments Ok {A} a.
Arguments Err {A} e.
Arguments Panic {A} msg.

#[export] Instance outcome_ret : MRet outcome := fun A a => Ok a.
#[export] Instance outcome_bind : MBind outcome := fun A B f m =>
  match m with
  | Ok a => f a
  | Err e => Err e
  | Panic msg => Panic msg
  end.

(** [if err != nil { return fmt.Errorf(format, args..., err) }] *)
Definition wrap {A} (format : string) (args : list farg) (m : outcome A) : outcome A :=
  match m with
  | Err e => Err (Wrapf format args e)
  | other => other
  end.

Definition is_panic {A} (m : outcome A) : bool :=
  match m with Panic _ => true | _ => false end.

(** ** The pieces of Go's [strings] and [strconv] the tags go through *)

Module strings.

(** [strings.TrimSpace] on ASCII text: space, tab, line feed, vertical tab,
    form feed and carriage return are white space. *)
Definition is_space (c : ascii) : bool :=
  let n := N_of_ascii c in
  (N.eqb n 32 || (N.leb 9 n && N.leb n 13))%N.

Fixpoint TrimLeft (s : string) : string :=
  match s with
  | String c r => if is_space c then TrimLeft r else s
  | EmptyString => EmptyString
  end.

Fixpoint TrimRight (s : string) : string :=
  match s with
  | String c r =>
      match TrimRight r with
      | EmptyString => if is_space c then EmptyString else String c EmptyString
      | r' => String c r'
      end
  | EmptyString => EmptyString
  end.

Definition TrimSpace (s : string) : string := TrimRight (TrimLeft s).

(** [strings.Split(s, " ")]: one more piece than there are spaces. *)
Fixpoint Split (s : string) : list string :=
  match s with
  | EmptyString => [EmptyString]
  | String c r =>
      if Ascii.eqb c " "%char then EmptyString :: Split r
      else match Split r with
           | x :: xs => String c x :: xs
           | [] => [String c EmptyString]
           end
  end.

Fixpoint HasPrefix (s p : string) {struct p} : bool :=
  match p with
  | EmptyString => true
  | String a p' =>
      match s with
      | EmptyString => false
      | String b s' => Ascii.eqb a b && HasPrefix s' p'
      end
  end.

(** [len(s)] as a Go [int]. *)
Definition len (s : string) : Z := Z.of_nat (String.length s).

End strings.

Module strconv.

Inductive parsed : Type :=
| Num (n : Z)
| ErrSyntax
| ErrRange.

(** Value of a digit character: [0-9], then letters of either case. *)
Definition digit (c : ascii) : option Z :=
  let n := Z.of_N (N_of_ascii c) in
  if (48 <=? n) && (n <=? 57) then Some (n - 48)
  else if (97 <=? n) && (n <=? 122) then Some (n - 97 + 10)
  else if (65 <=? n) && (n <=? 90) then Some (n - 65 + 10)
  else None.

Definition maxUint64 : Z := 2 ^ 64 - 1.

(** The digit loop of [ParseUint] for an explicit base and 64 bits. *)
Fixpoint digits (base : Z) (s : string) (n : Z) : parsed :=
  match s with
  | EmptyString => Num n
  | String c r =>
      match digit c with
      | None => ErrSyntax
      | Some d =>
          if base <=? d then ErrSyntax
          else if maxUint64 / base + 1 <=? n then ErrRange
          else if maxUint64 <? n * base + d then ErrRange
          else digits base r (n * base + d)
      end
  end.

Definition ParseUint (s : string) (base : Z) : parsed :=
  match s with
  | EmptyString => ErrSyntax
  | _ => digits base s 0
  end.

(** [ParseInt(s, base, 64)]: optional sign, then [ParseUint]; a range error
    of [ParseUint] stays a range error. *)
Definition ParseInt (s : string) (base : Z) : parsed :=
  match s with
  | EmptyString => ErrSyntax
  | String c r =>
      let neg := Ascii.eqb c "-"%char in
      let body := if Ascii.eqb c "+"%char || neg then r else s in
      match ParseUint body base with
      | ErrSyntax => ErrSyntax
      | ErrRange => ErrRange
      | Num un =>
          if negb neg && (2 ^ 63 <=? un) then ErrRange
          else if neg && (2 ^ 63 <? un) then ErrRange
          else Num (if neg then - un else un)
      end
  end.

Definition Atoi (s : string) : parsed := ParseInt s 10.

End strconv.

(** [token.IsExported], by which [reflect] tells the exported fields of a
    struct: the name begins with an upper-case letter.  The letters are
    those of ASCII: a name that begins with any other character counts as
    not exported. *)
Module token.

Definition IsExported (name : string) : bool :=
  match name with
  | String c _ => let n := N_of_ascii c in (N.leb 65 n && N.leb n 90)%N
  | EmptyString => false
  end.

End token.

(** Go's conversions [uint64(x)] and [uint(x)] of a signed 64-bit value. *)
Definition to_uint64 (z : Z) : Z := z mod 2 ^ 64.

(** ** The cell library the engines call

    The package [github.com/xssnick/tonutils-go/tvm/cell] is imported by
    [loader.go] and is not part of the repository.  Its types and
    operations are given here as the specification describes them (cell,
    cursor and builder in section 3, the read and write operations in
    section 6), with the bit layout of TON cells: integers big-endian,
    signed ones in two's complement, at most 1023 bits and 4 references in
    a cell. *)

Module cell.

(** Modelled from the spec: the type [cell.Cell], "a node holding an ordered
    bit buffer plus up to four ownership references to child cells".  A
    [Slice] (the cursor) is what is left to read of a cell and a [Builder]
    what has been written so far, so all three share one representation. *)
Inductive Cell : Type :=
| mkCell (bits : list bool) (refs : list Cell).

Definition bits (c : Cell) : list bool := let 'mkCell b _ := c in b.
Definition refs (c : Cell) : list Cell := let 'mkCell _ r := c in r.

Definition Slice : Type := Cell.
Definition Builder : Type := Cell.

Definition BeginCell : Builder := mkCell [] [].
Definition EndCell (b : Builder) : Cell := b.
Definition BeginParse (c : Cell) : Slice := c.
Definition ToBuilder (c : Cell) : Builder := c.

Definition maxBits : Z := 1023.
Definition maxRefs : Z := 4.

Definition ErrNoMoreData : error := ErrPrim "not enough data in reader".
Definition ErrNoMoreRefs : error := ErrPrim "no more refs exists".
Definition ErrNotFit : error := ErrPrim "cell data size overflow".
Definition ErrTooMuchRefs : error := ErrPrim "too much refs".
Definition ErrRefCannotBeNil : error := ErrPrim "ref cannot be nil".
Definition ErrSmallSlice : error := ErrPrim "too small slice for this size".

(** The [n] low bits of [z], most significant first. *)
Fixpoint bits_of (n : nat) (z : Z) : list bool :=
  match n with
  | O => []
  | S k => Z.testbit z (Z.of_nat k) :: bits_of k z
  end.

Definition Z_of_bits (bs : list bool) : Z :=
  fold_left (fun acc b => 2 * acc + Z.b2z b) bs 0.

Definition signed_of_bits (bs : list bool) : Z :=
  match bs with
  | true :: _ => Z_of_bits bs - 2 ^ Z.of_nat (length bs)
  | _ => Z_of_bits bs
  end.

(** Modelled from the spec: the read operations of the cursor, [LoadUInt],
    [LoadInt], [LoadBigInt], [LoadBoolBit], [LoadSlice], [LoadRef] and
    [ToCell] of [cell.Slice]; they "advance the position and fail if
    insufficient bits remain".  [sz] is a Go [uint]; the engines call
    [LoadUInt] and [LoadInt] with at most 64 bits. *)
Definition read (sz : Z) (s : Slice) : outcome (list bool * Slice) :=
  if sz <=? Z.of_nat (length (bits s))
  then Ok (take (Z.to_nat sz) (bits s), mkCell (drop (Z.to_nat sz) (bits s)) (refs s))
  else Err ErrNoMoreData.

Definition LoadUInt (sz : Z) (s : Slice) : outcome (Z * Slice) :=
  '(bs, s') ← read sz s; Ok (Z_of_bits bs, s').

Definition LoadBigInt (sz : Z) (s : Slice) : outcome (Z * Slice) :=
  '(bs, s') ← read sz s; Ok (signed_of_bits bs, s').

Definition LoadInt (sz : Z) (s : Slice) : outcome (Z * Slice) := LoadBigInt sz s.

Definition LoadBoolBit (s : Slice) : outcome (bool * Slice) :=
  '(bs, s') ← read 1 s; Ok (bool_decide (bs = [true]), s').

Definition pad8 (bs : list bool) : list bool := take 8 (bs ++ replicate 8 false).

Fixpoint pack (n : nat) (bs : list bool) : list Z :=
  match n with
  | O => []
  | S k => Z_of_bits (pad8 (take 8 bs)) :: pack k (drop 8 bs)
  end.

Definition unpack (bytes : list Z) : list bool :=
  flat_map (bits_of 8) bytes.

(** [LoadSlice(sz)]: [sz] bits as bytes, the last one padded with zeros. *)
Definition LoadSlice (sz : Z) (s : Slice) : outcome (list Z * Slice) :=
  '(bs, s') ← read sz s; Ok (pack (Z.to_nat ((sz + 7) / 8)) bs, s').

Definition LoadRef (s : Slice) : outcome (Slice * Slice) :=
  match refs s with
  | r :: rs => Ok (BeginParse r, mkCell (bits s) rs)
  | [] => Err ErrNoMoreRefs
  end.

(** [Slice.ToCell]: a cell of everything that is left; the slice stays. *)
Definition ToCell (s : Slice) : outcome Cell := Ok (mkCell (bits s) (refs s)).

(** Modelled from the spec: the write operations of the builder,
    [StoreUInt], [StoreInt], [StoreBigInt], [StoreBoolBit], [StoreSlice],
    [StoreRef] and [StoreBuilder] of [cell.Builder], the mirror images of
    the read operations; they fail when the cell is full.  An integer is
    written as its [sz] low bits, whatever its size. *)
Definition write (bs : list bool) (b : Builder) : outcome Builder :=
  if maxBits <? Z.of_nat (length (bits b)) + Z.of_nat (length bs)
  then Err ErrNotFit
  else Ok (mkCell (bits b ++ bs) (refs b)).

Definition StoreUInt (v : Z) (sz : Z) (b : Builder) : outcome Builder :=
  write (bits_of (Z.to_nat sz) v) b.

Definition StoreInt (v : Z) (sz : Z) (b : Builder) : outcome Builder :=
  write (bits_of (Z.to_nat sz) v) b.

(** [StoreBigInt] takes a [*big.Int] and calls its methods at once, so a
    nil pointer is a run-time panic. *)
Definition StoreBigInt (v : option Z) (sz : Z) (b : Builder) : outcome Builder :=
  match v with
  | None => Panic "runtime error: invalid memory address or nil pointer dereference"
  | Some z => StoreInt z sz b
  end.

Definition StoreBoolBit (v : bool) (b : Builder) : outcome Builder :=
  write [v] b.

Definition StoreSlice (bytes : list Z) (sz : Z) (b : Builder) : outcome Builder :=
  if Z.of_nat (length bytes) * 8 <? sz then Err ErrSmallSlice
  else write (take (Z.to_nat sz) (unpack bytes)) b.

Definition StoreRef (c : option Cell) (b : Builder) : outcome Builder :=
  if maxRefs <=? Z.of_nat (length (refs b)) then Err ErrTooMuchRefs
  else match c with
       | None => Err ErrRefCannotBeNil
       | Some c => Ok (mkCell (bits b) (refs b ++ [c]))
       end.

Definition StoreBuilder (other : Builder) (b : Builder) : outcome Builder :=
  if maxRefs <? Z.of_nat (length (refs b)) + Z.of_nat (length (refs other))
  then Err ErrTooMuchRefs
  else b' ← write (bits other) b; Ok (mkCell (bits b') (refs b' ++ refs other)).

(** Modelled from the spec: the address and dictionary codecs of the
    library ([LoadAddr], [StoreAddr], [LoadDict], [StoreDict] and
    [Dictionary.All]), to which the engines only delegate; they are kept
    abstract, as parameters of everything below. *)
Class Codecs : Type := {
  Address : Type;
  Dictionary : Type;
  LoadAddr : Slice -> outcome (option Address * Slice);
  StoreAddr : option Address -> Builder -> outcome Builder;
  LoadDict : Z -> Slice -> outcome (Dictionary * Slice);
  StoreDict : option Dictionary -> Builder -> outcome Builder;
  (** [dict.All()]: the key and value cells in the dictionary's order *)
  All : Dictionary -> list (Cell * Cell)
}.

End cell.

(** ** Go types and values as the engines see them through [reflect] *)

Module tlb.
Import cell.

Section Engine.
Context `{codecs : Codecs}.

(** Runtime values of the field types below.  Pointers are [option]s. *)
Inductive value : Type :=
| VInt (z : Z)
| VUint (z : Z)
| VBool (b : bool)
| VBytes (bytes : list Z)
| VBigInt (p : option Z)
| VAddr (p : option Address)
| VCell (p : option Cell)
| VDict (p : option Dictionary)
| VMagic
| VStruct (fields : list value)
| VPtr (p : option (list value))
| VSlice (elems : list value).

(** The five signed (and, with [TUint], unsigned) integer kinds. *)
Inductive intkind : Type := K | K8 | K16 | K32 | K64.

Definition kind_bits (k : intkind) : Z :=
  match k with K8 => 8 | K16 => 16 | K32 => 32 | K | K64 => 64 end.

(** Methods a struct type [T] may declare: [LoadFromCell]
    ([manualLoader], looked up on [*T]), and [ToCell] ([manualStore]) with
    the receiver [T] or with the receiver [*T]; Go admits one of the two.
    A method declared on [T] is in the method set of [*T] as well. *)
Record methods : Type := {
  mLoadFromCell : option (Slice -> outcome (list value * Slice));
  mToCellVal : option (list value -> outcome (option Cell));
  mToCellPtr : option (option (list value) -> outcome (option Cell))
}.

Definition no_methods : methods :=
  {| mLoadFromCell := None; mToCellVal := None; mToCellPtr := None |}.

(** [reflect.Type] of a field: the integer kinds, [bool], [[]byte],
    [*big.Int], [*address.Address], [*cell.Cell], [*cell.Dictionary],
    [tlb.Magic], a struct, a pointer to a struct, a slice.  A struct type
    is its name, its methods and its fields (name, type, [tlb] tag) in
    declaration order.  Types are finite trees: a struct type that refers
    to itself, through a pointer or a slice, has no schema here, and
    nothing below is said of such types. *)
Inductive gotype : Type :=
| TInt (k : intkind)
| TUint (k : intkind)
| TBool
| TBytes
| TBigInt
| TAddr
| TCell
| TDict
| TMagic
| TStruct (s : schema)
| TPtr (s : schema)
| TSlice (elem : gotype)
with schema : Type :=
| Schema (name : string) (m : methods) (fields : fieldlist)
with fieldlist : Type :=
| FNil
| FCons (name : string) (ty : gotype) (tag : string) (rest : fieldlist).

Scheme gotype_mut := Induction for gotype Sort Prop
  with schema_mut := Induction for schema Sort Prop
  with fieldlist_mut := Induction for fieldlist Sort Prop.
Combined Scheme types_mutind from gotype_mut, schema_mut, fieldlist_mut.

(** The name of a schema is the [reflect.Type.String()] of the struct
    type, its name after the name of its package, as in [tlb.Message]. *)
Definition schema_name (s : schema) : string := let 'Schema n _ _ := s in n.
Definition schema_fields (s : schema) : fieldlist := let 'Schema _ _ fs := s in fs.

(** What follows the first dot of a qualified name; a name without a dot
    is left as it is. *)
Fixpoint after_dot (s : string) : option string :=
  match s with
  | EmptyString => None
  | String c r => if Ascii.eqb c "."%char then Some r else after_dot r
  end.

Definition unqualified (s : string) : string := default s (after_dot s).

(** [reflect.Type.Name()]: the name of a struct type without its package,
    empty for the unnamed pointer and slice types. *)
Definition type_name (t : gotype) : string :=
  match t with
  | TStruct s => unqualified (schema_name s)
  | TMagic => "Magic"
  | TBool => "bool"
  | TInt K => "int" | TInt K8 => "int8" | TInt K16 => "int16"
  | TInt K32 => "int32" | TInt K64 => "int64"
  | TUint K => "uint" | TUint K8 => "uint8" | TUint K16 => "uint16"
  | TUint K32 => "uint32" | TUint K64 => "uint64"
  | _ => EmptyString
  end.

(** [field.Type.Kind() == reflect.Pointer] *)
Definition kind_is_pointer (t : gotype) : bool :=
  match t with
  | TBigInt | TAddr | TCell | TDict | TPtr _ => true
  | _ => false
  end.

(** [fieldVal.IsNil()] for a value of pointer kind *)
Definition IsNil (v : value) : bool :=
  match v with
  | VBigInt None | VAddr None | VCell None | VDict None | VPtr None => true
  | _ => false
  end.

Definition is_signed_kind (t : gotype) : bool :=
  match t with TInt _ => true | _ => false end.
Definition is_TBigInt (t : gotype) : bool :=
  match t with TBigInt => true | _ => false end.
Definition is_TAddr (t : gotype) : bool :=
  match t with TAddr => true | _ => false end.
Definition is_TBool (t : gotype) : bool :=
  match t with TBool => true | _ => false end.
Definition is_TBytes (t : gotype) : bool :=
  match t with TBytes => true | _ => false end.
Definition is_TCell (t : gotype) : bool :=
  match t with TCell => true | _ => false end.
Definition is_TDict (t : gotype) : bool :=
  match t with TDict => true | _ => false end.
Definition is_TMagic (t : gotype) : bool :=
  match t with TMagic => true | _ => false end.

(** The zero value of a type, what [reflect.New] allocates. *)
Fixpoint zero (t : gotype) : value :=
  match t with
  | TInt _ => VInt 0
  | TUint _ => VUint 0
  | TBool => VBool false
  | TBytes => VBytes []
  | TBigInt => VBigInt None
  | TAddr => VAddr None
  | TCell => VCell None
  | TDict => VDict None
  | TMagic => VMagic
  | TStruct s => VStruct (zero_schema s)
  | TPtr _ => VPtr None
  | TSlice _ => VSlice []
  end
with zero_schema (s : schema) : list value :=
  match s with
  | Schema _ _ fs => zero_fields fs
  end
with zero_fields (fs : fieldlist) : list value :=
  match fs with
  | FNil => []
  | FCons _ t _ rest => zero t :: zero_fields rest
  end.

Fixpoint NumField (fs : fieldlist) : nat :=
  match fs with
  | FNil => O
  | FCons _ _ _ rest => S (NumField rest)
  end.

(** Two's complement wrap-around of Go's integer conversions. *)
Definition wrap_unsigned (w : Z) (z : Z) : Z := z mod 2 ^ w.
Definition wrap_signed (w : Z) (z : Z) : Z :=
  (z + 2 ^ (w - 1)) mod 2 ^ w - 2 ^ (w - 1).

(** [reflect.ValueOf(x).Convert(t)] for the [int64], [uint64] and [*big.Int]
    the integer primitives return: integers convert to every integer kind,
    a [*big.Int] only to itself. *)
Definition Convert (x : value) (t : gotype) : outcome value :=
  match x, t with
  | VInt z, TInt k | VUint z, TInt k => Ok (VInt (wrap_signed (kind_bits k) z))
  | VInt z, TUint k | VUint z, TUint k => Ok (VUint (wrap_unsigned (kind_bits k) z))
  | VBigInt p, TBigInt => Ok (VBigInt p)
  | _, _ => Panic "reflect.Value.Convert: value cannot be converted to the type of the field"
  end.

(** [rv.Field(i).Set(x)] panics unless [x] is assignable to the field. *)
Definition Set_ {A} (assignable : bool) (x : A) : outcome A :=
  if assignable then Ok x
  else Panic "reflect.Set: value is not assignable to the type of the field".

Definition index_panic {A} : outcome A :=
  Panic "runtime error: index out of range".

Definition reflect_panic {A} : outcome A :=
  Panic "reflect: call of a Value method on a value of the wrong kind".

Definition type_assertion_panic {A} : outcome A :=
  Panic "interface conversion: interface {} is not of the asserted type".

Definition cannot_deserialize {A} (name tag : string) : outcome A :=
  Panic ("cannot deserialize field '" ++ name ++ "' as tag '" ++ tag ++ "'").

Definition cannot_serialize {A} (name tag : string) : outcome A :=
  Panic ("cannot serialize field '" ++ name ++ "' as tag '" ++ tag
         ++ "', use manual serialization").

Definition bad_dict_size {A} (name size : string) : outcome A :=
  Panic ("cannot deserialize field '" ++ name ++ "' as dict, bad size '"
         ++ size ++ "'").

(** The literal of a [Magic] tag: its width in bits and its base. *)
Definition magic_shape (s0 : string) : option (Z * Z) :=
  if strings.HasPrefix s0 "#" then Some ((strings.len s0 - 1) * 4, 16)
  else if strings.HasPrefix s0 "$" then Some (strings.len s0 - 1, 2)
  else None.

(** [s[1:]] of a string known to be non-empty *)
Definition tail1 (s : string) : string :=
  match s with String _ r => r | EmptyString => EmptyString end.

(** ** Decoding

    [LoadFromCell] is one loop over the fields; its body is given here in
    three pieces, in the order of the source: the [maybe] prefix, the
    [either] prefix, and the chain of [if settings[0] == ...] tests.  The
    recursive calls into [structLoad] are passed in: [sl] is
    [structLoad(field.Type, _)] and [sl_elem] is
    [structLoad(field.Type.Elem(), _)]. *)

(** [reflect.Append(arr, nVal)] *)
Definition Append (arr nVal : value) : outcome value :=
  match arr with
  | VSlice xs => Ok (VSlice (xs ++ [nVal]))
  | _ => reflect_panic
  end.

(** The [for _, kv := range dict.All()] loop of the [-> array] transform. *)
Fixpoint transform_array (sl_elem : Slice -> outcome (value * Slice))
    (isRef : bool) (kvs : list (Cell * Cell)) (arr : value) : outcome value :=
  match kvs with
  | [] => Ok arr
  | kv :: kvs' =>
      let ld := BeginParse (snd kv) in
      ld ← (if isRef
            then '(r, _) ← wrap "failed to load ref in dict transform: %w" []
                              (LoadRef ld); Ok r
            else Ok ld);
      '(nVal, _) ← wrap "failed to load struct in dict transform: %w" []
                      (sl_elem ld);
      arr ← Append arr nVal;
      transform_array sl_elem isRef kvs' arr
  end.

Definition load_directive (sl sl_elem : Slice -> outcome (value * Slice))
    (tyname name : string) (ft : gotype) (tag : string)
    (settings : list string) (fv : value) (loader : Slice)
    : outcome (value * Slice) :=
  match settings with
  | [] => index_panic
  | s0 :: args =>
    if String.eqb s0 "##" then
      match args with
      | [] => index_panic
      | s1 :: _ =>
        match strconv.ParseUint s1 10 with
        | strconv.Num num =>
          if num <=? 64 then
            '(x, l) ←
              match ft with
              | TInt _ =>
                  '(x, l) ← wrap "failed to load int %d, err: %w" [ANum num]
                               (LoadInt num loader);
                  Ok (VInt x, l)
              | TBigInt =>
                  '(x, l) ← wrap "failed to load bigint %d, err: %w" [ANum num]
                               (LoadBigInt num loader);
                  Ok (VBigInt (Some x), l)
              | _ =>
                  '(x, l) ← wrap "failed to load uint %d, err: %w" [ANum num]
                               (LoadUInt num loader);
                  Ok (VUint x, l)
              end;
            v ← Convert x ft;
            Ok (v, l)
          else if num <=? 256 then
            '(x, l) ← wrap "failed to load bigint %d, err: %w" [ANum num]
                         (LoadBigInt num loader);
            v ← Set_ (is_TBigInt ft) (VBigInt (Some x));
            Ok (v, l)
          else cannot_deserialize name tag
        | _ => Panic "corrupted num bits in ## tag"
        end
      end
    else if String.eqb s0 "addr" then
      '(x, l) ← wrap "failed to load address, err: %w" [] (LoadAddr loader);
      v ← Set_ (is_TAddr ft) (VAddr x);
      Ok (v, l)
    else if String.eqb s0 "bool" then
      '(x, l) ← wrap "failed to load bool, err: %w" [] (LoadBoolBit loader);
      v ← Set_ (is_TBool ft) (VBool x);
      Ok (v, l)
    else if String.eqb s0 "bits" then
      match args with
      | [] => index_panic
      | s1 :: _ =>
        match strconv.Atoi s1 with
        | strconv.Num num =>
            '(x, l) ← wrap "failed to load uint %d, err: %w" [ANum num]
                         (LoadSlice (to_uint64 num) loader);
            v ← Set_ (is_TBytes ft) (VBytes x);
            Ok (v, l)
        | _ => Panic "corrupted num bits in bits tag"
        end
      end
    else if String.eqb s0 "^" || String.eqb s0 "." then
      '(next, after) ← (if String.eqb s0 "^"
                        then wrap "failed to load ref for %s, err: %w" [AStr name]
                                  (LoadRef loader)
                        else Ok (loader, loader));
      if is_TCell ft then
        c ← wrap "failed to convert ref to cell for %s, err: %w" [AStr name]
                 (cell.ToCell next);
        Ok (VCell (Some c), after)
      else
        '(nVal, next') ← sl next;
        Ok (nVal, if String.eqb s0 "^" then after else next')
    else if is_TMagic ft then
      match magic_shape s0 with
      | None => Panic "unknown magic value type in tag"
      | Some (sz, base) =>
        if 64 <? sz then Panic "too big magic value type in tag"
        else
          match strconv.ParseInt (tail1 s0) base with
          | strconv.Num magic =>
              '(ldMagic, l) ← wrap "failed to load magic: %w" []
                                 (LoadUInt sz loader);
              if ldMagic =? to_uint64 magic then Ok (fv, l)
              else Err (Errorf "magic is not correct for %s, want %x, got %x"
                               [AStr tyname; ANum magic; ANum ldMagic])
          | _ => Panic "corrupted magic value in tag"
          end
      end
    else if String.eqb s0 "dict" then
      match args with
      | [] => index_panic
      | s1 :: more =>
        match strconv.ParseUint s1 10 with
        | strconv.Num sz =>
            '(dict, l) ← wrap "failed to load ref for %s, err: %w" [AStr name]
                            (LoadDict sz loader);
            let plain := (v ← Set_ (is_TDict ft) (VDict (Some dict)); Ok (v, l)) in
            match more with
            | s2 :: s3 :: more' =>
                if String.eqb s2 "->" then
                  let isRef := match more' with
                               | s4 :: _ => String.eqb s4 "^"
                               | [] => false
                               end in
                  if String.eqb s3 "array" then
                    arr ← transform_array sl_elem isRef (All dict) fv;
                    Ok (arr, l)
                  else Panic "transformation to this type is not supported"
                else plain
            | _ => plain
            end
        | _ => bad_dict_size name s1
        end
      end
    else cannot_deserialize name tag
  end.

(** [if settings[0] == "either" { ... }] *)
Definition load_either (sl sl_elem : Slice -> outcome (value * Slice))
    (tyname name : string) (ft : gotype) (tag : string)
    (settings : list string) (fv : value) (loader : Slice)
    : outcome (value * Slice) :=
  match settings with
  | [] => index_panic
  | s0 :: args =>
    if String.eqb s0 "either" then
      match args with
      | s1 :: s2 :: _ =>
          '(isSecond, l) ← wrap "failed to load maybe for %s, err: %w" [AStr name]
                                (LoadBoolBit loader);
          load_directive sl sl_elem tyname name ft tag
            [if isSecond : bool then s2 else s1] fv l
      | _ => Panic "either tag should have 2 args"
      end
    else load_directive sl sl_elem tyname name ft tag settings fv loader
  end.

(** One turn of the loop: the new value of the field and the cursor. *)
Definition load_field (sl sl_elem : Slice -> outcome (value * Slice))
    (tyname name : string) (ft : gotype) (rawtag : string)
    (fv : value) (loader : Slice) : outcome (value * Slice) :=
  let tag := strings.TrimSpace rawtag in
  if String.eqb tag "-" then Ok (fv, loader)
  else
    match strings.Split tag with
    | [] => Ok (fv, loader)
    | s0 :: rest =>
      if String.eqb s0 "maybe" then
        '(has, l) ← wrap "failed to load maybe for %s, err: %w" [AStr name]
                         (LoadBoolBit loader);
        if has : bool then load_either sl sl_elem tyname name ft tag rest fv l
        else Ok (fv, l)
      else load_either sl sl_elem tyname name ft tag (s0 :: rest) fv loader
    end.

(** *** Fields that are not exported

    [rv.Field(i)] of a field that is not exported is a read-only
    [reflect.Value]: [Set] and [reflect.Append] panic on it.  [load_field]
    gives the value the loop assigns and the cursor; whether the loop comes
    to assign is told here from the directive it executes.  A panic of
    [load_field] is passed on as it is, also where [Set] refuses the field
    for its type as well as for its name. *)

Definition read_only_panic {A} : outcome A :=
  Panic "reflect: use of a value obtained using unexported field".

(** The directive the loop of [LoadFromCell] comes to execute for a field,
    once the bits of [maybe] and [either] are read: none under [-], when
    the presence bit is clear, or when a bit cannot be read. *)
Definition reached_on_load (rawtag : string) (loader : Slice)
    : option (list string) :=
  let tag := strings.TrimSpace rawtag in
  if String.eqb tag "-" then None
  else
    match strings.Split tag with
    | [] => None
    | s0 :: rest =>
        '(settings, l) ←
          (if String.eqb s0 "maybe" then
             match LoadBoolBit loader with
             | Ok (true, l) => Some (rest, l)
             | _ => None
             end
           else Some (s0 :: rest, loader));
        match settings with
        | [] => None
        | t0 :: targs =>
            if String.eqb t0 "either" then
              match targs, LoadBoolBit l with
              | s1 :: s2 :: _, Ok (isSecond, _) =>
                  Some [if isSecond : bool then s2 else s1]
              | _, _ => None
              end
            else Some settings
        end
    end.

(** The branches of the chain that end in [rv.Field(i).Set]: all but the
    one of a [Magic], whose literal is only compared. *)
Definition calls_Set (ft : gotype) (settings : list string) : bool :=
  match settings with
  | [] => false
  | s0 :: _ =>
      String.eqb s0 "##" || String.eqb s0 "addr" || String.eqb s0 "bool"
      || String.eqb s0 "bits" || String.eqb s0 "^" || String.eqb s0 "."
      || negb (is_TMagic ft) && String.eqb s0 "dict"
  end.

Definition sets_field (ft : gotype) (rawtag : string) (loader : Slice) : bool :=
  match reached_on_load rawtag loader with
  | Some settings => calls_Set ft settings
  | None => false
  end.

(** The loop of [LoadFromCell] from field [i] on, and [structLoad].  [rv] is
    the struct being filled, [tyname] its [rv.Type().String()].  On a field
    that is not exported the loop panics where it assigns: in
    [reflect.Append], once an element of a [-> array] transform is decoded,
    and in [Set].  [tlb.Magic] is a struct without fields; any other type
    that is not a struct or a pointer to one makes [reflect] or the final
    [panic] of the loop fire. *)
Fixpoint load_fields (fs : fieldlist) (tyname : string) (i : nat)
    (rv : list value) (loader : Slice) {struct fs}
    : outcome (list value * Slice) :=
  match fs with
  | FNil => Ok (rv, loader)
  | FCons name ft tag rest =>
      match rv !! i with
      | None => reflect_panic
      | Some fv =>
          let elem :=
            match ft with
            | TSlice e => structLoad e
            | TPtr s => fun ld =>
                '(r, l) ← load_schema s (type_name (TStruct s)) ld;
                Ok (VStruct r, l)
            | _ => fun _ => reflect_panic
            end in
          '(fv', loader') ←
            load_field (structLoad ft)
              (if token.IsExported name then elem
               else fun ld => '(_, _) ← elem ld; read_only_panic)
              tyname name ft tag fv loader;
          if token.IsExported name || negb (sets_field ft tag loader)
          then load_fields rest tyname (S i) (<[i:=fv']> rv) loader'
          else read_only_panic
      end
  end
with structLoad (field : gotype) (loader : Slice) {struct field}
    : outcome (value * Slice) :=
  match field with
  | TStruct s =>
      '(r, l) ← load_schema s (type_name (TStruct s)) loader; Ok (VStruct r, l)
  | TPtr s =>
      '(r, l) ← load_schema s EmptyString loader; Ok (VPtr (Some r), l)
  | TMagic => Ok (VMagic, loader)
  | _ => reflect_panic
  end
with load_schema (s : schema) (fname : string) (loader : Slice) {struct s}
    : outcome (list value * Slice) :=
  match s with
  | Schema name m fs =>
      match mLoadFromCell m with
      | Some custom =>
          wrap "failed to load from cell for %s, using manual loader, err: %w"
               [AStr fname] (custom loader)
      | None =>
          wrap "failed to load from cell for %s, err: %w" [AStr fname]
               (load_fields fs name 0 (zero_fields fs) loader)
      end
  end.

(** [LoadFromCell(v, loader)] for [v] of dynamic type [t]: the record [v]
    points to is filled in place; what it holds after an error or a panic is
    not part of the result here. *)
Definition LoadFromCell (t : gotype) (v : value) (loader : Slice)
    : outcome (value * Slice) :=
  if kind_is_pointer t && negb (IsNil v) then
    match t, v with
    | TPtr s, VPtr (Some rv) =>
        '(rv', l) ← load_fields (schema_fields s) (schema_name s) 0 rv loader;
        Ok (VPtr (Some rv'), l)
    | _, _ => reflect_panic
    end
  else Err (Errorf "v should be a pointer and not nil" []).

(** ** Encoding

    [ToCell] has the same shape.  [ss] is
    [structStore(fieldVal, field.Type.Name())]. *)

Definition store_directive (ss : value -> outcome (option Cell))
    (name : string) (ft : gotype) (tag : string)
    (settings : list string) (fieldVal : value) (builder : Builder)
    : outcome Builder :=
  match settings with
  | [] => index_panic
  | s0 :: args =>
    if String.eqb s0 "##" then
      match args with
      | [] => index_panic
      | s1 :: _ =>
        match strconv.ParseUint s1 10 with
        | strconv.Num num =>
          if num <=? 64 then
            match ft with
            | TInt _ =>
                match fieldVal with
                | VInt z => wrap "failed to store int %d, err: %w" [ANum num]
                                 (StoreInt z num builder)
                | _ => reflect_panic
                end
            | TBigInt =>
                match fieldVal with
                | VBigInt p => wrap "failed to store bigint %d, err: %w" [ANum num]
                                    (StoreBigInt p num builder)
                | _ => type_assertion_panic
                end
            | TUint _ =>
                match fieldVal with
                | VUint z => wrap "failed to store uint %d, err: %w" [ANum num]
                                  (StoreUInt z num builder)
                | _ => reflect_panic
                end
            | _ => reflect_panic
            end
          else if num <=? 256 then
            match ft, fieldVal with
            | TBigInt, VBigInt p =>
                wrap "failed to store bigint %d, err: %w" [ANum num]
                     (StoreBigInt p num builder)
            | _, _ => type_assertion_panic
            end
          else cannot_serialize name tag
        | _ => Panic "corrupted num bits in ## tag"
        end
      end
    else if String.eqb s0 "addr" then
      match ft, fieldVal with
      | TAddr, VAddr p =>
          wrap "failed to store address, err: %w" [] (StoreAddr p builder)
      | _, _ => type_assertion_panic
      end
    else if String.eqb s0 "bool" then
      match ft, fieldVal with
      | TBool, VBool x =>
          wrap "failed to store bool, err: %w" [] (StoreBoolBit x builder)
      | _, _ => reflect_panic
      end
    else if String.eqb s0 "bits" then
      match args with
      | [] => index_panic
      | s1 :: _ =>
        match strconv.Atoi s1 with
        | strconv.Num num =>
            match ft, fieldVal with
            | TBytes, VBytes x =>
                wrap "failed to store bits %d, err: %w" [ANum num]
                     (StoreSlice x (to_uint64 num) builder)
            | _, _ => reflect_panic
            end
        | _ => Panic "corrupted num bits in bits tag"
        end
      end
    else if String.eqb s0 "^" || String.eqb s0 "." then
      c ← match ft with
          | TCell =>
              match fieldVal with
              | VCell p => Ok p
              | _ => type_assertion_panic
              end
          | _ => ss fieldVal
          end;
      if String.eqb s0 "^" then
        wrap "failed to store cell to ref for %s, err: %w" [AStr name]
             (StoreRef c builder)
      else
        match c with
        | None => Panic "runtime error: invalid memory address or nil pointer dereference"
        | Some c =>
            wrap "failed to store cell to builder for %s, err: %w" [AStr name]
                 (StoreBuilder (ToBuilder c) builder)
        end
    else if is_TMagic ft then
      match magic_shape s0 with
      | None => Panic "unknown magic value type in tag"
      | Some (sz, base) =>
        if 64 <? sz then Panic "too big magic value type in tag"
        else
          match strconv.ParseInt (tail1 s0) base with
          | strconv.Num magic =>
              wrap "failed to store magic: %w" []
                   (StoreUInt (to_uint64 magic) sz builder)
          | _ => Panic "corrupted magic value in tag"
          end
      end
    else if String.eqb s0 "dict" then
      match ft, fieldVal with
      | TDict, VDict p =>
          wrap "failed to store dict for %s, err: %w" [AStr name]
               (StoreDict p builder)
      | _, _ => type_assertion_panic
      end
    else cannot_serialize name tag
  end.

Definition store_either (ss : value -> outcome (option Cell))
    (name : string) (ft : gotype) (tag : string)
    (settings : list string) (fieldVal : value) (builder : Builder)
    : outcome Builder :=
  match settings with
  | [] => index_panic
  | s0 :: args =>
    if String.eqb s0 "either" then
      match args with
      | s1 :: s2 :: _ =>
          (* currently, if one of the options is ref - we choose it *)
          let second := strings.HasPrefix s2 "^" in
          b ← wrap "cannot store maybe bit: %w" [] (StoreBoolBit second builder);
          store_directive ss name ft tag [if second then s2 else s1] fieldVal b
      | _ => Panic "either tag should have 2 args"
      end
    else store_directive ss name ft tag settings fieldVal builder
  end.

Definition store_field (ss : value -> outcome (option Cell))
    (name : string) (ft : gotype) (rawtag : string)
    (fieldVal : value) (builder : Builder) : outcome Builder :=
  let tag := strings.TrimSpace rawtag in
  if String.eqb tag "-" then Ok builder
  else
    match strings.Split tag with
    | [] => Ok builder
    | s0 :: rest =>
      if String.eqb s0 "maybe" then
        if kind_is_pointer ft && IsNil fieldVal then
          wrap "cannot store maybe bit: %w" [] (StoreBoolBit false builder)
        else
          b ← wrap "cannot store maybe bit: %w" [] (StoreBoolBit true builder);
          store_either ss name ft tag rest fieldVal b
      else store_either ss name ft tag (s0 :: rest) fieldVal builder
    end.

(** On the value of a field that is not exported [Interface] panics, in
    the loop and at the head of [structStore]; [Int], [Uint], [Bool],
    [Bytes] and [IsNil] do not. *)

(** The directive the loop of [ToCell] comes to execute for a field, once
    the bits of [maybe] and [either] are written: none under [-], for a nil
    pointer under [maybe], or when a bit cannot be written. *)
Definition reached_on_store (ft : gotype) (rawtag : string) (fieldVal : value)
    (builder : Builder) : option (list string) :=
  let tag := strings.TrimSpace rawtag in
  if String.eqb tag "-" then None
  else
    match strings.Split tag with
    | [] => None
    | s0 :: rest =>
        '(settings, b) ←
          (if String.eqb s0 "maybe" then
             if kind_is_pointer ft && IsNil fieldVal then None
             else match StoreBoolBit true builder with
                  | Ok b => Some (rest, b)
                  | _ => None
                  end
           else Some (s0 :: rest, builder));
        match settings with
        | [] => None
        | t0 :: targs =>
            if String.eqb t0 "either" then
              match targs with
              | s1 :: s2 :: _ =>
                  let second := strings.HasPrefix s2 "^" in
                  match StoreBoolBit second b with
                  | Ok _ => Some [if second then s2 else s1]
                  | _ => None
                  end
              | _ => None
              end
            else Some settings
        end
    end.

(** The branches of the chain that take the value with [Interface]: a
    [*big.Int], an address, a cell or a nested record, a dictionary. *)
Definition calls_Interface (ft : gotype) (settings : list string) : bool :=
  match settings with
  | [] => false
  | s0 :: args =>
      if String.eqb s0 "##" then
        match args with
        | s1 :: _ =>
            match strconv.ParseUint s1 10 with
            | strconv.Num num =>
                if num <=? 64 then is_TBigInt ft else num <=? 256
            | _ => false
            end
        | [] => false
        end
      else if String.eqb s0 "addr" then true
      else if String.eqb s0 "bool" || String.eqb s0 "bits" then false
      else if String.eqb s0 "^" || String.eqb s0 "." then true
      else if is_TMagic ft then false
      else String.eqb s0 "dict"
  end.

Definition reads_Interface (ft : gotype) (rawtag : string) (fieldVal : value)
    (builder : Builder) : bool :=
  match reached_on_store ft rawtag fieldVal builder with
  | Some settings => calls_Interface ft settings
  | None => false
  end.

(** The loop of [ToCell] from field [i] on, and [structStore]. *)
Fixpoint store_fields (fs : fieldlist) (i : nat) (rv : list value)
    (builder : Builder) {struct fs} : outcome Builder :=
  match fs with
  | FNil => Ok builder
  | FCons name ft tag rest =>
      match rv !! i with
      | None => reflect_panic
      | Some fieldVal =>
          b ← (if negb (token.IsExported name)
                  && reads_Interface ft tag fieldVal builder
               then read_only_panic
               else store_field (structStore ft (type_name ft)) name ft tag
                                fieldVal builder);
          store_fields rest (S i) rv b
      end
  end
with structStore (t : gotype) (name : string) (field : value) {struct t}
    : outcome (option Cell) :=
  match t with
  | TStruct s =>
      match field with
      | VStruct rv => store_schema s name false (Some rv)
      | _ => reflect_panic
      end
  | TPtr s =>
      match field with
      | VPtr p => store_schema s name true p
      | _ => reflect_panic
      end
  | TMagic => Ok (Some (EndCell BeginCell))
  | _ =>
      if kind_is_pointer t && IsNil field
      then wrap "failed to store to cell for %s, err: %w" [AStr name]
                (Err (Errorf "v should not be nil" []))
      else reflect_panic
  end
with store_schema (s : schema) (name : string) (is_ptr : bool)
    (p : option (list value)) {struct s} : outcome (option Cell) :=
  match s with
  | Schema n m fs =>
      let manual :=
        if is_ptr then
          match mToCellPtr m, mToCellVal m with
          | Some f, _ => Some (f p)
          | None, Some f =>
              Some match p with
                   | Some rv => f rv
                   | None =>
                       Panic ("value method " ++ n ++ ".ToCell called using nil *"
                              ++ unqualified n ++ " pointer")
                   end
          | None, None => None
          end
        else match p with
             | Some rv => option_map (fun f => f rv) (mToCellVal m)
             | None => None
             end in
      match manual with
      | Some call =>
          wrap "failed to store to cell for %s, using manual storer, err: %w"
               [AStr name] call
      | None =>
          wrap "failed to store to cell for %s, err: %w" [AStr name]
            match p with
            | None => Err (Errorf "v should not be nil" [])
            | Some rv =>
                b ← store_fields fs 0 rv BeginCell; Ok (Some (EndCell b))
            end
      end
  end.

(** [ToCell(v)] for [v] of dynamic type [t]: a struct or a pointer to one. *)
Definition ToCell (t : gotype) (v : value) : outcome Cell :=
  match t, v with
  | TStruct s, VStruct rv =>
      b ← store_fields (schema_fields s) 0 rv BeginCell; Ok (EndCell b)
  | TPtr s, VPtr (Some rv) =>
      b ← store_fields (schema_fields s) 0 rv BeginCell; Ok (EndCell b)
  | _, _ =>
      if kind_is_pointer t && IsNil v
      then Err (Errorf "v should not be nil" [])
      else reflect_panic
  end.

End Engine.
End tlb.

(** ** A small instance of the codec interface, to run the engines

    Addresses: only [addr_none] (two zero bits).  Dictionaries: at most four
    entries, a presence bit and one child cell holding the values. *)

Module simple.
Import cell.

Definition LoadAddr (s : Slice) : outcome (option unit * Slice) :=
  '(bs, s') ← read 2 s;
  if bool_decide (bs = [false; false]) then Ok (Some tt, s')
  else Err (ErrPrim "unsupported address type").

Definition StoreAddr (a : option unit) (b : Builder) : outcome Builder :=
  write [false; false] b.

Definition LoadDict (sz : Z) (s : Slice) : outcome (list (Cell * Cell) * Slice) :=
  '(has, s1) ← LoadBoolBit s;
  if has : bool then
    '(root, s2) ← LoadRef s1;
    Ok (map (fun v => (mkCell [] [], v)) (refs root), s2)
  else Ok ([], s1).

Definition StoreDict (d : option (list (Cell * Cell))) (b : Builder) : outcome Builder :=
  match d with
  | None | Some [] => StoreBoolBit false b
  | Some kvs =>
      b1 ← StoreBoolBit true b;
      StoreRef (Some (mkCell [] (map snd kvs))) b1
  end.

#[export] Instance codecs : Codecs := {|
  Address := unit;
  Dictionary := list (Cell * Cell);
  cell.LoadAddr := LoadAddr;
  cell.StoreAddr := StoreAddr;
  cell.LoadDict := LoadDict;
  cell.StoreDict := StoreDict;
  All := fun d => d
|}.

End simple.

Import cell tlb.

(** ** Notions used to state the properties *)

(** A tag as the engines see it: trimmed, then split at spaces. *)
Definition tokens (rawtag : string) : list string :=
  strings.Split (strings.TrimSpace rawtag).

(** The numeric value of a string of hexadecimal digits. *)
Definition hex_digit (c : ascii) : bool :=
  match strconv.digit c with
  | Some d => d <? 16
  | None => false
  end.

Fixpoint all_hex (s : string) : bool :=
  match s with
  | EmptyString => true
  | String c r => hex_digit c && all_hex r
  end.

Fixpoint hex_value_from (s : string) (n : Z) : Z :=
  match s with
  | EmptyString => n
  | String c r => hex_value_from r (n * 16 + default 0 (strconv.digit c))
  end.

Definition hex_value (s : string) : Z := hex_value_from s 0.

(** The three ways a [## N] field is read and written, and the rule that
    selects one from the width and the declared type, as the specification
    words it. *)
Inductive int_path : Type := NativeSigned | NativeUnsigned | ArbitraryPrecision.

Definition spec_int_path `{Codecs} (N : Z) (ft : gotype) : int_path :=
  if is_TBigInt ft then ArbitraryPrecision
  else if N <=? 64 then
    (if is_signed_kind ft then NativeSigned else NativeUnsigned)
  else ArbitraryPrecision.

Definition read_int `{Codecs} (p : int_path) (N : Z) (loader : Slice)
    : outcome (value * Slice) :=
  match p with
  | NativeSigned =>
      '(x, l) ← wrap "failed to load int %d, err: %w" [ANum N] (LoadInt N loader);
      Ok (VInt x, l)
  | NativeUnsigned =>
      '(x, l) ← wrap "failed to load uint %d, err: %w" [ANum N] (LoadUInt N loader);
      Ok (VUint x, l)
  | ArbitraryPrecision =>
      '(x, l) ← wrap "failed to load bigint %d, err: %w" [ANum N] (LoadBigInt N loader);
      Ok (VBigInt (Some x), l)
  end.

Definition write_int `{Codecs} (p : int_path) (N : Z) (ft : gotype) (fv : value)
    (builder : Builder) : outcome Builder :=
  match p with
  | NativeSigned =>
      match fv with
      | VInt z => wrap "failed to store int %d, err: %w" [ANum N] (StoreInt z N builder)
      | _ => reflect_panic
      end
  | NativeUnsigned =>
      match ft, fv with
      | TUint _, VUint z =>
          wrap "failed to store uint %d, err: %w" [ANum N] (StoreUInt z N builder)
      | _, _ => reflect_panic
      end
  | ArbitraryPrecision =>
      match ft, fv with
      | TBigInt, VBigInt p =>
          wrap "failed to store bigint %d, err: %w" [ANum N] (StoreBigInt p N builder)
      | _, _ => type_assertion_panic
      end
  end.

(** A width, a declared type and a value that go together: an unsigned
    kind up to 64 bits, a signed kind from 1 to 64 bits, a non-nil
    [*big.Int] from 1 to 256 bits. *)
Definition int_fits `{Codecs} (N : Z) (ft : gotype) (fv : value) : Prop :=
  match ft, fv with
  | TUint _, VUint _ => 0 <= N <= 64
  | TInt _, VInt _ => 1 <= N <= 64
  | TBigInt, VBigInt (Some _) => 1 <= N <= 256
  | _, _ => False
  end.

(** The messages of the three ways, with the width as their argument. *)
Definition load_format (p : int_path) : string :=
  match p with
  | NativeSigned => "failed to load int %d, err: %w"
  | NativeUnsigned => "failed to load uint %d, err: %w"
  | ArbitraryPrecision => "failed to load bigint %d, err: %w"
  end.

Definition store_format (p : int_path) : string :=
  match p with
  | NativeSigned => "failed to store int %d, err: %w"
  | NativeUnsigned => "failed to store uint %d, err: %w"
  | ArbitraryPrecision => "failed to store bigint %d, err: %w"
  end.

(** What a [## N] field of type [ft] holds once the bits [got] are read:
    the number they denote, in two's complement unless the kind is
    unsigned, converted to the kind of the field. *)
Definition decoded_int `{Codecs} (ft : gotype) (got : list bool) : value :=
  match ft with
  | TInt k => VInt (wrap_signed (kind_bits k) (signed_of_bits got))
  | TUint k => VUint (wrap_unsigned (kind_bits k) (Z_of_bits got))
  | _ => VBigInt (Some (signed_of_bits got))
  end.

(** The number an integer field holds. *)
Definition int_of `{Codecs} (fv : value) : Z :=
  match fv with
  | VInt z | VUint z | VBigInt (Some z) => z
  | _ => 0
  end.

(** One value of a dictionary decoded as an element of the target sequence:
    from the value cell itself or, with a trailing [^], from its first child
    cell. *)
Definition decoded_elem `{Codecs} (sl_elem : Slice -> outcome (value * Slice))
    (isRef : bool) (v : Cell) (y : value) : Prop :=
  exists (ld rest : Slice),
    (if isRef then exists after, LoadRef (BeginParse v) = Ok (ld, after)
     else ld = BeginParse v)
    /\ sl_elem ld = Ok (y, rest).





(** Field lists one after the other. *)
Fixpoint fapp `{Codecs} (fs gs : fieldlist) : fieldlist :=
  match fs with
  | FNil => gs
  | FCons n t tag rest => FCons n t tag (fapp rest gs)
  end.

(** Directives (the tokens left after an optional [maybe]) that the grammar
    of tags rules out whatever the data: nothing at all, [either] with
    fewer than two alternatives, [##] or [bits] with a missing or
    unreadable numeral, [##] with a width above 256, on a [Magic] field a
    literal without [#] or [$], wider than 64 bits or unreadable, and, on
    any other field, a first token that is no directive. *)
Definition malformed `{Codecs} (ft : gotype) (settings : list string) : bool :=
  match settings with
  | [] => true
  | s0 :: args =>
      if String.eqb s0 "either" then
        match args with _ :: _ :: _ => false | _ => true end
      else if String.eqb s0 "##" then
        match args with
        | [] => true
        | s1 :: _ =>
            match strconv.ParseUint s1 10 with
            | strconv.Num N => 256 <? N
            | _ => true
            end
        end
      else if String.eqb s0 "addr" || String.eqb s0 "bool" then false
      else if String.eqb s0 "bits" then
        match args with
        | [] => true
        | s1 :: _ =>
            match strconv.Atoi s1 with strconv.Num _ => false | _ => true end
        end
      else if String.eqb s0 "^" || String.eqb s0 "." then false
      else if is_TMagic ft then
        match magic_shape s0 with
        | None => true
        | Some (sz, base) =>
            (64 <? sz)
            || match strconv.ParseInt (tail1 s0) base with
               | strconv.Num _ => false
               | _ => true
               end
        end
      else negb (String.eqb s0 "dict")
  end.

(** The walk has come to a field and executes its directive [settings]:
    the tag is not [-] and either has no [maybe] or the presence bit read
    from the cursor is set. *)
Definition executes_on_load (rawtag : string) (settings : list string)
    (loader : Slice) : Prop :=
  (tokens rawtag = settings /\ settings <> ["-"%string]
   /\ hd EmptyString settings <> "maybe"%string)
  \/ (tokens rawtag = "maybe"%string :: settings
      /\ exists bs rs, loader = mkCell (true :: bs) rs).

(** The same for [ToCell]: no [maybe], or a value that is present and a
    builder with room for the presence bit. *)
Definition executes_on_store `{Codecs} (rawtag : string) (settings : list string)
    (ft : gotype) (fv : value) (builder : Builder) : Prop :=
  (tokens rawtag = settings /\ settings <> ["-"%string]
   /\ hd EmptyString settings <> "maybe"%string)
  \/ (tokens rawtag = "maybe"%string :: settings
      /\ kind_is_pointer ft && IsNil fv = false
      /\ Z.of_nat (length (bits builder)) < maxBits).

(** *** The domain of the round trip

    What [ToCell] writes for a record, [LoadFromCell] reads back into a
    freshly allocated record when every field is within the domain of its
    directive.  A field under [-], and a nil pointer under [maybe], must hold
    the zero value of its type; an integer must fit both the width of its
    [## N] and its declared kind; a byte string under [bits N] has
    [ceil(N/8)] bytes and zero padding; [^] takes a non-nil opaque cell or a
    nested record, [.] a nested record; a [Magic] literal is unsigned; a
    dictionary is stored without transform; addresses and dictionaries are
    those the codec of the cell library reads back as written; nested
    records are in the domain of their own schema, which declares no
    [LoadFromCell] or [ToCell] method of its own. *)

Definition int_domain `{Codecs} (N : Z) (ft : gotype) (x : value) : Prop :=
  match ft, x with
  | TUint k, VUint z => 0 <= N <= 64 /\ 0 <= z < 2 ^ N /\ z < 2 ^ kind_bits k
  | TInt k, VInt z =>
      1 <= N <= 64 /\ - 2 ^ (N - 1) <= z < 2 ^ (N - 1)
      /\ - 2 ^ (kind_bits k - 1) <= z < 2 ^ (kind_bits k - 1)
  | TBigInt, VBigInt (Some z) =>
      1 <= N <= 256 /\ - 2 ^ (N - 1) <= z < 2 ^ (N - 1)
  | _, _ => False
  end.

Definition bits_domain (N : Z) (bytes : list Z) : Prop :=
  0 <= N < 2 ^ 64
  /\ length bytes = Z.to_nat ((N + 7) / 8)
  /\ Forall (fun z => 0 <= z < 256) bytes
  /\ drop (Z.to_nat N) (unpack bytes)
     = replicate (8 * length bytes - Z.to_nat N) false.

(** The builder [b] with [dbits] and [drefs] appended. *)
Definition bapp (b : Builder) (dbits : list bool) (drefs : list Cell) : Builder :=
  mkCell (bits b ++ dbits) (refs b ++ drefs).

(** Going from builder [b] to [b'] has appended bits and references from
    which [load] reads [x] back, leaving whatever comes after them. *)
Definition reads_back {A} (load : Slice -> outcome (A * Slice)) (x : A)
    (b b' : Builder) : Prop :=
  exists dbits drefs, b' = bapp b dbits drefs
    /\ forall ebits erefs,
         load (mkCell (dbits ++ ebits) (drefs ++ erefs))
           = Ok (x, mkCell ebits erefs).

Definition addr_domain `{Codecs} (a : option Address) : Prop :=
  forall b b', StoreAddr a b = Ok b' -> reads_back LoadAddr a b b'.

Definition dict_domain `{Codecs} (sz : Z) (d : option Dictionary) : Prop :=
  forall b b', StoreDict d b = Ok b' ->
    exists d', d = Some d' /\ reads_back (LoadDict sz) d' b b'.

Definition base_domain `{Codecs} (nested : value -> Prop) (ft : gotype)
    (settings : list string) (x : value) : Prop :=
  match settings with
  | [] => False
  | s0 :: args =>
      if String.eqb s0 "##" then
        match args with
        | tok :: _ =>
            match strconv.ParseUint tok 10 with
            | strconv.Num N => int_domain N ft x
            | _ => False
            end
        | [] => False
        end
      else if String.eqb s0 "addr" then
        match ft, x with
        | TAddr, VAddr a => addr_domain a
        | _, _ => False
        end
      else if String.eqb s0 "bool" then
        match ft, x with
        | TBool, VBool _ => True
        | _, _ => False
        end
      else if String.eqb s0 "bits" then
        match args, ft, x with
        | tok :: _, TBytes, VBytes bytes =>
            match strconv.Atoi tok with
            | strconv.Num N => bits_domain N bytes
            | _ => False
            end
        | _, _, _ => False
        end
      else if String.eqb s0 "^" then
        match ft, x with
        | TCell, VCell (Some _) => True
        | TCell, _ => False
        | _, _ => nested x
        end
      else if String.eqb s0 "." then
        match ft with
        | TCell => False
        | _ => nested x
        end
      else if is_TMagic ft then
        x = VMagic
        /\ match magic_shape s0 with
           | Some (sz, base) =>
               sz <= 64
               /\ match strconv.ParseInt (tail1 s0) base with
                  | strconv.Num magic => 0 <= magic
                  | _ => False
                  end
           | None => False
           end
      else if String.eqb s0 "dict" then
        match args, ft, x with
        | [tok], TDict, VDict d =>
            match strconv.ParseUint tok 10 with
            | strconv.Num sz => dict_domain sz d
            | _ => False
            end
        | _, _, _ => False
        end
      else False
  end.

Definition directive_domain `{Codecs} (nested : value -> Prop) (ft : gotype)
    (settings : list string) (x : value) : Prop :=
  match settings with
  | [] => False
  | s0 :: args =>
      if String.eqb s0 "either" then
        match args with
        | s1 :: s2 :: _ =>
            base_domain nested ft [if strings.HasPrefix s2 "^" then s2 else s1] x
        | _ => False
        end
      else base_domain nested ft settings x
  end.

Definition field_domain `{Codecs} (nested : value -> Prop) (ft : gotype)
    (rawtag : string) (x : value) : Prop :=
  if String.eqb (strings.TrimSpace rawtag) "-" then x = zero ft
  else
    match tokens rawtag with
    | [] => False
    | s0 :: rest =>
        if String.eqb s0 "maybe" then
          if kind_is_pointer ft && IsNil x then x = zero ft
          else directive_domain nested ft rest x
        else directive_domain nested ft (s0 :: rest) x
    end.

Fixpoint nested_domain `{Codecs} (t : gotype) (x : value) {struct t} : Prop :=
  match t with
  | TStruct s => exists rv, x = VStruct rv /\ schema_domain s rv
  | TPtr s => exists rv, x = VPtr (Some rv) /\ schema_domain s rv
  | _ => False
  end
with schema_domain `{Codecs} (s : schema) (rv : list value) {struct s} : Prop :=
  match s with
  | Schema _ m fs =>
      mLoadFromCell m = None /\ mToCellVal m = None /\ mToCellPtr m = None
      /\ fields_domain fs rv
  end
with fields_domain `{Codecs} (fs : fieldlist) (rv : list value) {struct fs} : Prop :=
  match fs with
  | FNil => rv = []
  | FCons _ t tag rest =>
      match rv with
      | x :: xs => field_domain (nested_domain t) t tag x /\ fields_domain rest xs
      | [] => False
      end
  end.

(** What the nested record type of a field has to provide for the round
    trip of the field: what [structStore] makes of a value in the domain,
    [structLoad] reads back. *)
Definition nested_round_trip `{Codecs} (nested : value -> Prop)
    (ss : value -> outcome (option Cell))
    (sl : Slice -> outcome (value * Slice)) : Prop :=
  forall x oc, nested x -> ss x = Ok oc ->
    exists c, oc = Some c
      /\ forall e r, sl (mkCell (bits c ++ e) (refs c ++ r)) = Ok (x, mkCell e r).

(** *** Records used as examples *)

Section Examples.
#[local] Existing Instance simple.codecs.

(** Stand-ins for [structLoad] and [structStore] on fields that are not
    records. *)
Definition no_load : Slice -> outcome (value * Slice) := fun _ => reflect_panic.
Definition no_store : value -> outcome (option Cell) := fun _ => reflect_panic.

Definition Inner : schema :=
  Schema "tlb.Inner" no_methods (FCons "X" (TInt K8) "## 8" FNil).

Definition Message : schema :=
  Schema "tlb.Message" no_methods
    (FCons "_" TMagic "#deadbeef"
    (FCons "Value" (TUint K32) "## 32"
    (FCons "Flag" TBool "bool"
    (FCons "Next" (TPtr Inner) "maybe ^"
    (FCons "Big" TBigInt "maybe ## 256"
    (FCons "Inline" (TStruct Inner) "."
    (FCons "Raw" TBytes "bits 12"
    (FCons "Owner" TAddr "addr"
    (FCons "Table" TDict "dict 8"
    (FCons "Body" TCell "either . ^"
    (FCons "Skip" (TUint K8) "-" FNil))))))))))).

Definition message : list value :=
  [VMagic; VUint 42; VBool true; VPtr (Some [VInt (-3)]); VBigInt None;
   VStruct [VInt 100]; VBytes [171; 192]; VAddr (Some tt);
   VDict (Some [(mkCell [] [], mkCell [true] [])]);
   VCell (Some (mkCell [false; true] [])); VUint 0].

Definition Excluded : schema :=
  Schema "tlb.Excluded" no_methods (FCons "A" (TUint K64) "-" FNil).

Definition Items : schema :=
  Schema "tlb.Items" no_methods
    (FCons "Items" (TSlice (TStruct Inner)) "dict 8 -> array" FNil).

(** Fields that are not exported: an integer, which [ToCell] reads with
    [Uint], and a [*big.Int], which it takes with [Interface]. *)
Definition Hidden : schema :=
  Schema "tlb.Hidden" no_methods (FCons "x" (TUint K8) "## 8" FNil).

Definition HiddenBig : schema :=
  Schema "tlb.HiddenBig" no_methods (FCons "x" TBigInt "## 256" FNil).

Definition Lazy : schema :=
  Schema "tlb.Lazy" no_methods (FCons "P" TBigInt "maybe ## abc" FNil).

Definition Flagged : fieldlist := FCons "Flag" TBool "bool" FNil.

(** A dictionary of the example codec with the two values 1 and 2. *)
Definition two_values : Slice :=
  mkCell [true] [mkCell [] [mkCell (bits_of 8 1) []; mkCell (bits_of 8 2) []]].

End Examples.

(** *** Further notions *)

(** The tag of the [k]-th field of a list. *)
Fixpoint tag_at `{Codecs} (fs : fieldlist) (k : nat) : option string :=
  match fs, k with
  | FNil, _ => None
  | FCons _ _ tag _, O => Some tag
  | FCons _ _ _ rest, S k' => tag_at rest k'
  end.

(** The tag [-], with or without white space around it. *)
Definition excluded (rawtag : string) : bool :=
  String.eqb (strings.TrimSpace rawtag) "-".

Definition parses (p : strconv.parsed) : bool :=
  match p with strconv.Num _ => true | _ => false end.

(** A [Magic] field whose tag is its literal and nothing else: the one kind
    of field the engines neither assign nor read. *)
Definition magic_marker `{Codecs} (t : gotype) (rawtag : string) : bool :=
  is_TMagic t
  && match tokens rawtag with
     | [s0] => negb (calls_Set t [s0])
     | _ => false
     end.

(** Record types the engines can reach into: every field is exported, but
    for those excluded with [-] and the markers, in the nested record types
    as well. *)
Fixpoint exported_type `{Codecs} (t : gotype) {struct t} : bool :=
  match t with
  | TStruct s | TPtr s => exported_schema s
  | TSlice e => exported_type e
  | _ => true
  end
with exported_schema `{Codecs} (s : schema) {struct s} : bool :=
  match s with
  | Schema _ _ fs => exported_fields fs
  end
with exported_fields `{Codecs} (fs : fieldlist) {struct fs} : bool :=
  match fs with
  | FNil => true
  | FCons name t tag rest =>
      (excluded tag || magic_marker t tag || token.IsExported name)
      && exported_type t && exported_fields rest
  end.

(** The record a cursor denotes under a schema: the walk of [LoadFromCell]
    over the fields as the directives read them, leaving aside whether
    [reflect] lets the fields be assigned.  It is the inverse of [ToCell]
    in the statements about [ToCell] alone, where the names of the fields
    play no part. *)
Fixpoint denoted_fields `{Codecs} (fs : fieldlist) (tyname : string) (i : nat)
    (rv : list value) (loader : Slice) {struct fs}
    : outcome (list value * Slice) :=
  match fs with
  | FNil => Ok (rv, loader)
  | FCons name ft tag rest =>
      match rv !! i with
      | None => reflect_panic
      | Some fv =>
          '(fv', loader') ←
            load_field (denoted_struct ft)
              (match ft with
               | TSlice e => denoted_struct e
               | TPtr s => fun ld =>
                   '(r, l) ← denoted_schema s ld; Ok (VStruct r, l)
               | _ => fun _ => reflect_panic
               end)
              tyname name ft tag fv loader;
          denoted_fields rest tyname (S i) (<[i:=fv']> rv) loader'
      end
  end
with denoted_struct `{Codecs} (field : gotype) (loader : Slice) {struct field}
    : outcome (value * Slice) :=
  match field with
  | TStruct s =>
      '(r, l) ← denoted_schema s loader; Ok (VStruct r, l)
  | TPtr s =>
      '(r, l) ← denoted_schema s loader; Ok (VPtr (Some r), l)
  | TMagic => Ok (VMagic, loader)
  | _ => reflect_panic
  end
with denoted_schema `{Codecs} (s : schema) (loader : Slice) {struct s}
    : outcome (list value * Slice) :=
  match s with
  | Schema name m fs =>
      match mLoadFromCell m with
      | Some custom => custom loader
      | None => denoted_fields fs name 0 (zero_fields fs) loader
      end
  end.

(** A check of a schema before any data is seen: the directives [LoadFromCell]
    executes without a panic whatever the cursor holds.  A width is a
    number, at most 64 bits on an integer kind and 256 on a [*big.Int], at
    least one bit when the value is signed, and not negative for [bits]; a
    [Magic] literal has its prefix, at most 64 bits and a value that
    parses; each directive stands on a field of the type it sets, and the
    field is exported unless it is excluded or a [Magic] with its literal.
    [nested_ok] says that the type of the field is a record type that
    passes the check, [elem_ok] that it is a sequence of such records. *)
Definition directive_ok `{Codecs} (nested_ok elem_ok : bool) (ft : gotype)
    (settings : list string) : bool :=
  match settings with
  | [] => false
  | s0 :: args =>
      if String.eqb s0 "##" then
        match args with
        | tok :: _ =>
            match strconv.ParseUint tok 10 with
            | strconv.Num N =>
                if N <=? 64
                then match ft with
                     | TUint _ => true
                     | TInt _ | TBigInt => 1 <=? N
                     | _ => false
                     end
                else (N <=? 256) && is_TBigInt ft
            | _ => false
            end
        | [] => false
        end
      else if String.eqb s0 "addr" then is_TAddr ft
      else if String.eqb s0 "bool" then is_TBool ft
      else if String.eqb s0 "bits" then
        match args with
        | tok :: _ =>
            match strconv.Atoi tok with
            | strconv.Num N => (0 <=? N) && is_TBytes ft
            | _ => false
            end
        | [] => false
        end
      else if String.eqb s0 "^" || String.eqb s0 "." then is_TCell ft || nested_ok
      else if is_TMagic ft then
        match magic_shape s0 with
        | Some (sz, base) =>
            (sz <=? 64) && parses (strconv.ParseInt (tail1 s0) base)
        | None => false
        end
      else if String.eqb s0 "dict" then
        match args with
        | tok :: more =>
            parses (strconv.ParseUint tok 10)
            && match more with
               | s2 :: s3 :: _ =>
                   if String.eqb s2 "->" then String.eqb s3 "array" && elem_ok
                   else is_TDict ft
               | _ => is_TDict ft
               end
        | [] => false
        end
      else false
  end.

Definition either_ok `{Codecs} (nested_ok elem_ok : bool) (ft : gotype)
    (settings : list string) : bool :=
  match settings with
  | [] => false
  | s0 :: args =>
      if String.eqb s0 "either" then
        match args with
        | s1 :: s2 :: _ =>
            directive_ok nested_ok elem_ok ft [s1]
            && directive_ok nested_ok elem_ok ft [s2]
        | _ => false
        end
      else directive_ok nested_ok elem_ok ft settings
  end.

Definition field_ok `{Codecs} (nested_ok elem_ok : bool) (ft : gotype)
    (rawtag : string) : bool :=
  excluded rawtag
  || match tokens rawtag with
     | [] => false
     | s0 :: rest =>
         if String.eqb s0 "maybe" then either_ok nested_ok elem_ok ft rest
         else either_ok nested_ok elem_ok ft (s0 :: rest)
     end.

Fixpoint type_ok `{Codecs} (t : gotype) {struct t} : bool :=
  match t with
  | TStruct s | TPtr s => schema_ok s
  | TMagic => true
  | _ => false
  end
with schema_ok `{Codecs} (s : schema) {struct s} : bool :=
  match s with
  | Schema _ m fs =>
      match mLoadFromCell m with
      | None => fields_ok fs
      | Some _ => false
      end
  end
with fields_ok `{Codecs} (fs : fieldlist) {struct fs} : bool :=
  match fs with
  | FNil => true
  | FCons name t tag rest =>
      field_ok (type_ok t)
               (match t with TSlice e => type_ok e | _ => false end
                && token.IsExported name) t tag
      && (excluded tag || magic_marker t tag || token.IsExported name)
      && fields_ok rest
  end.

(** The error at the bottom of a chain of wrapped errors. *)
Fixpoint root_cause (e : error) : error :=
  match e with
  | Wrapf _ _ cause => root_cause cause
  | _ => e
  end.

(** An error that goes back to a cell without room for more bits or more
    references. *)
Definition out_of_room (e : error) : Prop :=
  root_cause e = ErrNotFit \/ root_cause e = ErrTooMuchRefs.

Definition fails_only_for_room {A} (m : outcome A) : Prop :=
  match m with
  | Ok _ => True
  | Err e => out_of_room e
  | Panic _ => False
  end.

(** The digits of a literal in base [base], and the number they denote. *)
Fixpoint all_digits (base : Z) (s : string) : bool :=
  match s with
  | EmptyString => true
  | String c r =>
      match strconv.digit c with
      | Some d => (d <? base) && all_digits base r
      | None => false
      end
  end.

Fixpoint value_from (base : Z) (s : string) (n : Z) : Z :=
  match s with
  | EmptyString => n
  | String c r => value_from base r (n * base + default 0 (strconv.digit c))
  end.

(** The digits of a literal as bits, [k] bits for each digit, in the order
    of the text. *)
Definition literal_bits (k : nat) (d : string) : list bool :=
  flat_map (fun c => bits_of k (default 0 (strconv.digit c)))
           (list_ascii_of_string d).

(** The errors the encoding of one field returns, by what they are wrapped
    with: nothing (the presence bit of [maybe], the choice bit of [either],
    [addr], [bool], a [Magic]), the bit width ([## N], [bits N]), the
    identifier of the field ([^], [.], [dict]), or the unchanged error of
    the nested [structStore]. *)
Inductive encode_error `{Codecs} (ss : value -> outcome (option Cell))
    (name : string) : error -> Prop :=
| ee_maybe c :
    encode_error ss name (Wrapf "cannot store maybe bit: %w" [] c)
| ee_int n c :
    encode_error ss name (Wrapf "failed to store int %d, err: %w" [ANum n] c)
| ee_uint n c :
    encode_error ss name (Wrapf "failed to store uint %d, err: %w" [ANum n] c)
| ee_bigint n c :
    encode_error ss name (Wrapf "failed to store bigint %d, err: %w" [ANum n] c)
| ee_addr c :
    encode_error ss name (Wrapf "failed to store address, err: %w" [] c)
| ee_bool c :
    encode_error ss name (Wrapf "failed to store bool, err: %w" [] c)
| ee_bits n c :
    encode_error ss name (Wrapf "failed to store bits %d, err: %w" [ANum n] c)
| ee_ref c :
    encode_error ss name
      (Wrapf "failed to store cell to ref for %s, err: %w" [AStr name] c)
| ee_builder c :
    encode_error ss name
      (Wrapf "failed to store cell to builder for %s, err: %w" [AStr name] c)
| ee_magic c :
    encode_error ss name (Wrapf "failed to store magic: %w" [] c)
| ee_dict c :
    encode_error ss name
      (Wrapf "failed to store dict for %s, err: %w" [AStr name] c)
| ee_nested x e :
    ss x = Err e -> encode_error ss name e.

(** The errors of the encoding of one field, directive by directive, as
    [load_error_of] has them for the decoding. *)
Definition store_error_of `{Codecs} (ss : value -> outcome (option Cell))
    (name : string) (ft : gotype) (settings : list string) (fv : value)
    (e : error) : Prop :=
  match settings with
  | [] => False
  | s0 :: args =>
      if String.eqb s0 "##" then
        match args with
        | tok :: _ =>
            match strconv.ParseUint tok 10 with
            | strconv.Num N =>
                exists c, e = Wrapf (store_format (spec_int_path N ft)) [ANum N] c
            | _ => False
            end
        | [] => False
        end
      else if String.eqb s0 "addr" then
        exists c, e = Wrapf "failed to store address, err: %w" [] c
      else if String.eqb s0 "bool" then
        exists c, e = Wrapf "failed to store bool, err: %w" [] c
      else if String.eqb s0 "bits" then
        match args with
        | tok :: _ =>
            match strconv.Atoi tok with
            | strconv.Num N =>
                exists c, e = Wrapf "failed to store bits %d, err: %w" [ANum N] c
            | _ => False
            end
        | [] => False
        end
      else if String.eqb s0 "^" || String.eqb s0 "." then
        (is_TCell ft = false /\ ss fv = Err e)
        \/ (if String.eqb s0 "^"
            then exists c,
                   e = Wrapf "failed to store cell to ref for %s, err: %w"
                             [AStr name] c
            else exists c,
                   e = Wrapf "failed to store cell to builder for %s, err: %w"
                             [AStr name] c)
      else if is_TMagic ft then
        exists c, e = Wrapf "failed to store magic: %w" [] c
      else if String.eqb s0 "dict" then
        exists c, e = Wrapf "failed to store dict for %s, err: %w" [AStr name] c
      else False
  end.

Definition field_store_error `{Codecs} (ss : value -> outcome (option Cell))
    (name : string) (ft : gotype) (toks : list string) (fv : value) (e : error)
    : Prop :=
  let bit := exists c, e = Wrapf "cannot store maybe bit: %w" [] c in
  let either (settings : list string) :=
    match settings with
    | [] => False
    | t0 :: targs =>
        if String.eqb t0 "either" then
          match targs with
          | s1 :: s2 :: _ =>
              bit
              \/ store_error_of ss name ft
                    [if strings.HasPrefix s2 "^" then s2 else s1] fv e
          | _ => False
          end
        else store_error_of ss name ft settings fv e
    end in
  match toks with
  | [] => False
  | s0 :: rest =>
      if String.eqb s0 "maybe" then bit \/ either rest else either toks
  end.

(** A step of the encoding that, when it succeeds, has only appended bits
    and references to the builder, within the capacity of a cell, and
    appends the same ones to any other builder that has room for them. *)
Definition appends (f : Builder -> outcome Builder) : Prop :=
  forall b b', f b = Ok b' ->
    exists dbits drefs,
      b' = bapp b dbits drefs
      /\ (dbits = [] \/ Z.of_nat (length (bits b) + length dbits) <= maxBits)
      /\ (drefs = [] \/ Z.of_nat (length (refs b) + length drefs) <= maxRefs)
      /\ forall b2,
           Z.of_nat (length (bits b2) + length dbits) <= maxBits ->
           Z.of_nat (length (refs b2) + length drefs) <= maxRefs ->
           f b2 = Ok (bapp b2 dbits drefs).

(** *** A record type with a codec of its own

    [Boxed] declares both methods: one flag, written as one bit. *)

Section MoreExamples.
#[local] Existing Instance simple.codecs.

Definition boxed_load : Slice -> outcome (list value * Slice) :=
  fun l => '(b, l') ← LoadBoolBit l; Ok ([VBool b], l').

Definition boxed_store : list value -> outcome (option Cell) :=
  fun rv =>
    match rv with
    | [VBool b] => Ok (Some (mkCell [b] []))
    | _ => Err (ErrPrim "unexpected record")
    end.

Definition boxed_methods : methods :=
  {| mLoadFromCell := Some boxed_load;
     mToCellVal := Some boxed_store;
     mToCellPtr := None |}.

Definition boxed_fields : fieldlist := FCons "On" TBool EmptyString FNil.

Definition Boxed : schema := Schema "tlb.Boxed" boxed_methods boxed_fields.

End MoreExamples.



(** Membership of a concrete record in a domain, by evaluation. *)
Ltac in_domain :=
  repeat (vm_compute;
          first [reflexivity | congruence | exact I | split | eexists
                | constructor]).

(** ** Facts about tags and numerals *)

Lemma Split_not_nil (s : string) : strings.Split s <> [].
Proof.
  destruct s as [|c r]; simpl; [discriminate|].
  destruct (Ascii.eqb c " "); [discriminate|].
  destruct (strings.Split r); discriminate.
Qed.

Lemma Split_dash (s : string) (toks : list string) :
  strings.Split s = toks -> toks <> ["-"%string] -> String.eqb s "-" = false.
Proof.
  intros Hs Hne. destruct (String.eqb_spec s "-") as [->|]; [|reflexivity].
  simpl in Hs. congruence.
Qed.

Lemma digit_nonneg (c : ascii) (d : Z) : strconv.digit c = Some d -> 0 <= d.
Proof.
  unfold strconv.digit. intros H.
  repeat match type of H with
         | (if ?b then _ else _) = _ => destruct b eqn:?
         end; inversion H; subst; lia.
Qed.

Lemma hex_value_from_mono (s : string) (n : Z) :
  0 <= n -> all_hex s = true -> n <= hex_value_from s n.
Proof.
  revert n. induction s as [|c r IH]; intros n Hn Hs; simpl in *; [lia|].
  apply andb_prop in Hs as [Hc Hr]. unfold hex_digit in Hc.
  destruct (strconv.digit c) as [d|] eqn:Hd; [|discriminate].
  pose proof (digit_nonneg _ _ Hd). simpl.
  specialize (IH (n * 16 + d) ltac:(lia) Hr). lia.
Qed.

(** On hexadecimal digits the loop of [ParseUint] computes the value, or
    reports a range error when it exceeds 64 bits. *)
Lemma digits_hex (s : string) (n : Z) :
  0 <= n <= strconv.maxUint64 -> all_hex s = true ->
  strconv.digits 16 s n =
    if hex_value_from s n <=? strconv.maxUint64
    then strconv.Num (hex_value_from s n) else strconv.ErrRange.
Proof.
  revert n. induction s as [|c r IH]; intros n Hn Hs; simpl in *.
  - destruct (Z.leb_spec n strconv.maxUint64); [reflexivity|lia].
  - apply andb_prop in Hs as [Hc Hr]. unfold hex_digit in Hc.
    destruct (strconv.digit c) as [d|] eqn:Hd; [|discriminate].
    pose proof (digit_nonneg _ _ Hd) as Hd0. simpl.
    apply Z.ltb_lt in Hc.
    destruct (Z.leb_spec 16 d); [lia|].
    assert (Hcut : strconv.maxUint64 / 16 + 1 = 2 ^ 60) by reflexivity.
    assert (Hmax : strconv.maxUint64 = 2 ^ 60 * 16 - 1) by reflexivity.
    rewrite Hcut.
    pose proof (hex_value_from_mono r (n * 16 + d) ltac:(lia) Hr) as Hmono.
    destruct (Z.leb_spec (2 ^ 60) n).
    { destruct (Z.leb_spec (hex_value_from r (n * 16 + d)) strconv.maxUint64);
        [lia|reflexivity]. }
    destruct (Z.ltb_spec strconv.maxUint64 (n * 16 + d)).
    { destruct (Z.leb_spec (hex_value_from r (n * 16 + d)) strconv.maxUint64);
        [lia|reflexivity]. }
    apply IH; [lia|assumption].
Qed.

(** A hexadecimal literal of value at least [2^63] does not parse as an
    [int64]. *)
Lemma ParseInt_hex_overflow (s : string) :
  all_hex s = true -> 2 ^ 63 <= hex_value s ->
  strconv.ParseInt s 16 = strconv.ErrRange.
Proof.
  intros Hs Hv. destruct s as [|c r]; [unfold hex_value in Hv; simpl in Hv; lia|].
  unfold strconv.ParseInt.
  assert (Hsign : (Ascii.eqb c "+" || Ascii.eqb c "-") = false).
  { simpl in Hs. apply andb_prop in Hs as [Hc _]. unfold hex_digit in Hc.
    destruct (Ascii.eqb_spec c "+") as [->|]; [discriminate|].
    destruct (Ascii.eqb_spec c "-") as [->|]; [discriminate|]. reflexivity. }
  apply orb_false_elim in Hsign as [Hplus Hminus].
  rewrite Hplus, Hminus. cbn [orb negb andb].
  unfold strconv.ParseUint.
  rewrite digits_hex by (try assumption; unfold strconv.maxUint64; lia).
  fold (hex_value (String c r)).
  destruct (Z.leb_spec (hex_value (String c r)) strconv.maxUint64); [|reflexivity].
  destruct (Z.leb_spec (2 ^ 63) (hex_value (String c r))); [reflexivity|lia].
Qed.

(** The value the digit loop computes is bounded by the number of digits. *)
Lemma digits_bound (base : Z) (s : string) (n v : Z) :
  2 <= base -> 0 <= n -> strconv.digits base s n = strconv.Num v ->
  n * base ^ strings.len s <= v < (n + 1) * base ^ strings.len s.
Proof.
  intros Hb. revert n. unfold strings.len.
  induction s as [|c r IH]; intros n Hn H; cbn [strconv.digits String.length] in *.
  - inversion H; subst. cbn. lia.
  - destruct (strconv.digit c) as [d|] eqn:Hd; [|discriminate H].
    pose proof (digit_nonneg _ _ Hd) as Hd0.
    destruct (Z.leb_spec base d); [discriminate H|].
    destruct (_ <=? n); [discriminate H|].
    destruct (_ <? _); [discriminate H|].
    apply IH in H; [|nia].
    rewrite Nat2Z.inj_succ, Z.pow_succ_r by lia.
    assert (0 < base ^ Z.of_nat (String.length r)) by (apply Z.pow_pos_nonneg; lia).
    nia.
Qed.

Lemma ParseInt_bound (base : Z) (s : string) (v : Z) :
  2 <= base -> strconv.ParseInt s base = strconv.Num v -> 0 <= v ->
  v < base ^ strings.len s.
Proof.
  intros Hb H Hv. destruct s as [|c r]; [discriminate H|].
  unfold strconv.ParseInt in H.
  assert (Hmono : base ^ strings.len r <= base ^ strings.len (String c r)).
  { unfold strings.len. apply Z.pow_le_mono_r; cbn [String.length]; lia. }
  assert (Hbody : forall body un, strconv.ParseUint body base = strconv.Num un ->
                    0 <= un < base ^ strings.len body).
  { intros body un Hu. unfold strconv.ParseUint in Hu.
    destruct body; [discriminate Hu|].
    apply digits_bound in Hu; lia. }
  destruct (Ascii.eqb c "-") eqn:Hneg.
  - rewrite orb_true_r in H.
    destruct (strconv.ParseUint r base) as [un| |] eqn:Hu; try discriminate H.
    apply Hbody in Hu. cbn [negb andb] in H.
    destruct (2 ^ 63 <? un); [discriminate H|]. inversion H; subst. lia.
  - rewrite orb_false_r in H. cbn [negb andb] in H.
    destruct (Ascii.eqb c "+").
    + destruct (strconv.ParseUint r base) as [un| |] eqn:Hu; try discriminate H.
      apply Hbody in Hu. destruct (2 ^ 63 <=? un); [discriminate H|].
      inversion H; subst. lia.
    + destruct (strconv.ParseUint (String c r) base) as [un| |] eqn:Hu;
        try discriminate H.
      apply Hbody in Hu. destruct (2 ^ 63 <=? un); [discriminate H|].
      inversion H; subst. lia.
Qed.

(** A literal that parses has at most as many bits as its tag announces. *)
Lemma magic_fits_width (s0 : string) (sz base magic : Z) :
  magic_shape s0 = Some (sz, base) ->
  strconv.ParseInt (tail1 s0) base = strconv.Num magic -> 0 <= magic ->
  magic < 2 ^ sz.
Proof.
  intros Hshape Hp Hm. unfold magic_shape in Hshape.
  assert (Hlen : forall p, strings.HasPrefix s0 p = true -> p <> EmptyString ->
                   strings.len (tail1 s0) = strings.len s0 - 1).
  { intros p Hpre Hne. destruct s0 as [|c r].
    - destruct p; [contradiction|discriminate Hpre].
    - unfold strings.len. cbn [tail1 String.length]. lia. }
  destruct (strings.HasPrefix s0 "#") eqn:Hh.
  - inversion Hshape; subst. apply ParseInt_bound in Hp; [|lia|exact Hm].
    rewrite (Hlen "#"%string Hh ltac:(discriminate)) in Hp.
    assert (0 <= strings.len s0 - 1).
    { rewrite <- (Hlen "#"%string Hh ltac:(discriminate)). unfold strings.len. lia. }
    rewrite Z.mul_comm, Z.pow_mul_r by lia. exact Hp.
  - destruct (strings.HasPrefix s0 "$") eqn:Hd; [|discriminate Hshape].
    inversion Hshape; subst. apply ParseInt_bound in Hp; [|lia|exact Hm].
    rewrite (Hlen "$"%string Hd ltac:(discriminate)) in Hp. exact Hp.
Qed.

(** ** The claims *)

Section Claims.
Context `{codecs : Codecs}.

Implicit Types (sl sl_elem : Slice -> outcome (value * Slice)).
Implicit Types (ss : value -> outcome (option Cell)).
Implicit Types (tyname name rawtag tag : string) (ft : gotype).
Implicit Types (fv : value) (loader : Slice) (builder : Builder).

(** Reading back exactly the bits that come first. *)
Lemma read_app (xs ys : list bool) (rs : list Cell) (sz : Z) :
  sz = Z.of_nat (length xs) ->
  read sz (mkCell (xs ++ ys) rs) = Ok (xs, mkCell ys rs).
Proof.
  intros ->. unfold read. cbn [bits refs].
  rewrite length_app, Nat2Z.id.
  destruct (Z.leb_spec (Z.of_nat (length xs)) (Z.of_nat (length xs + length ys)));
    [|lia].
  rewrite take_app_length, drop_app_length. reflexivity.
Qed.

Lemma LoadBoolBit_cons (b : bool) (bs : list bool) (rs : list Cell) :
  LoadBoolBit (mkCell (b :: bs) rs) = Ok (b, mkCell bs rs).
Proof.
  unfold LoadBoolBit. change (b :: bs) with ([b] ++ bs)%list.
  rewrite (read_app [b] bs rs 1) by reflexivity.
  destruct b; reflexivity.
Qed.

(** Both engines start a field the same way: with the tokens of the tag. *)
Lemma load_field_tokens sl sl_elem tyname name ft rawtag fv loader s0 rest :
  tokens rawtag = s0 :: rest -> s0 :: rest <> ["-"%string] ->
  load_field sl sl_elem tyname name ft rawtag fv loader =
    if String.eqb s0 "maybe" then
      '(has, l) ← wrap "failed to load maybe for %s, err: %w" [AStr name]
                       (LoadBoolBit loader);
      if has : bool
      then load_either sl sl_elem tyname name ft (strings.TrimSpace rawtag) rest fv l
      else Ok (fv, l)
    else load_either sl sl_elem tyname name ft (strings.TrimSpace rawtag)
           (s0 :: rest) fv loader.
Proof.
  unfold tokens, load_field. intros Ht Hne.
  rewrite (Split_dash _ _ Ht Hne), Ht. reflexivity.
Qed.

Lemma store_field_tokens ss name ft rawtag fv builder s0 rest :
  tokens rawtag = s0 :: rest -> s0 :: rest <> ["-"%string] ->
  store_field ss name ft rawtag fv builder =
    if String.eqb s0 "maybe" then
      if kind_is_pointer ft && IsNil fv then
        wrap "cannot store maybe bit: %w" [] (StoreBoolBit false builder)
      else
        b ← wrap "cannot store maybe bit: %w" [] (StoreBoolBit true builder);
        store_either ss name ft (strings.TrimSpace rawtag) rest fv b
    else store_either ss name ft (strings.TrimSpace rawtag) (s0 :: rest) fv builder.
Proof.
  unfold tokens, store_field. intros Ht Hne.
  rewrite (Split_dash _ _ Ht Hne), Ht. reflexivity.
Qed.

(** The guards of the two loops start the same way. *)
Lemma reached_on_load_tokens rawtag loader s0 rest :
  tokens rawtag = s0 :: rest -> s0 :: rest <> ["-"%string] ->
  reached_on_load rawtag loader =
    ('(settings, l) ←
       (if String.eqb s0 "maybe" then
          match LoadBoolBit loader with
          | Ok (true, l) => Some (rest, l)
          | _ => None
          end
        else Some (s0 :: rest, loader));
     match settings with
     | [] => None
     | t0 :: targs =>
         if String.eqb t0 "either" then
           match targs, LoadBoolBit l with
           | s1 :: s2 :: _, Ok (isSecond, _) =>
               Some [if isSecond : bool then s2 else s1]
           | _, _ => None
           end
         else Some settings
     end).
Proof.
  intros Ht Hne. unfold reached_on_load, tokens in *.
  rewrite (Split_dash _ _ Ht Hne), Ht. reflexivity.
Qed.

Lemma reached_on_store_tokens ft rawtag fv builder s0 rest :
  tokens rawtag = s0 :: rest -> s0 :: rest <> ["-"%string] ->
  reached_on_store ft rawtag fv builder =
    ('(settings, b) ←
       (if String.eqb s0 "maybe" then
          if kind_is_pointer ft && IsNil fv then None
          else match StoreBoolBit true builder with
               | Ok b => Some (rest, b)
               | _ => None
               end
        else Some (s0 :: rest, builder));
     match settings with
     | [] => None
     | t0 :: targs =>
         if String.eqb t0 "either" then
           match targs with
           | s1 :: s2 :: _ =>
               let second := strings.HasPrefix s2 "^" in
               match StoreBoolBit second b with
               | Ok _ => Some [if second then s2 else s1]
               | _ => None
               end
           | _ => None
           end
         else Some settings
     end).
Proof.
  intros Ht Hne. unfold reached_on_store, tokens in *.
  rewrite (Split_dash _ _ Ht Hne), Ht. reflexivity.
Qed.

Lemma sets_field_absent ft rawtag (rest : list string) (bs : list bool)
    (rs : list Cell) :
  tokens rawtag = "maybe"%string :: rest ->
  sets_field ft rawtag (mkCell (false :: bs) rs) = false.
Proof.
  intros Ht. unfold sets_field.
  rewrite (reached_on_load_tokens _ _ _ _ Ht) by (intros [=]).
  change (String.eqb "maybe" "maybe") with true. cbv iota.
  rewrite LoadBoolBit_cons. reflexivity.
Qed.

(** A field excluded with [-] and a [Magic] with its literal are neither
    assigned by [LoadFromCell] nor read by [ToCell]. *)
Lemma marked_not_set (t : gotype) (rawtag : string) (loader : Slice) :
  excluded rawtag || magic_marker t rawtag = true ->
  sets_field t rawtag loader = false.
Proof.
  unfold excluded, magic_marker, sets_field, reached_on_load, tokens.
  intros Hm. destruct (String.eqb (strings.TrimSpace rawtag) "-"); [reflexivity|].
  cbn [orb] in Hm. apply andb_true_iff in Hm as (_ & Hm).
  destruct (strings.Split (strings.TrimSpace rawtag)) as [|s0 [|s1 rest]];
    try discriminate Hm.
  destruct (String.eqb s0 "maybe") eqn:E1.
  { destruct (LoadBoolBit loader) as [[[] l]| |]; reflexivity. }
  cbn [mbind option_bind]. destruct (String.eqb s0 "either") eqn:E2; [reflexivity|].
  apply negb_true_iff in Hm. exact Hm.
Qed.

Lemma marked_not_read (t : gotype) (rawtag : string) (fv : value) (b : Builder) :
  excluded rawtag || magic_marker t rawtag = true ->
  reads_Interface t rawtag fv b = false.
Proof.
  unfold excluded, magic_marker, reads_Interface, reached_on_store, tokens.
  intros Hm. destruct (String.eqb (strings.TrimSpace rawtag) "-"); [reflexivity|].
  cbn [orb] in Hm. apply andb_true_iff in Hm as (Ht & Hm).
  destruct (strings.Split (strings.TrimSpace rawtag)) as [|s0 [|s1 rest]];
    try discriminate Hm.
  destruct (String.eqb s0 "maybe") eqn:E1.
  { destruct (kind_is_pointer t && IsNil fv); [reflexivity|].
    destruct (StoreBoolBit true b); reflexivity. }
  cbn [mbind option_bind]. destruct (String.eqb s0 "either") eqn:E2; [reflexivity|].
  apply negb_true_iff in Hm. unfold calls_Set in Hm. unfold calls_Interface.
  repeat (apply orb_false_iff in Hm as (Hm & ?)).
  repeat match goal with H : String.eqb _ _ = false |- _ => rewrite H; clear H end.
  rewrite Ht. reflexivity.
Qed.

(** The two loops at a field whose value they may touch. *)
Lemma load_fields_cons name ft tag rest tyname i rv fv loader :
  rv !! i = Some fv ->
  excluded tag || magic_marker ft tag || token.IsExported name = true ->
  load_fields (FCons name ft tag rest) tyname i rv loader =
    '(fv', loader') ←
      load_field (structLoad ft)
        (if token.IsExported name
         then match ft with
              | TSlice e => structLoad e
              | TPtr s => fun ld =>
                  '(r, l) ← load_schema s (type_name (TStruct s)) ld;
                  Ok (VStruct r, l)
              | _ => fun _ => reflect_panic
              end
         else fun ld =>
                '(_, _) ← match ft with
                          | TSlice e => structLoad e
                          | TPtr s => fun ld =>
                              '(r, l) ← load_schema s (type_name (TStruct s)) ld;
                              Ok (VStruct r, l)
                          | _ => fun _ => reflect_panic
                          end ld;
                read_only_panic)
        tyname name ft tag fv loader;
    load_fields rest tyname (S i) (<[i:=fv']> rv) loader'.
Proof.
  intros Hi Hm. cbn [load_fields]. rewrite Hi.
  assert (token.IsExported name || negb (sets_field ft tag loader) = true) as ->.
  { destruct (token.IsExported name); [reflexivity|].
    rewrite orb_false_r in Hm. rewrite (marked_not_set _ _ _ Hm). reflexivity. }
  reflexivity.
Qed.

Lemma store_fields_cons name ft tag rest i rv fv builder :
  rv !! i = Some fv ->
  excluded tag || magic_marker ft tag || token.IsExported name = true ->
  store_fields (FCons name ft tag rest) i rv builder =
    b ← store_field (structStore ft (type_name ft)) name ft tag fv builder;
    store_fields rest (S i) rv b.
Proof.
  intros Hi Hm. cbn [store_fields]. rewrite Hi.
  assert (negb (token.IsExported name) && reads_Interface ft tag fv builder = false)
    as ->.
  { destruct (token.IsExported name); [reflexivity|].
    rewrite orb_false_r in Hm. rewrite (marked_not_read _ _ _ _ Hm). reflexivity. }
  reflexivity.
Qed.

(** C10: on a [Magic] field, a hexadecimal literal whose value is at least
    [2^63] makes both [LoadFromCell] and [ToCell] panic, and with "corrupted
    magic value in tag" when its width (four bits per digit) is within the
    64 bits the engines allow: [strconv.ParseInt] parses it as a signed
    64-bit integer. *)
Theorem magic_literal_above_int64_panics
    sl sl_elem ss tyname name rawtag (d : string) fv loader builder :
  tokens rawtag = [String "#" d] ->
  all_hex d = true ->
  2 ^ 63 <= hex_value d ->
  (is_panic (load_field sl sl_elem tyname name TMagic rawtag fv loader) = true
   /\ is_panic (store_field ss name TMagic rawtag fv builder) = true)
  /\ ((strings.len (String "#" d) - 1) * 4 <= 64 ->
      load_field sl sl_elem tyname name TMagic rawtag fv loader
        = Panic "corrupted magic value in tag"
      /\ store_field ss name TMagic rawtag fv builder
        = Panic "corrupted magic value in tag").
Proof.
  intros Ht Hhex Hv.
  assert (Hne : [String "#" d] <> ["-"%string]) by (intros [=]).
  assert (Hd : String.eqb d "#" = false).
  { destruct (String.eqb_spec d "#") as [->|]; [discriminate|reflexivity]. }
  pose proof (ParseInt_hex_overflow d Hhex Hv) as Hparse.
  rewrite (load_field_tokens _ _ _ _ _ _ _ _ _ _ Ht Hne).
  rewrite (store_field_tokens _ _ _ _ _ _ _ _ Ht Hne).
  cbn -[strings.len strconv.ParseInt Z.mul Z.ltb]. rewrite Hd.
  cbn -[strings.len strconv.ParseInt Z.mul Z.ltb]. rewrite Hparse.
  destruct (Z.ltb_spec 64 ((strings.len (String "#" d) - 1) * 4)) as [Hw|Hw].
  - split; [split; reflexivity|]. intros Hsz. lia.
  - split; [split; reflexivity|]. intros _. split; reflexivity.
Qed.

(** What both engines do with a tag made of [##] and one numeral. *)
Lemma load_int_field sl sl_elem tyname name ft rawtag tok fv loader :
  tokens rawtag = ["##"%string; tok] ->
  load_field sl sl_elem tyname name ft rawtag fv loader =
    match strconv.ParseUint tok 10 with
    | strconv.Num N =>
        if N <=? 64 then
          '(x, l) ← read_int (spec_int_path N ft) N loader;
          v ← Convert x ft; Ok (v, l)
        else if N <=? 256 then
          '(x, l) ← read_int ArbitraryPrecision N loader;
          v ← Set_ (is_TBigInt ft) x; Ok (v, l)
        else cannot_deserialize name (strings.TrimSpace rawtag)
    | _ => Panic "corrupted num bits in ## tag"
    end.
Proof.
  intros Ht. rewrite (load_field_tokens _ _ _ _ _ _ _ _ _ _ Ht) by (intros [=]).
  cbn -[strconv.ParseUint Z.leb].
  destruct (strconv.ParseUint tok 10) as [N| |]; try reflexivity.
  unfold spec_int_path.
  destruct (N <=? 64) eqn:H64.
  - destruct ft; cbn -[Z.leb]; unfold LoadInt;
      repeat match goal with
             | |- context [wrap ?f ?a ?m] => destruct m as [[? ?]| |]; cbn
             end; reflexivity.
  - destruct (N <=? 256); [|reflexivity].
    unfold read_int.
    destruct (LoadBigInt N loader) as [[? ?]| |]; reflexivity.
Qed.

Lemma store_int_field ss name ft rawtag tok fv builder :
  tokens rawtag = ["##"%string; tok] ->
  store_field ss name ft rawtag fv builder =
    match strconv.ParseUint tok 10 with
    | strconv.Num N =>
        if N <=? 256 then write_int (spec_int_path N ft) N ft fv builder
        else cannot_serialize name (strings.TrimSpace rawtag)
    | _ => Panic "corrupted num bits in ## tag"
    end.
Proof.
  intros Ht. rewrite (store_field_tokens _ _ _ _ _ _ _ _ Ht) by (intros [=]).
  cbn -[strconv.ParseUint Z.leb].
  destruct (strconv.ParseUint tok 10) as [N| |]; try reflexivity.
  unfold spec_int_path.
  destruct (Z.leb_spec N 64) as [H64|H64].
  - assert ((N <=? 256) = true) as -> by (apply Z.leb_le; lia).
    destruct ft; cbn; try reflexivity; destruct fv; reflexivity.
  - destruct (N <=? 256); [|reflexivity].
    destruct ft; cbn; try reflexivity; destruct fv; reflexivity.
Qed.

(** C4: for a [## N] field both engines pick the integer primitive from the
    width [N] and the declared type alone: a [*big.Int] field always takes
    the arbitrary-precision path, other fields take the native signed path
    (signed kinds) or the native unsigned path up to 64 bits and the
    arbitrary-precision path from 65 to 256 bits. *)
Theorem int_path_follows_width_and_type
    sl sl_elem ss tyname name ft rawtag tok (N : Z) fv loader builder :
  tokens rawtag = ["##"%string; tok] ->
  strconv.ParseUint tok 10 = strconv.Num N ->
  N <= 256 ->
  load_field sl sl_elem tyname name ft rawtag fv loader =
    ('(x, l) ← read_int (spec_int_path N ft) N loader;
     v ← (if N <=? 64 then Convert x ft else Set_ (is_TBigInt ft) x);
     Ok (v, l))
  /\ store_field ss name ft rawtag fv builder =
       write_int (spec_int_path N ft) N ft fv builder.
Proof.
  intros Ht HN Hle. split.
  - rewrite (load_int_field _ _ _ _ _ _ _ _ _ Ht), HN.
    destruct (Z.leb_spec N 64) as [H64|H64]; [reflexivity|].
    assert ((N <=? 256) = true) as -> by (apply Z.leb_le; lia).
    unfold spec_int_path.
    assert ((N <=? 64) = false) as -> by (apply Z.leb_gt; lia).
    destruct (is_TBigInt ft); reflexivity.
  - rewrite (store_int_field _ _ _ _ _ _ _ Ht), HN.
    assert ((N <=? 256) = true) as -> by (apply Z.leb_le; lia).
    reflexivity.
Qed.

Lemma read_int_no_panic (p : int_path) (N : Z) loader :
  is_panic (read_int p N loader) = false.
Proof.
  destruct p; unfold read_int, LoadInt, LoadUInt, LoadBigInt, read;
    destruct (N <=? _); reflexivity.
Qed.

Lemma write_no_panic (bs : list bool) builder : is_panic (write bs builder) = false.
Proof. unfold write. destruct (_ <? _); reflexivity. Qed.

Lemma wrap_no_panic {A} fmt args (m : outcome A) :
  is_panic (wrap fmt args m) = is_panic m.
Proof. destruct m; reflexivity. Qed.

Lemma length_bits_of (n : nat) (z : Z) : length (bits_of n z) = n.
Proof. induction n as [|k IH]; cbn; [reflexivity|]. rewrite IH. reflexivity. Qed.

(** C3, as the code has it: for a [## N] field every width above 256 makes
    both engines panic, and so does a numeral that is not an unsigned
    decimal.  Every width from 1 to 256 is served by both engines when the
    declared type fits it, and so is the width 0 on an unsigned field: the
    decoder takes exactly the [N] bits that come first, makes of them the
    value of the field and leaves the rest, and returns the error of its
    way, with [N], when fewer are left; the encoder appends exactly [N]
    bits, the low bits of the value, or returns the error of its way when
    the cell is full.  The width 0 is not rejected: an unsigned field
    decodes to 0 with the cursor where it was, and is written as nothing. *)
Theorem fixed_width_bounds
    sl sl_elem ss tyname name ft rawtag tok fv loader builder :
  tokens rawtag = ["##"%string; tok] ->
  match strconv.ParseUint tok 10 with
  | strconv.Num N =>
      (256 < N ->
         load_field sl sl_elem tyname name ft rawtag fv loader
           = cannot_deserialize name (strings.TrimSpace rawtag)
         /\ store_field ss name ft rawtag fv builder
           = cannot_serialize name (strings.TrimSpace rawtag))
      /\ (int_fits N ft fv ->
         (is_panic (load_field sl sl_elem tyname name ft rawtag fv loader) = false
          /\ is_panic (store_field ss name ft rawtag fv builder) = false)
         /\ (forall fv0 (got rest : list bool) (rs : list Cell),
               Z.of_nat (length got) = N ->
               load_field sl sl_elem tyname name ft rawtag fv0
                          (mkCell (got ++ rest) rs)
                 = Ok (decoded_int ft got, mkCell rest rs))
         /\ (forall fv0 (l : Slice),
               Z.of_nat (length (bits l)) < N ->
               load_field sl sl_elem tyname name ft rawtag fv0 l
                 = Err (Wrapf (load_format (spec_int_path N ft)) [ANum N]
                              ErrNoMoreData))
         /\ store_field ss name ft rawtag fv builder
             = wrap (store_format (spec_int_path N ft)) [ANum N]
                    (write (bits_of (Z.to_nat N) (int_of fv)) builder)
         /\ Z.of_nat (length (bits_of (Z.to_nat N) (int_of fv))) = N
         /\ (Z.of_nat (length (bits builder)) + N <= maxBits ->
             store_field ss name ft rawtag fv builder
               = Ok (mkCell (bits builder ++ bits_of (Z.to_nat N) (int_of fv))
                            (refs builder))))
      /\ (N = 0 -> forall k, ft = TUint k ->
          (forall fv0 (l : Slice),
              load_field sl sl_elem tyname name ft rawtag fv0 l = Ok (VUint 0, l))
          /\ (forall z,
                Z.of_nat (length (bits builder)) <= maxBits ->
                store_field ss name ft rawtag (VUint z) builder = Ok builder))
  | _ =>
      load_field sl sl_elem tyname name ft rawtag fv loader
        = Panic "corrupted num bits in ## tag"
      /\ store_field ss name ft rawtag fv builder
        = Panic "corrupted num bits in ## tag"
  end.
Proof.
  intros Ht.
  assert (Hload : forall fv0 l,
            load_field sl sl_elem tyname name ft rawtag fv0 l = _)
    by (intros fv0 l; exact (load_int_field _ _ _ _ _ _ _ fv0 l Ht)).
  assert (Hstore : forall x b, store_field ss name ft rawtag x b = _)
    by (intros x b; exact (store_int_field _ _ _ _ _ x b Ht)).
  rewrite Hload, Hstore.
  destruct (strconv.ParseUint tok 10) as [N| |] eqn:Hparse; [|split; reflexivity..].
  split; [|split].
  - intros Hbig.
    assert ((N <=? 64) = false) as -> by (apply Z.leb_gt; lia).
    assert ((N <=? 256) = false) as -> by (apply Z.leb_gt; lia).
    split; reflexivity.
  - intros Hfit.
    assert (HN : 0 <= N <= 256).
    { unfold int_fits in Hfit. destruct ft, fv; try contradiction; try lia.
      destruct p; [lia|contradiction]. }
    assert (Hstored : forall b,
              (if N <=? 256 then write_int (spec_int_path N ft) N ft fv b
               else cannot_serialize name (strings.TrimSpace rawtag))
              = wrap (store_format (spec_int_path N ft)) [ANum N]
                     (write (bits_of (Z.to_nat N) (int_of fv)) b)).
    { intros b. assert ((N <=? 256) = true) as -> by (apply Z.leb_le; lia).
      unfold int_fits in Hfit. unfold spec_int_path.
      destruct ft, fv; try contradiction; cbn.
      - assert ((N <=? 64) = true) as -> by (apply Z.leb_le; lia). reflexivity.
      - assert ((N <=? 64) = true) as -> by (apply Z.leb_le; lia). reflexivity.
      - destruct p; [|contradiction]. reflexivity. }
    assert (Hread : forall l,
              (if N <=? 64
               then '(x, l0) ← read_int (spec_int_path N ft) N l;
                    v ← Convert x ft; Ok (v, l0)
               else if N <=? 256
                    then '(x, l0) ← read_int ArbitraryPrecision N l;
                         v ← Set_ (is_TBigInt ft) x; Ok (v, l0)
                    else cannot_deserialize name (strings.TrimSpace rawtag))
              = '(got, l0) ← wrap (load_format (spec_int_path N ft)) [ANum N]
                                  (read N l);
                Ok (decoded_int ft got, l0)).
    { intros l. unfold int_fits in Hfit. unfold spec_int_path.
      destruct (Z.leb_spec N 64) as [H64|H64].
      - destruct ft, fv; try contradiction; cbn;
          unfold LoadInt, LoadBigInt, LoadUInt;
          destruct (read N l) as [[got l0]| |]; reflexivity.
      - assert ((N <=? 256) = true) as -> by (apply Z.leb_le; lia).
        destruct ft, fv; try contradiction; try lia. cbn. unfold LoadBigInt.
        destruct (read N l) as [[got l0]| |]; reflexivity. }
    rewrite Hstored, Hread.
    split; [split|split; [|split; [|split; [|split]]]].
    + unfold read. destruct (N <=? Z.of_nat _); reflexivity.
    + rewrite wrap_no_panic. apply write_no_panic.
    + intros fv0 got rest rs Hgot. rewrite Hload, Hread.
      rewrite read_app by (symmetry; exact Hgot). reflexivity.
    + intros fv0 l Hshort. rewrite Hload, Hread. unfold read.
      destruct (Z.leb_spec N (Z.of_nat (length (bits l)))); [lia|reflexivity].
    + reflexivity.
    + rewrite length_bits_of. apply Z2Nat.id. lia.
    + intros Hroom. unfold write. rewrite length_bits_of, Z2Nat.id by lia.
      destruct (Z.ltb_spec maxBits (Z.of_nat (length (bits builder)) + N)); [lia|].
      reflexivity.
  - intros -> k ->. split.
    + intros fv0 l. rewrite Hload. cbn.
      unfold LoadUInt, read. destruct l as [bs rs]. cbn [bits refs].
      destruct (Z.leb_spec 0 (Z.of_nat (length bs))); [|lia].
      destruct k; reflexivity.
    + intros z Hcap. rewrite Hstore. cbn. unfold StoreUInt, write.
      change (bits_of (Z.to_nat 0) z) with (@nil bool). cbn [length].
      destruct (Z.ltb_spec maxBits (Z.of_nat (length (bits builder)) + Z.of_nat 0));
        [lia|].
      cbn. rewrite app_nil_r. destruct builder. reflexivity.
Qed.

(** C2: on an [either A B] field [LoadFromCell] reads one bit and runs
    alternative [A] alone when it is clear and alternative [B] alone when it
    is set; [ToCell] does not look at the value to choose: it stores the bit
    1 and runs [B] exactly when the token [B] starts with [^], and stores the
    bit 0 and runs [A] otherwise. *)
Theorem either_dispatch
    sl sl_elem ss tyname name ft rawtag (A B : string) (more : list string)
    fv (b : bool) (bs : list bool) (rs : list Cell) builder :
  tokens rawtag = "either"%string :: A :: B :: more ->
  load_field sl sl_elem tyname name ft rawtag fv (mkCell (b :: bs) rs)
    = load_directive sl sl_elem tyname name ft (strings.TrimSpace rawtag)
        [if b then B else A] fv (mkCell bs rs)
  /\ store_field ss name ft rawtag fv builder
    = (b' ← wrap "cannot store maybe bit: %w" []
               (StoreBoolBit (strings.HasPrefix B "^") builder);
       store_directive ss name ft (strings.TrimSpace rawtag)
         [if strings.HasPrefix B "^" then B else A] fv b').
Proof.
  intros Ht. split.
  - rewrite (load_field_tokens _ _ _ _ _ _ _ _ _ _ Ht) by (intros [=]).
    cbn -[LoadBoolBit load_directive]. rewrite LoadBoolBit_cons. reflexivity.
  - rewrite (store_field_tokens _ _ _ _ _ _ _ _ Ht) by (intros [=]).
    reflexivity.
Qed.

(** C5: a [maybe] field whose pointer is nil is encoded as the presence
    bit 0 and nothing else; on that bit [LoadFromCell] consumes exactly one
    bit, does not touch the field (in the record [structLoad] allocates it
    holds the zero value of its type) and goes on with the next field. *)
Theorem maybe_absent
    sl sl_elem ss tyname name ft rawtag (rest : list string) fv builder :
  tokens rawtag = "maybe"%string :: rest ->
  kind_is_pointer ft = true -> IsNil fv = true ->
  store_field ss name ft rawtag fv builder
    = wrap "cannot store maybe bit: %w" [] (write [false] builder)
  /\ (Z.of_nat (length (bits builder)) < maxBits ->
      store_field ss name ft rawtag fv builder
        = Ok (mkCell (bits builder ++ [false]) (refs builder)))
  /\ (forall fv0 bs rs,
        load_field sl sl_elem tyname name ft rawtag fv0 (mkCell (false :: bs) rs)
          = Ok (fv0, mkCell bs rs))
  /\ (forall fs i rv bs rs,
        is_Some (rv !! i) ->
        load_fields (FCons name ft rawtag fs) tyname i rv (mkCell (false :: bs) rs)
          = load_fields fs tyname (S i) rv (mkCell bs rs))
  /\ (forall m,
        structLoad (TStruct (Schema tyname m (FCons name ft rawtag FNil)))
                   (mkCell [false] [])
          = match mLoadFromCell m with
            | None => Ok (VStruct [zero ft], mkCell [] [])
            | Some custom =>
                '(r, l) ← wrap "failed to load from cell for %s, using manual loader, err: %w"
                             [AStr (unqualified tyname)]
                             (custom (mkCell [false] []));
                Ok (VStruct r, l)
            end).
Proof.
  intros Ht Hptr Hnil.
  assert (Hstore : store_field ss name ft rawtag fv builder
                   = wrap "cannot store maybe bit: %w" [] (write [false] builder)).
  { rewrite (store_field_tokens _ _ _ _ _ _ _ _ Ht) by (intros [=]).
    cbn. rewrite Hptr, Hnil. reflexivity. }
  assert (Hload : forall fv0 bs rs,
            load_field sl sl_elem tyname name ft rawtag fv0 (mkCell (false :: bs) rs)
            = Ok (fv0, mkCell bs rs)).
  { intros. rewrite (load_field_tokens _ _ _ _ _ _ _ _ _ _ Ht) by (intros [=]).
    cbn -[LoadBoolBit]. rewrite LoadBoolBit_cons. reflexivity. }
  split; [exact Hstore|]. split; [|split; [exact Hload|split]].
  - intros Hroom. rewrite Hstore. unfold write, maxBits in *. cbn [length].
    destruct (Z.ltb_spec 1023 (Z.of_nat (length (bits builder)) + Z.of_nat 1));
      [lia|reflexivity].
  - intros fs i rv bs rs [fv0 Hi]. cbn [load_fields]. rewrite Hi.
    (* the nested loaders differ from [sl], [sl_elem]: redo the field step *)
    match goal with
    | |- context [load_field ?a ?b tyname name ft rawtag fv0 _] =>
        assert (E : load_field a b tyname name ft rawtag fv0 (mkCell (false :: bs) rs)
                    = Ok (fv0, mkCell bs rs))
    end.
    { rewrite (load_field_tokens _ _ _ _ _ _ _ _ _ _ Ht) by (intros [=]).
      cbn -[LoadBoolBit]. rewrite LoadBoolBit_cons. reflexivity. }
    rewrite E. cbn -[load_fields sets_field].
    rewrite (sets_field_absent _ _ _ _ _ Ht), orb_true_r.
    rewrite list_insert_id by exact Hi. reflexivity.
  - intros m. cbn [structLoad load_schema schema_name type_name].
    destruct (mLoadFromCell m) as [custom|]; [reflexivity|].
    cbn [load_fields zero_fields lookup list_lookup].
    match goal with
    | |- context [load_field ?a ?b ?c name ft rawtag ?d _] =>
        assert (E : load_field a b c name ft rawtag d (mkCell [false] [])
                    = Ok (d, mkCell [] []))
    end.
    { rewrite (load_field_tokens _ _ _ _ _ _ _ _ _ _ Ht) by (intros [=]).
      cbn -[LoadBoolBit]. rewrite LoadBoolBit_cons. reflexivity. }
    rewrite E. cbn -[sets_field].
    rewrite (sets_field_absent _ _ _ _ _ Ht), orb_true_r. reflexivity.
Qed.

(** A magic literal starts with [#] or [$], so it is none of the keywords
    tested before the [Magic] branch, unless it is [##] itself. *)
Lemma magic_literal_not_keyword (s0 : string) (sz base : Z) :
  magic_shape s0 = Some (sz, base) -> s0 <> "##"%string ->
  String.eqb s0 "-" = false /\ String.eqb s0 "maybe" = false
  /\ String.eqb s0 "either" = false /\ String.eqb s0 "##" = false
  /\ String.eqb s0 "addr" = false /\ String.eqb s0 "bool" = false
  /\ String.eqb s0 "bits" = false /\ String.eqb s0 "^" = false
  /\ String.eqb s0 "." = false.
Proof.
  intros Hshape Hne. unfold magic_shape in Hshape.
  destruct s0 as [|c r]; [discriminate|]. cbn [strings.HasPrefix] in Hshape.
  destruct (String.eqb_spec (String c r) "##") as [E|_]; [contradiction|].
  revert Hshape.
  destruct (Ascii.eqb_spec "#" c) as [<-|_].
  { intros _. repeat split; reflexivity. }
  destruct (Ascii.eqb_spec "$" c) as [<-|_]; [|intros H; discriminate H].
  intros _. repeat split; reflexivity.
Qed.

Lemma load_magic_field sl sl_elem tyname name rawtag (s0 : string) (sz base : Z)
    fv loader :
  tokens rawtag = [s0] -> magic_shape s0 = Some (sz, base) -> s0 <> "##"%string ->
  load_field sl sl_elem tyname name TMagic rawtag fv loader =
    if 64 <? sz then Panic "too big magic value type in tag"
    else match strconv.ParseInt (tail1 s0) base with
         | strconv.Num magic =>
             '(ldMagic, l) ← wrap "failed to load magic: %w" [] (LoadUInt sz loader);
             if ldMagic =? to_uint64 magic then Ok (fv, l)
             else Err (Errorf "magic is not correct for %s, want %x, got %x"
                              [AStr tyname; ANum magic; ANum ldMagic])
         | _ => Panic "corrupted magic value in tag"
         end.
Proof.
  intros Ht Hshape Hne.
  destruct (magic_literal_not_keyword _ _ _ Hshape Hne)
    as (Hd & Hm & He & Hn & Ha & Hb & Hbi & Hr & Hdot).
  rewrite (load_field_tokens _ _ _ _ _ _ _ _ _ _ Ht)
    by (intros [= E]; rewrite E in Hd; vm_compute in Hd; discriminate Hd).
  rewrite Hm. unfold load_either. rewrite He. unfold load_directive.
  rewrite Hn, Ha, Hb, Hbi, Hr, Hdot. cbn [orb is_TMagic]. rewrite Hshape.
  reflexivity.
Qed.

Lemma store_magic_field ss name rawtag (s0 : string) (sz base : Z) fv builder :
  tokens rawtag = [s0] -> magic_shape s0 = Some (sz, base) -> s0 <> "##"%string ->
  store_field ss name TMagic rawtag fv builder =
    if 64 <? sz then Panic "too big magic value type in tag"
    else match strconv.ParseInt (tail1 s0) base with
         | strconv.Num magic =>
             wrap "failed to store magic: %w" []
                  (StoreUInt (to_uint64 magic) sz builder)
         | _ => Panic "corrupted magic value in tag"
         end.
Proof.
  intros Ht Hshape Hne.
  destruct (magic_literal_not_keyword _ _ _ Hshape Hne)
    as (Hd & Hm & He & Hn & Ha & Hb & Hbi & Hr & Hdot).
  rewrite (store_field_tokens _ _ _ _ _ _ _ _ Ht)
    by (intros [= E]; rewrite E in Hd; vm_compute in Hd; discriminate Hd).
  rewrite Hm. unfold store_either. rewrite He. unfold store_directive.
  rewrite Hn, Ha, Hb, Hbi, Hr, Hdot. cbn [orb is_TMagic]. rewrite Hshape.
  reflexivity.
Qed.

(** C6: on a [Magic] field with a well-formed literal, [LoadFromCell] reads
    exactly as many bits as the literal is wide; when they differ from the
    literal it returns an [error] (no panic) that carries the expected and
    the read pattern, and when they agree it goes on without touching the
    record.  [ToCell] writes the literal at that width whatever the record
    holds. *)
Theorem magic_check
    sl sl_elem ss tyname name rawtag (s0 : string) (sz base magic : Z)
    fv loader builder :
  tokens rawtag = [s0] -> magic_shape s0 = Some (sz, base) -> s0 <> "##"%string ->
  sz <= 64 -> strconv.ParseInt (tail1 s0) base = strconv.Num magic ->
  (forall (got rest : list bool) (rs : list Cell),
      Z.of_nat (length got) = sz ->
      load_field sl sl_elem tyname name TMagic rawtag fv (mkCell (got ++ rest) rs)
        = if Z_of_bits got =? to_uint64 magic
          then Ok (fv, mkCell rest rs)
          else Err (Errorf "magic is not correct for %s, want %x, got %x"
                           [AStr tyname; ANum magic; ANum (Z_of_bits got)]))
  /\ (Z.of_nat (length (bits loader)) < sz ->
      load_field sl sl_elem tyname name TMagic rawtag fv loader
        = Err (Wrapf "failed to load magic: %w" [] ErrNoMoreData))
  /\ (forall ss' fv',
      store_field ss' name TMagic rawtag fv' builder
        = wrap "failed to store magic: %w" []
               (StoreUInt (to_uint64 magic) sz builder)).
Proof.
  intros Ht Hshape Hne Hsz Hparse.
  assert (Hw : (64 <? sz) = false) by (apply Z.ltb_ge; exact Hsz).
  split; [|split].
  - intros got rest rs Hlen.
    rewrite (load_magic_field _ _ _ _ _ _ _ _ _ _ Ht Hshape Hne), Hw, Hparse.
    unfold LoadUInt. rewrite read_app by (symmetry; exact Hlen). reflexivity.
  - intros Hshort.
    rewrite (load_magic_field _ _ _ _ _ _ _ _ _ _ Ht Hshape Hne), Hw, Hparse.
    unfold LoadUInt, read.
    destruct (Z.leb_spec sz (Z.of_nat (length (bits loader)))); [lia|reflexivity].
  - intros ss' fv'.
    rewrite (store_magic_field _ _ _ _ _ _ _ _ Ht Hshape Hne), Hw, Hparse.
    reflexivity.
Qed.

Lemma transform_array_decoded sl_elem (isRef : bool) (kvs : list (Cell * Cell))
    (xs ys : list value) :
  Forall2 (decoded_elem sl_elem isRef) (map snd kvs) ys ->
  transform_array sl_elem isRef kvs (VSlice xs) = Ok (VSlice (xs ++ ys)).
Proof.
  revert xs ys. induction kvs as [|kv kvs IH]; intros xs ys HF; cbn in HF.
  - inversion HF; subst. cbn. rewrite app_nil_r. reflexivity.
  - inversion HF as [|v y vs ys' Hy Hys]; subst.
    destruct Hy as (ld & rest & Hld & Hsl). cbn [transform_array].
    destruct isRef.
    + destruct Hld as [after Hld]. rewrite Hld. cbn. rewrite Hsl. cbn.
      rewrite (IH _ _ Hys), <- app_assoc. reflexivity.
    + subst ld. cbn. rewrite Hsl. cbn.
      rewrite (IH _ _ Hys), <- app_assoc. reflexivity.
Qed.

(** C7: on a [dict N -> array [^]] field whose dictionary has been loaded,
    [LoadFromCell] appends to the field one decoded element per entry of
    [dict.All()], in that order, each decoded from the entry's value cell or,
    with the trailing [^], from its first child cell: a field that starts
    empty, as in the record [structLoad] allocates, ends with exactly as many
    elements as the dictionary has entries, none for an empty dictionary.  A
    target other than [array] after [->] is a panic. *)
Theorem dict_array_transform
    sl sl_elem tyname name ft rawtag (s1 tgt : string) (more : list string)
    (sz : Z) (dict : Dictionary) fv loader (l : Slice) :
  tokens rawtag = "dict"%string :: s1 :: "->"%string :: tgt :: more ->
  is_TMagic ft = false ->
  strconv.ParseUint s1 10 = strconv.Num sz ->
  LoadDict sz loader = Ok (dict, l) ->
  (tgt = "array"%string ->
     forall xs ys,
       fv = VSlice xs ->
       Forall2 (decoded_elem sl_elem
                  (match more with s4 :: _ => String.eqb s4 "^" | [] => false end))
               (map snd (All dict)) ys ->
       load_field sl sl_elem tyname name ft rawtag fv loader
         = Ok (VSlice (xs ++ ys), l)
       /\ length ys = length (All dict)
       /\ (xs = [] -> All dict = [] ->
           load_field sl sl_elem tyname name ft rawtag fv loader = Ok (VSlice [], l)))
  /\ (tgt <> "array"%string ->
      load_field sl sl_elem tyname name ft rawtag fv loader
        = Panic "transformation to this type is not supported").
Proof.
  intros Ht Hm Hparse Hdict.
  rewrite (load_field_tokens _ _ _ _ _ _ _ _ _ _ Ht) by (intros [=]).
  cbn -[strconv.ParseUint transform_array]. rewrite Hm, Hparse, Hdict.
  cbn -[transform_array]. split.
  - intros -> xs ys -> HF. cbn -[transform_array].
    rewrite (transform_array_decoded _ _ _ _ _ HF). cbn.
    split; [reflexivity|]. split.
    + apply Forall2_length in HF. rewrite length_map in HF. auto.
    + intros -> Hempty. rewrite Hempty in HF. inversion HF. reflexivity.
  - intros Hne. destruct (String.eqb_spec tgt "array"); [contradiction|reflexivity].
Qed.







Lemma load_fields_app (pre fs : fieldlist) tyname (i : nat) (rv : list value) loader :
  load_fields (fapp pre fs) tyname i rv loader =
    ('(rv', l') ← load_fields pre tyname i rv loader;
     load_fields fs tyname (i + NumField pre)%nat rv' l').
Proof.
  revert i rv loader. induction pre as [|n t tag rest IH]; intros i rv loader.
  - cbn [fapp load_fields NumField]. rewrite Nat.add_0_r. reflexivity.
  - cbn [fapp load_fields NumField]. destruct (rv !! i) as [fv|]; [|reflexivity].
    match goal with
    | |- context [load_field ?a ?b tyname n t tag fv loader] =>
        destruct (load_field a b tyname n t tag fv loader) as [[fv' l']| |]
    end; [|reflexivity..].
    cbn -[load_fields sets_field].
    destruct (token.IsExported n || negb (sets_field t tag loader));
      [|reflexivity].
    rewrite IH, Nat.add_succ_r. reflexivity.
Qed.

Lemma store_fields_app (pre fs : fieldlist) (i : nat) (rv : list value) builder :
  store_fields (fapp pre fs) i rv builder =
    (b ← store_fields pre i rv builder;
     store_fields fs (i + NumField pre)%nat rv b).
Proof.
  revert i builder. induction pre as [|n t tag rest IH]; intros i builder.
  - cbn [fapp store_fields NumField]. rewrite Nat.add_0_r. reflexivity.
  - cbn [fapp store_fields NumField]. destruct (rv !! i) as [fv|]; [|reflexivity].
    destruct (negb (token.IsExported n) && reads_Interface t tag fv builder);
      [reflexivity|].
    match goal with
    | |- context [store_field ?a n t tag fv builder] =>
        destruct (store_field a n t tag fv builder) as [b| |]
    end; [|reflexivity..].
    cbn. rewrite IH, Nat.add_succ_r. reflexivity.
Qed.

Lemma malformed_load sl sl_elem tyname name ft tag (settings : list string) fv loader :
  malformed ft settings = true ->
  is_panic (load_either sl sl_elem tyname name ft tag settings fv loader) = true.
Proof.
  unfold malformed, load_either, load_directive. intros H.
  destruct settings as [|s0 args]; [reflexivity|].
  destruct (String.eqb s0 "either").
  { destruct args as [|? [|? ?]]; [reflexivity..|discriminate H]. }
  destruct (String.eqb s0 "##").
  { destruct args as [|s1 ?]; [reflexivity|].
    destruct (strconv.ParseUint s1 10) as [N| |]; [|reflexivity..].
    apply Z.ltb_lt in H.
    assert ((N <=? 64) = false) as -> by (apply Z.leb_gt; lia).
    assert ((N <=? 256) = false) as -> by (apply Z.leb_gt; lia).
    reflexivity. }
  destruct (String.eqb s0 "addr"); [discriminate H|].
  destruct (String.eqb s0 "bool"); [discriminate H|]. cbn [orb] in H.
  destruct (String.eqb s0 "bits").
  { destruct args as [|s1 ?]; [reflexivity|].
    destruct (strconv.Atoi s1); [discriminate H|reflexivity..]. }
  destruct (String.eqb s0 "^" || String.eqb s0 "."); [discriminate H|].
  destruct (is_TMagic ft).
  { destruct (magic_shape s0) as [[sz base]|]; [|reflexivity].
    destruct (64 <? sz); [reflexivity|]. cbn [orb] in H.
    destruct (strconv.ParseInt (tail1 s0) base); [discriminate H|reflexivity..]. }
  destruct (String.eqb s0 "dict"); [discriminate H|reflexivity].
Qed.

Lemma malformed_store ss name ft tag (settings : list string) fv builder :
  malformed ft settings = true ->
  is_panic (store_either ss name ft tag settings fv builder) = true.
Proof.
  unfold malformed, store_either, store_directive. intros H.
  destruct settings as [|s0 args]; [reflexivity|].
  destruct (String.eqb s0 "either").
  { destruct args as [|? [|? ?]]; [reflexivity..|discriminate H]. }
  destruct (String.eqb s0 "##").
  { destruct args as [|s1 ?]; [reflexivity|].
    destruct (strconv.ParseUint s1 10) as [N| |]; [|reflexivity..].
    apply Z.ltb_lt in H.
    assert ((N <=? 64) = false) as -> by (apply Z.leb_gt; lia).
    assert ((N <=? 256) = false) as -> by (apply Z.leb_gt; lia).
    reflexivity. }
  destruct (String.eqb s0 "addr"); [discriminate H|].
  destruct (String.eqb s0 "bool"); [discriminate H|]. cbn [orb] in H.
  destruct (String.eqb s0 "bits").
  { destruct args as [|s1 ?]; [reflexivity|].
    destruct (strconv.Atoi s1); [discriminate H|reflexivity..]. }
  destruct (String.eqb s0 "^" || String.eqb s0 "."); [discriminate H|].
  destruct (is_TMagic ft).
  { destruct (magic_shape s0) as [[sz base]|]; [|reflexivity].
    destruct (64 <? sz); [reflexivity|]. cbn [orb] in H.
    destruct (strconv.ParseInt (tail1 s0) base); [discriminate H|reflexivity..]. }
  destruct (String.eqb s0 "dict"); [discriminate H|reflexivity].
Qed.

Lemma bind_panic {A B} (m : outcome A) (f : A -> outcome B) (a : A) :
  m = Ok a -> is_panic (f a) = true -> is_panic (m ≫= f) = true.
Proof. intros -> H. exact H. Qed.

(** C9, as the code has it: a malformed directive makes [LoadFromCell] and
    [ToCell] panic when the walk over the fields comes to execute it, that
    is when every field before it has been processed without error and, if
    the directive stands under [maybe], the presence bit read is set (the
    value is present, on encoding); the panic does not depend on what the
    cursor holds beyond that bit. *)
Theorem malformed_directive_panics_when_reached
    tyname name ft rawtag (settings : list string) (pre post : fieldlist)
    (rv rv' : list value) loader (loader' : Slice) (b0 b : Builder) :
  malformed ft settings = true ->
  (load_fields pre tyname 0 rv loader = Ok (rv', loader') ->
   is_Some (rv' !! NumField pre) ->
   executes_on_load rawtag settings loader' ->
   is_panic (load_fields (fapp pre (FCons name ft rawtag post)) tyname 0 rv loader)
     = true)
  /\ (store_fields pre 0 rv b0 = Ok b ->
      (exists fv, rv !! NumField pre = Some fv
                  /\ executes_on_store rawtag settings ft fv b) ->
      is_panic (store_fields (fapp pre (FCons name ft rawtag post)) 0 rv b0)
        = true).
Proof.
  intros Hbad. split.
  - intros Hpre [fv Hfv] Hexec.
    rewrite load_fields_app. eapply bind_panic; [exact Hpre|].
    cbn [load_fields Nat.add]. rewrite Hfv.
    match goal with
    | |- context [load_field ?a ?b tyname name ft rawtag fv loader'] =>
        assert (E : is_panic (load_field a b tyname name ft rawtag fv loader') = true)
    end.
    { destruct Hexec as [(Ht & Hdash & Hmaybe)|(Ht & bs & rs & ->)].
      - destruct settings as [|s0 rest]; [exfalso; eapply Split_not_nil; exact Ht|].
        rewrite (load_field_tokens _ _ _ _ _ _ _ _ _ _ Ht Hdash).
        cbn [hd] in Hmaybe.
        destruct (String.eqb_spec s0 "maybe"); [contradiction|].
        apply malformed_load. exact Hbad.
      - rewrite (load_field_tokens _ _ _ _ _ _ _ _ _ _ Ht) by (intros [=]).
        cbn -[LoadBoolBit load_either]. rewrite LoadBoolBit_cons.
        cbn -[load_either]. apply malformed_load. exact Hbad. }
    match goal with
    | |- context [load_field ?a ?b tyname name ft rawtag fv loader'] =>
        destruct (load_field a b tyname name ft rawtag fv loader')
    end; [discriminate E..|reflexivity].
  - intros Hpre (fv & Hfv & Hexec).
    rewrite store_fields_app. eapply bind_panic; [exact Hpre|].
    cbn [store_fields Nat.add]. rewrite Hfv.
    match goal with
    | |- context [store_field ?a name ft rawtag fv b] =>
        assert (E : is_panic (store_field a name ft rawtag fv b) = true)
    end.
    { destruct Hexec as [(Ht & Hdash & Hmaybe)|(Ht & Hval & Hroom)].
      - destruct settings as [|s0 rest]; [exfalso; eapply Split_not_nil; exact Ht|].
        rewrite (store_field_tokens _ _ _ _ _ _ _ _ Ht Hdash).
        cbn [hd] in Hmaybe.
        destruct (String.eqb_spec s0 "maybe"); [contradiction|].
        apply malformed_store. exact Hbad.
      - rewrite (store_field_tokens _ _ _ _ _ _ _ _ Ht) by (intros [=]).
        cbn -[StoreBoolBit store_either kind_is_pointer IsNil]. rewrite Hval.
        unfold StoreBoolBit, write, maxBits in *. cbn [length].
        destruct (Z.ltb_spec 1023 (Z.of_nat (length (bits b)) + Z.of_nat 1)); [lia|].
        cbn -[store_either]. apply malformed_store. exact Hbad. }
    match goal with
    | |- context [store_field ?a name ft rawtag fv b] =>
        destruct (store_field a name ft rawtag fv b)
    end; [discriminate E..|].
    destruct (negb (token.IsExported name) && reads_Interface ft rawtag fv b);
      reflexivity.
Qed.

(** *** The round trip *)

Lemma fold_bits_of (n : nat) (z acc : Z) :
  fold_left (fun a b => 2 * a + Z.b2z b) (bits_of n z) acc
  = acc * 2 ^ Z.of_nat n + z mod 2 ^ Z.of_nat n.
Proof.
  revert acc. induction n as [|k IH]; intros acc.
  - cbn. rewrite Z.mod_1_r. lia.
  - cbn [bits_of fold_left]. rewrite IH.
    rewrite Nat2Z.inj_succ, Z.pow_succ_r by lia.
    rewrite (Z.mul_comm 2 (2 ^ Z.of_nat k)).
    rewrite Z.rem_mul_r by lia.
    rewrite (Z.testbit_spec' z (Z.of_nat k)) by lia. lia.
Qed.

Lemma Z_of_bits_of (n : nat) (z : Z) :
  Z_of_bits (bits_of n z) = z mod 2 ^ Z.of_nat n.
Proof. unfold Z_of_bits. rewrite fold_bits_of. lia. Qed.

Lemma signed_of_bits_of (n : nat) (z : Z) :
  (0 < n)%nat -> - 2 ^ (Z.of_nat n - 1) <= z < 2 ^ (Z.of_nat n - 1) ->
  signed_of_bits (bits_of n z) = z.
Proof.
  intros Hn Hz. destruct n as [|k]; [lia|].
  assert (Hk : Z.of_nat (S k) - 1 = Z.of_nat k) by lia. rewrite Hk in Hz.
  assert (Hp : 2 ^ Z.of_nat (S k) = 2 * 2 ^ Z.of_nat k)
    by (rewrite Nat2Z.inj_succ, Z.pow_succ_r; lia).
  assert (H2 : 0 < 2 ^ Z.of_nat k) by (apply Z.pow_pos_nonneg; lia).
  unfold signed_of_bits. rewrite Z_of_bits_of, length_bits_of.
  cbn [bits_of]. destruct (Z.testbit z (Z.of_nat k)) eqn:Hb.
  - apply Z.testbit_true in Hb; [|lia].
    assert (z < 0).
    { destruct (Z.lt_ge_cases z 0); [assumption|].
      rewrite Z.div_small in Hb by lia. discriminate Hb. }
    rewrite Hp. rewrite <- (Z.mod_add z 1) by lia.
    rewrite Z.mod_small by lia. lia.
  - apply Z.testbit_false in Hb; [|lia].
    assert (0 <= z).
    { destruct (Z.lt_ge_cases z 0) as [Hneg|]; [|assumption].
      assert (E : z / 2 ^ Z.of_nat k = -1).
      { symmetry. apply (Z.div_unique z (2 ^ Z.of_nat k) (-1) (z + 2 ^ Z.of_nat k)); lia. }
      rewrite E in Hb. discriminate Hb. }
    rewrite Z.mod_small by lia. reflexivity.
Qed.

(** Bytes and bits. *)
Lemma pad8_take8 (l : list bool) : pad8 (take 8 l) = take 8 (l ++ replicate 8 false).
Proof.
  unfold pad8. destruct (decide (8 <= length l)%nat) as [Hl|Hl].
  - rewrite (take_app_le l) by lia.
    rewrite take_app_le by (rewrite length_take; apply Nat.min_glb; lia).
    rewrite take_take. reflexivity.
  - rewrite (take_ge l) by lia. reflexivity.
Qed.

Lemma pack_zeros (k : nat) (l : list bool) (m : nat) :
  pack k (l ++ replicate m false) = pack k l.
Proof.
  revert l m. induction k as [|k IH]; intros l m; [reflexivity|].
  cbn [pack]. f_equal.
  - rewrite !pad8_take8, <- app_assoc, <- replicate_add.
    rewrite !take_app, !take_replicate, !Nat.min_l by lia. reflexivity.
  - rewrite drop_app, drop_replicate. apply IH.
Qed.

Lemma pack_unpack (bytes : list Z) :
  Forall (fun z => 0 <= z < 256) bytes ->
  pack (length bytes) (unpack bytes) = bytes.
Proof.
  induction 1 as [|z bytes Hz _ IH]; [reflexivity|].
  cbn [length pack unpack flat_map]. fold (unpack bytes).
  rewrite take_app_length' by (symmetry; apply length_bits_of).
  rewrite drop_app_length' by (symmetry; apply length_bits_of).
  rewrite IH. f_equal.
  unfold pad8. rewrite take_app_length' by (symmetry; apply length_bits_of).
  rewrite Z_of_bits_of. apply Z.mod_small. cbn. lia.
Qed.

Lemma length_unpack (bytes : list Z) : length (unpack bytes) = (8 * length bytes)%nat.
Proof.
  induction bytes as [|z bytes IH]; [reflexivity|].
  cbn [unpack flat_map length]. fold (unpack bytes).
  rewrite length_app, length_bits_of, IH. lia.
Qed.

Lemma pack_take_unpack (N : Z) (bytes : list Z) :
  bits_domain N bytes ->
  pack (Z.to_nat ((N + 7) / 8)) (take (Z.to_nat N) (unpack bytes)) = bytes.
Proof.
  intros (HN & Hlen & Hrange & Hpad).
  rewrite <- Hlen.
  rewrite <- (pack_zeros _ _ (8 * length bytes - Z.to_nat N)), <- Hpad.
  rewrite take_drop. apply pack_unpack. exact Hrange.
Qed.

(** Builders and what is read back from them. *)
Lemma bapp_nil (b : Builder) : bapp b [] [] = b.
Proof. destruct b. unfold bapp. cbn. rewrite !app_nil_r. reflexivity. Qed.

Lemma cell_eta (c : Cell) : mkCell (bits c) (refs c) = c.
Proof. destruct c. reflexivity. Qed.

Lemma reads_back_refl {A} (x : A) (b : Builder) :
  reads_back (fun l => Ok (x, l)) x b b.
Proof. exists [], []. split; [symmetry; apply bapp_nil|reflexivity]. Qed.

Lemma reads_back_seq {A B} (load1 : Slice -> outcome (A * Slice))
    (load2 : A -> Slice -> outcome (B * Slice))
    (load : Slice -> outcome (B * Slice)) (x : A) (y : B) (b b1 b2 : Builder) :
  reads_back load1 x b b1 -> reads_back (load2 x) y b1 b2 ->
  (forall l l1, load1 l = Ok (x, l1) -> load l = load2 x l1) ->
  reads_back load y b b2.
Proof.
  intros (d1 & r1 & -> & H1) (d2 & r2 & -> & H2) Hseq.
  exists (d1 ++ d2)%list, (r1 ++ r2)%list. split.
  - unfold bapp. cbn. rewrite !app_assoc. reflexivity.
  - intros e r. rewrite <- !app_assoc, (Hseq _ _ (H1 _ _)). apply H2.
Qed.

Lemma write_reads {A} (load : Slice -> outcome (A * Slice)) (x : A)
    (bs : list bool) (b b' : Builder) :
  write bs b = Ok b' ->
  (forall e r, load (mkCell (bs ++ e) r) = Ok (x, mkCell e r)) ->
  reads_back load x b b'.
Proof.
  unfold write. destruct (_ <? _); [discriminate|]. intros [= <-] H.
  exists bs, []. split; [unfold bapp; rewrite app_nil_r; reflexivity|].
  intros. apply H.
Qed.

Lemma StoreUInt_reads (z N : Z) (b b' : Builder) :
  0 <= N -> 0 <= z < 2 ^ N ->
  StoreUInt z N b = Ok b' -> reads_back (LoadUInt N) z b b'.
Proof.
  intros HN Hz. unfold StoreUInt.
  intros Hw. eapply write_reads; [exact Hw|]. intros e r.
  unfold LoadUInt. rewrite read_app by (rewrite length_bits_of; lia).
  cbn. rewrite Z_of_bits_of, Z2Nat.id, Z.mod_small by lia. reflexivity.
Qed.

Lemma StoreInt_reads (z N : Z) (b b' : Builder) :
  1 <= N -> - 2 ^ (N - 1) <= z < 2 ^ (N - 1) ->
  StoreInt z N b = Ok b' -> reads_back (LoadBigInt N) z b b'.
Proof.
  intros HN Hz. unfold StoreInt.
  intros Hw. eapply write_reads; [exact Hw|]. intros e r.
  unfold LoadBigInt. rewrite read_app by (rewrite length_bits_of; lia).
  cbn. rewrite signed_of_bits_of; [reflexivity|lia|].
  rewrite Z2Nat.id by lia. lia.
Qed.

Lemma StoreBoolBit_reads (v : bool) (b b' : Builder) :
  StoreBoolBit v b = Ok b' -> reads_back LoadBoolBit v b b'.
Proof.
  unfold StoreBoolBit. intros Hw. eapply write_reads; [exact Hw|].
  intros e r. apply LoadBoolBit_cons.
Qed.

Lemma StoreSlice_reads (bytes : list Z) (N : Z) (b b' : Builder) :
  bits_domain N bytes -> StoreSlice bytes N b = Ok b' ->
  reads_back (LoadSlice N) bytes b b'.
Proof.
  intros Hdom. unfold StoreSlice.
  destruct (Z.ltb_spec (Z.of_nat (length bytes) * 8) N); [discriminate|].
  intros Hw. eapply write_reads; [exact Hw|]. intros e r.
  unfold LoadSlice. rewrite read_app.
  - cbn. rewrite pack_take_unpack by exact Hdom. reflexivity.
  - rewrite length_take, length_unpack.
    destruct Hdom as (HN & _). rewrite Nat.min_l by lia. lia.
Qed.

Lemma StoreRef_reads (c : Cell) (b b' : Builder) :
  StoreRef (Some c) b = Ok b' -> reads_back LoadRef c b b'.
Proof.
  unfold StoreRef. destruct (_ <=? _); [discriminate|]. intros [= <-].
  exists [], [c]. split; [unfold bapp; rewrite app_nil_r; reflexivity|].
  reflexivity.
Qed.

Lemma StoreBuilder_bapp (c : Cell) (b b' : Builder) :
  StoreBuilder c b = Ok b' -> b' = bapp b (bits c) (refs c).
Proof.
  unfold StoreBuilder, write. destruct (_ <? _); [discriminate|].
  destruct (_ <? _); [discriminate|]. cbn. intros [= <-]. reflexivity.
Qed.

Lemma wrap_ok {A} fmt args (m : outcome A) (a : A) :
  wrap fmt args m = Ok a -> m = Ok a.
Proof. destruct m; cbn; congruence. Qed.

Lemma magic_shape_width (s0 : string) (sz base : Z) :
  magic_shape s0 = Some (sz, base) -> 0 <= sz.
Proof.
  unfold magic_shape, strings.len. destruct s0 as [|c r]; [discriminate|].
  cbn [String.length strings.HasPrefix].
  destruct (Ascii.eqb "#" c && true); [intros [= <- _]; lia|].
  destruct (Ascii.eqb "$" c && true); [intros [= <- _]; lia|discriminate].
Qed.

Lemma reads_back_then {A B} (load : Slice -> outcome (A * Slice))
    (load' : Slice -> outcome (B * Slice)) (x : A) (y : B) (b b' : Builder) :
  reads_back load x b b' ->
  (forall l l', load l = Ok (x, l') -> load' l = Ok (y, l')) ->
  reads_back load' y b b'.
Proof.
  intros (d & r & -> & H) Hthen. exists d, r. split; [reflexivity|].
  intros. apply Hthen, H.
Qed.

Lemma wrap_signed_small (k : intkind) (z : Z) :
  - 2 ^ (kind_bits k - 1) <= z < 2 ^ (kind_bits k - 1) ->
  wrap_signed (kind_bits k) z = z.
Proof.
  intros Hz. unfold wrap_signed.
  assert (E : 2 ^ kind_bits k = 2 * 2 ^ (kind_bits k - 1)).
  { rewrite <- Z.pow_succ_r by (destruct k; cbn; lia). f_equal. lia. }
  rewrite Z.mod_small by lia. lia.
Qed.

Lemma wrap_unsigned_small (k : intkind) (z : Z) :
  0 <= z < 2 ^ kind_bits k -> wrap_unsigned (kind_bits k) z = z.
Proof. intros Hz. unfold wrap_unsigned. apply Z.mod_small. exact Hz. Qed.


Lemma int_round_trip ss sl sl_elem tyname name ft tag (tok : string) (N : Z)
    (args : list string) (x : value) (b b' : Builder) :
  strconv.ParseUint tok 10 = strconv.Num N ->
  int_domain N ft x ->
  store_directive ss name ft tag ("##"%string :: tok :: args) x b = Ok b' ->
  reads_back (load_directive sl sl_elem tyname name ft tag
                ("##"%string :: tok :: args) (zero ft)) x b b'.
Proof.
  intros HN Hdom Hstore. unfold store_directive in Hstore. unfold load_directive.
  cbn [String.eqb Ascii.eqb Bool.eqb] in *. rewrite HN in *.
  unfold int_domain in Hdom.
  destruct ft; try contradiction; destruct x; try contradiction.
  - destruct Hdom as (HN' & Hz & Hk).
    assert ((N <=? 64) = true) as E by (apply Z.leb_le; lia).
    rewrite E in *. apply wrap_ok in Hstore.
    apply StoreInt_reads in Hstore; [|lia..].
    eapply reads_back_then; [exact Hstore|].
    intros l l' Hl. unfold LoadInt. rewrite Hl. cbn.
    rewrite wrap_signed_small by exact Hk. reflexivity.
  - destruct Hdom as (HN' & Hz & Hk).
    assert ((N <=? 64) = true) as E by (apply Z.leb_le; lia).
    rewrite E in *. apply wrap_ok in Hstore.
    apply StoreUInt_reads in Hstore; [|lia..].
    eapply reads_back_then; [exact Hstore|].
    intros l l' Hl. rewrite Hl. cbn.
    rewrite wrap_unsigned_small by lia. reflexivity.
  - destruct p as [z|]; [|contradiction]. destruct Hdom as (HN' & Hz).
    assert (Hr : reads_back (LoadBigInt N) z b b').
    { destruct (N <=? 64); [|assert ((N <=? 256) = true) as E
                                by (apply Z.leb_le; lia); rewrite E in Hstore];
        apply wrap_ok in Hstore; apply StoreInt_reads in Hstore; (exact Hstore || lia). }
    eapply reads_back_then; [exact Hr|].
    intros l l' Hl. destruct (N <=? 64).
    + rewrite Hl. reflexivity.
    + assert ((N <=? 256) = true) as -> by (apply Z.leb_le; lia).
      rewrite Hl. reflexivity.
Qed.

Lemma base_round_trip (nested : value -> Prop) ss sl sl_elem tyname name ft tag
    (settings : list string) (x : value) (b b' : Builder) :
  nested_round_trip nested ss sl ->
  base_domain nested ft settings x ->
  store_directive ss name ft tag settings x b = Ok b' ->
  reads_back (load_directive sl sl_elem tyname name ft tag settings (zero ft)) x b b'.
Proof.
  intros Hnest Hdom Hstore.
  destruct settings as [|s0 args]; [contradiction|].
  destruct (String.eqb_spec s0 "##") as [->|Hn1].
  { cbn in Hdom. destruct args as [|tok args]; [contradiction|].
    destruct (strconv.ParseUint tok 10) as [N| |] eqn:HN; try contradiction.
    eapply int_round_trip; eassumption. }
  apply String.eqb_neq in Hn1.
  unfold base_domain in Hdom. unfold store_directive in Hstore.
  unfold load_directive. rewrite Hn1 in *.
  destruct (String.eqb s0 "addr").
  { destruct ft; try contradiction; destruct x; try contradiction.
    apply wrap_ok in Hstore. apply Hdom in Hstore.
    eapply reads_back_then; [exact Hstore|].
    intros l l' Hl. rewrite Hl. reflexivity. }
  destruct (String.eqb s0 "bool").
  { destruct ft; try contradiction; destruct x; try contradiction.
    apply wrap_ok in Hstore. apply StoreBoolBit_reads in Hstore.
    eapply reads_back_then; [exact Hstore|].
    intros l l' Hl. rewrite Hl. reflexivity. }
  destruct (String.eqb s0 "bits").
  { destruct args as [|tok args]; [contradiction|].
    destruct ft; try contradiction; destruct x; try contradiction.
    destruct (strconv.Atoi tok) as [N| |]; try contradiction.
    assert (HN : to_uint64 N = N).
    { unfold to_uint64. apply Z.mod_small. apply Hdom. }
    rewrite HN in *.
    apply wrap_ok in Hstore. apply (StoreSlice_reads _ _ _ _ Hdom) in Hstore.
    eapply reads_back_then; [exact Hstore|].
    intros l l' Hl. rewrite Hl. reflexivity. }
  destruct (String.eqb s0 "^") eqn:Hup.
  { cbn [orb] in *.
    assert (Hcell : is_TCell ft = true \/
                    (is_TCell ft = false /\ nested x
                     /\ (c ← ss x;
                         wrap "failed to store cell to ref for %s, err: %w"
                              [AStr name] (StoreRef c b)) = Ok b')).
    { destruct ft; try (right; repeat split; [exact Hdom|exact Hstore]).
      left. reflexivity. }
    destruct Hcell as [Hc|(Hc & Hx & Hs)].
    - destruct ft; try discriminate Hc.
      destruct x as [| | | | | |[c|]| | | | |]; try contradiction.
      cbn in Hstore. apply wrap_ok in Hstore. apply StoreRef_reads in Hstore.
      eapply reads_back_then; [exact Hstore|].
      intros l l' Hl. rewrite Hl. cbn. rewrite cell_eta. reflexivity.
    - rewrite Hc.
      destruct (ss x) as [oc| |] eqn:Hss; try discriminate Hs. cbn in Hs.
      destruct (Hnest _ _ Hx Hss) as (c & -> & Hload).
      apply wrap_ok in Hs. apply StoreRef_reads in Hs.
      eapply reads_back_then; [exact Hs|].
      intros l l' Hl. rewrite Hl. cbn.
      specialize (Hload [] []). rewrite !app_nil_r, cell_eta in Hload.
      unfold BeginParse. rewrite Hload. reflexivity. }
  destruct (String.eqb s0 ".") eqn:Hdot.
  { cbn [orb] in *.
    assert (Hcell : is_TCell ft = false /\ nested x
                     /\ (c ← ss x;
                         match c with
                         | None => Panic "runtime error: invalid memory address or nil pointer dereference"
                         | Some c =>
                             wrap "failed to store cell to builder for %s, err: %w"
                                  [AStr name] (StoreBuilder (ToBuilder c) b)
                         end) = Ok b').
    { destruct ft; try contradiction; repeat split; (exact Hdom || exact Hstore). }
    destruct Hcell as (Hc & Hx & Hs). rewrite Hc.
    destruct (ss x) as [oc| |] eqn:Hss; try discriminate Hs. cbn in Hs.
    destruct (Hnest _ _ Hx Hss) as (c & -> & Hload).
    apply wrap_ok in Hs. apply StoreBuilder_bapp in Hs. subst b'.
    exists (bits c), (refs c). split; [reflexivity|].
    intros e r. cbn. rewrite Hload. reflexivity. }
  cbn [orb] in *.
  destruct (is_TMagic ft) eqn:Hmagic.
  { destruct ft; try discriminate Hmagic. destruct Hdom as (-> & Hdom).
    destruct (magic_shape s0) as [[sz base]|] eqn:Hshape; [|contradiction].
    destruct Hdom as (Hsz & Hdom).
    assert ((64 <? sz) = false) as E by (apply Z.ltb_ge; exact Hsz).
    rewrite E in *.
    destruct (strconv.ParseInt (tail1 s0) base) as [magic| |] eqn:Hparse;
      try contradiction.
    apply wrap_ok in Hstore.
    pose proof (magic_fits_width _ _ _ _ Hshape Hparse Hdom) as Hfit.
    pose proof (magic_shape_width _ _ _ Hshape) as Hsz0.
    assert (Hu : to_uint64 magic = magic).
    { unfold to_uint64. apply Z.mod_small. split; [exact Hdom|].
      eapply Z.lt_le_trans; [exact Hfit|]. apply Z.pow_le_mono_r; lia. }
    apply StoreUInt_reads in Hstore; [|exact Hsz0|rewrite Hu; lia].
    eapply reads_back_then; [exact Hstore|].
    intros l l' Hl. rewrite Hl. cbn. rewrite Z.eqb_refl. reflexivity. }
  destruct (String.eqb s0 "dict"); [|contradiction].
  destruct args as [|tok [|? ?]]; try contradiction.
  destruct ft; try contradiction; destruct x; try contradiction.
  destruct (strconv.ParseUint tok 10) as [sz| |]; try contradiction.
  apply wrap_ok in Hstore. apply Hdom in Hstore.
  destruct Hstore as (d' & -> & Hr).
  eapply reads_back_then; [exact Hr|].
  intros l l' Hl. rewrite Hl. reflexivity.
Qed.

Lemma directive_round_trip (nested : value -> Prop) ss sl sl_elem tyname name ft tag
    (settings : list string) (x : value) (b b' : Builder) :
  nested_round_trip nested ss sl ->
  directive_domain nested ft settings x ->
  store_either ss name ft tag settings x b = Ok b' ->
  reads_back (load_either sl sl_elem tyname name ft tag settings (zero ft)) x b b'.
Proof.
  intros Hnest Hdom Hstore.
  unfold directive_domain in Hdom. unfold store_either in Hstore.
  unfold load_either.
  destruct settings as [|s0 args]; [contradiction|].
  destruct (String.eqb s0 "either");
    [|eapply base_round_trip; eassumption].
  destruct args as [|s1 [|s2 more]]; try contradiction.
  destruct (wrap "cannot store maybe bit: %w" []
              (StoreBoolBit (strings.HasPrefix s2 "^") b)) as [b1| |] eqn:Hbit;
    try discriminate Hstore.
  cbn -[store_directive strings.HasPrefix] in Hstore.
  apply wrap_ok in Hbit. apply StoreBoolBit_reads in Hbit.
  eapply (reads_back_seq LoadBoolBit
            (fun (isSecond : bool) l =>
               load_directive sl sl_elem tyname name ft tag
                 [if isSecond then s2 else s1] (zero ft) l));
    [exact Hbit|eapply base_round_trip; eassumption|].
  intros l l1 Hl. rewrite Hl. reflexivity.
Qed.

Lemma field_round_trip (nested : value -> Prop) ss sl sl_elem tyname name ft rawtag
    (x : value) (b b' : Builder) :
  nested_round_trip nested ss sl ->
  field_domain nested ft rawtag x ->
  store_field ss name ft rawtag x b = Ok b' ->
  reads_back (load_field sl sl_elem tyname name ft rawtag (zero ft)) x b b'.
Proof.
  intros Hnest Hdom Hstore.
  unfold field_domain, tokens in Hdom. unfold store_field in Hstore.
  unfold load_field.
  destruct (String.eqb (strings.TrimSpace rawtag) "-").
  { inversion Hstore; subst. apply reads_back_refl. }
  destruct (strings.Split (strings.TrimSpace rawtag)) as [|s0 rest];
    [contradiction|].
  destruct (String.eqb s0 "maybe");
    [|eapply directive_round_trip; eassumption].
  destruct (kind_is_pointer ft && IsNil x).
  - subst x. apply wrap_ok in Hstore. apply StoreBoolBit_reads in Hstore.
    eapply reads_back_then; [exact Hstore|].
    intros l l' Hl. rewrite Hl. reflexivity.
  - destruct (wrap "cannot store maybe bit: %w" [] (StoreBoolBit true b))
      as [b1| |] eqn:Hbit; try discriminate Hstore.
    cbn -[store_either] in Hstore.
    apply wrap_ok in Hbit. apply StoreBoolBit_reads in Hbit.
    eapply (reads_back_seq LoadBoolBit
              (fun (has : bool) l =>
                 if has
                 then load_either sl sl_elem tyname name ft
                        (strings.TrimSpace rawtag) rest (zero ft) l
                 else Ok (zero ft, l)));
      [exact Hbit|eapply directive_round_trip; eassumption|].
    intros l l1 Hl. rewrite Hl. reflexivity.
Qed.

(** The round trip of a whole record, by induction on its type. *)
Lemma types_round_trip :
  (forall t, exported_type t = true -> forall name,
     nested_round_trip (nested_domain t) (structStore t name) (structLoad t))
  /\ (forall s, exported_schema s = true -> forall name is_ptr rv oc,
        schema_domain s rv ->
        store_schema s name is_ptr (Some rv) = Ok oc ->
        exists c, oc = Some c
          /\ forall fname e r,
               load_schema s fname (mkCell (bits c ++ e) (refs c ++ r))
                 = Ok (rv, mkCell e r))
  /\ (forall fs, exported_fields fs = true -> forall (pre vs : list value) b b',
        fields_domain fs vs ->
        store_fields fs (length pre) (pre ++ vs) b = Ok b' ->
        forall tyname (pre0 : list value),
          reads_back (load_fields fs tyname (length pre0) (pre0 ++ zero_fields fs))
                     (pre0 ++ vs)%list b b').
Proof.
  apply types_mutind.
  1-9: intros; intros x oc Hx; contradiction.
  - (* struct *)
    intros s IH He name x oc (rv & -> & Hdom) Hstore. cbn [structStore] in Hstore.
    destruct (IH He _ _ _ _ Hdom Hstore) as (c & -> & Hload).
    exists c. split; [reflexivity|]. intros e r. cbn [structLoad].
    rewrite Hload. reflexivity.
  - (* pointer to struct *)
    intros s IH He name x oc (rv & -> & Hdom) Hstore. cbn [structStore] in Hstore.
    destruct (IH He _ _ _ _ Hdom Hstore) as (c & -> & Hload).
    exists c. split; [reflexivity|]. intros e r. cbn [structLoad].
    rewrite Hload. reflexivity.
  - intros; intros x oc Hx; contradiction.
  - (* schema *)
    intros sname m fs IH He name is_ptr rv oc (Hl & Hv & Hp & Hdom) Hstore.
    cbn [store_schema] in Hstore. rewrite Hv, Hp in Hstore.
    assert (Hs : (b ← store_fields fs 0 rv BeginCell; Ok (Some (EndCell b))) = Ok oc).
    { destruct is_ptr; cbn in Hstore; apply wrap_ok in Hstore; exact Hstore. }
    destruct (store_fields fs 0 rv BeginCell) as [b1| |] eqn:Hf; try discriminate Hs.
    inversion Hs; subst oc. exists (EndCell b1). split; [reflexivity|].
    destruct (IH He [] rv BeginCell b1 Hdom Hf sname []) as (d & r0 & -> & Hload).
    intros fname e r. cbn [load_schema]. rewrite Hl.
    unfold EndCell, bapp, BeginCell. cbn [bits refs app].
    cbn [length app] in Hload. rewrite Hload. reflexivity.
  - (* no field *)
    intros _ pre vs b b' Hvs [= <-] tyname pre0. cbn in Hvs. subst vs.
    cbn [load_fields zero_fields]. apply reads_back_refl.
  - (* one more field *)
    intros name t IHt tag rest IHrest He pre vs b b' Hdom Hstore tyname pre0.
    cbn [exported_fields] in He.
    apply andb_true_iff in He as (He & Herest).
    apply andb_true_iff in He as (Hmark & Het).
    specialize (IHt Het). specialize (IHrest Herest).
    cbn [fields_domain] in Hdom. destruct vs as [|x xs]; [contradiction|].
    destruct Hdom as (Hx & Hxs).
    rewrite (store_fields_cons _ _ _ _ _ _ x) in Hstore
      by (try exact Hmark; apply list_lookup_middle; reflexivity).
    match type of Hstore with
    | context [store_field ?a name t tag x b] =>
        destruct (store_field a name t tag x b) as [b1| |] eqn:Hfield;
          try discriminate Hstore
    end.
    cbn in Hstore.
    replace (pre ++ x :: xs)%list with ((pre ++ [x]) ++ xs)%list in Hstore
      by (rewrite <- app_assoc; reflexivity).
    replace (S (length pre)) with (length (pre ++ [x])%list) in Hstore
      by (rewrite length_app; cbn; lia).
    cbn [zero_fields].
    eapply (reads_back_seq
              (load_field (structLoad t) _ tyname name t tag (zero t))
              (fun fv' l' =>
                 load_fields rest tyname (length (pre0 ++ [fv'])%list)
                   ((pre0 ++ [fv']) ++ zero_fields rest) l'));
      [eapply field_round_trip; [apply IHt|exact Hx|exact Hfield]
      |replace (pre0 ++ x :: xs)%list with ((pre0 ++ [x]) ++ xs)%list
         by (rewrite <- app_assoc; reflexivity);
       apply (IHrest _ _ _ _ Hxs Hstore tyname (pre0 ++ [x])%list)|].
    intros l l1 Hl.
    rewrite (load_fields_cons _ _ _ _ _ _ _ (zero t))
      by (try exact Hmark; apply list_lookup_middle; reflexivity).
    rewrite Hl. cbn -[load_fields].
    rewrite insert_app_r_alt, Nat.sub_diag by lia. cbn [insert list_insert].
    rewrite length_app, <- app_assoc. cbn [length app].
    rewrite Nat.add_1_r. reflexivity.
Qed.

(** [ToCell] alone: what it writes for a record within the domain of its
    schema denotes that record, whatever the names of the fields. *)
Lemma types_denoted :
  (forall t name,
     nested_round_trip (nested_domain t) (structStore t name) (denoted_struct t))
  /\ (forall s name is_ptr rv oc,
        schema_domain s rv ->
        store_schema s name is_ptr (Some rv) = Ok oc ->
        exists c, oc = Some c
          /\ forall e r,
               denoted_schema s (mkCell (bits c ++ e) (refs c ++ r))
                 = Ok (rv, mkCell e r))
  /\ (forall fs (pre vs : list value) b b',
        fields_domain fs vs ->
        store_fields fs (length pre) (pre ++ vs) b = Ok b' ->
        forall tyname (pre0 : list value),
          reads_back (denoted_fields fs tyname (length pre0) (pre0 ++ zero_fields fs))
                     (pre0 ++ vs)%list b b').
Proof.
  apply types_mutind.
  1-9: intros; intros x oc Hx; contradiction.
  - (* struct *)
    intros s IH name x oc (rv & -> & Hdom) Hstore. cbn [structStore] in Hstore.
    destruct (IH _ _ _ _ Hdom Hstore) as (c & -> & Hload).
    exists c. split; [reflexivity|]. intros e r. cbn [denoted_struct].
    rewrite Hload. reflexivity.
  - (* pointer to struct *)
    intros s IH name x oc (rv & -> & Hdom) Hstore. cbn [structStore] in Hstore.
    destruct (IH _ _ _ _ Hdom Hstore) as (c & -> & Hload).
    exists c. split; [reflexivity|]. intros e r. cbn [denoted_struct].
    rewrite Hload. reflexivity.
  - intros; intros x oc Hx; contradiction.
  - (* schema *)
    intros sname m fs IH name is_ptr rv oc (Hl & Hv & Hp & Hdom) Hstore.
    cbn [store_schema] in Hstore. rewrite Hv, Hp in Hstore.
    assert (Hs : (b ← store_fields fs 0 rv BeginCell; Ok (Some (EndCell b))) = Ok oc).
    { destruct is_ptr; cbn in Hstore; apply wrap_ok in Hstore; exact Hstore. }
    destruct (store_fields fs 0 rv BeginCell) as [b1| |] eqn:Hf; try discriminate Hs.
    inversion Hs; subst oc. exists (EndCell b1). split; [reflexivity|].
    destruct (IH [] rv BeginCell b1 Hdom Hf sname []) as (d & r0 & -> & Hload).
    intros e r. cbn [denoted_schema]. rewrite Hl.
    unfold EndCell, bapp, BeginCell. cbn [bits refs app].
    cbn [length app] in Hload. rewrite Hload. reflexivity.
  - (* no field *)
    intros pre vs b b' Hvs [= <-] tyname pre0. cbn in Hvs. subst vs.
    cbn [denoted_fields zero_fields]. apply reads_back_refl.
  - (* one more field *)
    intros name t IHt tag rest IHrest pre vs b b' Hdom Hstore tyname pre0.
    cbn [fields_domain] in Hdom. destruct vs as [|x xs]; [contradiction|].
    destruct Hdom as (Hx & Hxs).
    cbn [store_fields] in Hstore.
    rewrite list_lookup_middle in Hstore by reflexivity.
    destruct (negb (token.IsExported name) && reads_Interface t tag x b);
      [discriminate Hstore|].
    match type of Hstore with
    | context [store_field ?a name t tag x b] =>
        destruct (store_field a name t tag x b) as [b1| |] eqn:Hfield;
          try discriminate Hstore
    end.
    cbn in Hstore.
    replace (pre ++ x :: xs)%list with ((pre ++ [x]) ++ xs)%list in Hstore
      by (rewrite <- app_assoc; reflexivity).
    replace (S (length pre)) with (length (pre ++ [x])%list) in Hstore
      by (rewrite length_app; cbn; lia).
    cbn [denoted_fields zero_fields].
    eapply (reads_back_seq
              (load_field (denoted_struct t) _ tyname name t tag (zero t))
              (fun fv' l' =>
                 denoted_fields rest tyname (length (pre0 ++ [fv'])%list)
                   ((pre0 ++ [fv']) ++ zero_fields rest) l'));
      [eapply field_round_trip; [apply IHt|exact Hx|exact Hfield]
      |replace (pre0 ++ x :: xs)%list with ((pre0 ++ [x]) ++ xs)%list
         by (rewrite <- app_assoc; reflexivity);
       apply (IHrest _ _ _ _ Hxs Hstore tyname (pre0 ++ [x])%list)|].
    intros l l1 Hl. rewrite list_lookup_middle by reflexivity.
    rewrite Hl. cbn -[denoted_fields].
    rewrite insert_app_r_alt, Nat.sub_diag by lia. cbn [insert list_insert].
    rewrite length_app, <- app_assoc. cbn [length app].
    rewrite Nat.add_1_r. reflexivity.
Qed.

(** C1, as the code has it: for a record type that is not recursive and
    whose fields are exported ([exported_schema]: a field the engines reach
    has an exported name, in the nested record types as well), and a record
    within the domain of its schema ([schema_domain]: in particular fields
    excluded with [-] hold their zero value and no [dict ... -> array]
    transform is used), the cell [ToCell] produces is decoded by
    [LoadFromCell], into a freshly allocated record, to the record that was
    encoded, with nothing left in the cursor. *)
Theorem round_trip_in_domain (s : schema) (rv : list value) (c : Cell) :
  exported_schema s = true ->
  schema_domain s rv ->
  ToCell (TPtr s) (VPtr (Some rv)) = Ok c ->
  LoadFromCell (TPtr s) (VPtr (Some (zero_schema s))) (BeginParse c)
    = Ok (VPtr (Some rv), mkCell [] [])
  /\ structLoad (TStruct s) (BeginParse c) = Ok (VStruct rv, mkCell [] []).
Proof.
  destruct s as [sname m fs]. intros He (Hl & Hv & Hp & Hdom) Henc.
  cbn [ToCell schema_fields] in Henc.
  destruct (store_fields fs 0 rv BeginCell) as [b1| |] eqn:Hf; try discriminate Henc.
  inversion Henc; subst c.
  destruct types_round_trip as (_ & _ & Hfields).
  assert (Hload : forall tyname,
            load_fields fs tyname 0 (zero_fields fs) (BeginParse (EndCell b1))
            = Ok (rv, mkCell [] [])).
  { intros tyname.
    destruct (Hfields fs He [] rv BeginCell b1 Hdom Hf tyname []) as (d & r0 & -> & H).
    specialize (H [] []). rewrite !app_nil_r in H. exact H. }
  split.
  - unfold LoadFromCell. cbn [kind_is_pointer IsNil negb andb schema_fields
                              schema_name zero_schema].
    rewrite Hload. reflexivity.
  - cbn [structLoad load_schema schema_name]. rewrite Hl, Hload. reflexivity.
Qed.

End Claims.

(** ** The claims on concrete records *)

Section Concrete.
#[local] Existing Instance simple.codecs.

(** The scenarios of the specification, run on the engines.  A: a magic
    and a 32-bit value; the same bits under another magic are a returned
    error.  B: an absent [maybe ## 8] is a cell of one bit. *)
Example scenario_A :
  ToCell (TStruct (Schema "tlb.A" no_methods
            (FCons "_" TMagic "#deadbeef" (FCons "Value" (TUint K32) "## 32" FNil))))
         (VStruct [VMagic; VUint 42])
    = Ok (mkCell (bits_of 32 3735928559 ++ bits_of 32 42) [])
  /\ structLoad (TStruct (Schema "tlb.A" no_methods
                   (FCons "_" TMagic "#deadbeef" (FCons "Value" (TUint K32) "## 32" FNil))))
                (mkCell (bits_of 32 3735928559 ++ bits_of 32 42) [])
     = Ok (VStruct [VMagic; VUint 42], mkCell [] [])
  /\ is_panic (structLoad (TStruct (Schema "tlb.B" no_methods
                   (FCons "_" TMagic "#12345678" (FCons "Value" (TUint K32) "## 32" FNil))))
                (mkCell (bits_of 32 3735928559 ++ bits_of 32 42) [])) = false.
Proof. repeat split; vm_compute; reflexivity. Qed.

Example scenario_B :
  ToCell (TStruct (Schema "tlb.M" no_methods (FCons "X" TBigInt "maybe ## 8" FNil)))
         (VStruct [VBigInt None])
    = Ok (mkCell [false] [])
  /\ structLoad (TStruct (Schema "tlb.M" no_methods (FCons "X" TBigInt "maybe ## 8" FNil)))
                (mkCell [false] [])
     = Ok (VStruct [VBigInt None], mkCell [] []).
Proof. split; vm_compute; reflexivity. Qed.

(** Counterexample to C1 as stated: a field excluded with [-] is not written, so what
    it holds is not read back; and a sequence under [dict ... -> array]
    cannot be encoded at all. *)
Lemma round_trip_fails_outside_domain :
  (c ← ToCell (TPtr Excluded) (VPtr (Some [VUint 5]));
   LoadFromCell (TPtr Excluded) (VPtr (Some (zero_schema Excluded))) (BeginParse c))
    = Ok (VPtr (Some [VUint 0]), mkCell [] [])
  /\ VPtr (Some [VUint 0]) <> VPtr (Some [VUint 5])
  /\ ToCell (TPtr Items) (VPtr (Some [VSlice [VStruct [VInt 1]]]))
     = Panic "interface conversion: interface {} is not of the asserted type".
Proof.
  split; [vm_compute; reflexivity|]. split; [intros [=]|vm_compute; reflexivity].
Qed.

(** A field that is not exported cannot be assigned: [ToCell] writes the
    integer of [Hidden], and [LoadFromCell] panics where it sets the field,
    once the eight bits are read; with too few bits it returns the error of
    the read.  [ToCell] panics on the [*big.Int] of [HiddenBig], which it
    takes with [Interface]. *)
Example unexported_field_is_not_assigned :
  exported_schema Hidden = false
  /\ ToCell (TPtr Hidden) (VPtr (Some [VUint 1])) = Ok (mkCell (bits_of 8 1) [])
  /\ LoadFromCell (TPtr Hidden) (VPtr (Some (zero_schema Hidden)))
       (mkCell (bits_of 8 1) [])
     = Panic "reflect: use of a value obtained using unexported field"
  /\ LoadFromCell (TPtr Hidden) (VPtr (Some (zero_schema Hidden))) (mkCell [true] [])
     = Err (Wrapf "failed to load uint %d, err: %w" [ANum 8] ErrNoMoreData)
  /\ ToCell (TPtr HiddenBig) (VPtr (Some [VBigInt (Some 1)]))
     = Panic "reflect: use of a value obtained using unexported field".
Proof. repeat split; vm_compute; reflexivity. Qed.

(** The example codec reads back the address and the dictionary of
    [message]. *)
Lemma simple_addr_domain : addr_domain (Some tt).
Proof.
  intros b b' Hs. eapply write_reads; [exact Hs|]. intros e r.
  change (simple.LoadAddr (mkCell ([false; false] ++ e) r)
          = Ok (Some tt, mkCell e r)).
  unfold simple.LoadAddr. rewrite read_app by reflexivity. reflexivity.
Qed.

Lemma simple_dict_domain (v : Cell) : dict_domain 8 (Some [(mkCell [] [], v)]).
Proof.
  intros b b' Hs. eexists. split; [reflexivity|].
  change (simple.StoreDict (Some [(mkCell [] [], v)]) b = Ok b') in Hs.
  unfold simple.StoreDict in Hs.
  destruct (StoreBoolBit true b) as [b1| |] eqn:Hbit; try discriminate Hs.
  cbn in Hs. apply StoreBoolBit_reads in Hbit. apply StoreRef_reads in Hs.
  eapply (reads_back_seq LoadBoolBit
            (fun (has : bool) l =>
               if has
               then '(root, s2) ← LoadRef l;
                    Ok (map (fun v => (mkCell [] [], v)) (refs root), s2)
               else Ok ([], l)));
    [exact Hbit| |].
  - eapply reads_back_then; [exact Hs|]. intros l l' Hl. rewrite Hl. reflexivity.
  - intros l l1 Hl. change (LoadDict 8 l) with (simple.LoadDict 8 l).
    unfold simple.LoadDict. rewrite Hl. reflexivity.
Qed.

Lemma round_trip_in_domain_witness :
  exists c, ToCell (TPtr Message) (VPtr (Some message)) = Ok c
    /\ LoadFromCell (TPtr Message) (VPtr (Some (zero_schema Message))) (BeginParse c)
       = Ok (VPtr (Some message), mkCell [] []).
Proof.
  eexists. split; [vm_compute; reflexivity|].
  refine (proj1 (round_trip_in_domain Message message _ _ _ _)).
  - vm_compute; reflexivity.
  - unfold Message, message. cbn [schema_domain fields_domain].
    repeat split;
      first [exact simple_addr_domain | apply simple_dict_domain | in_domain].
  - vm_compute; reflexivity.
Defined.

Lemma either_dispatch_witness :
  load_field no_load no_load "tlb.T" "Body" TCell "either . ^" (VCell None)
    (mkCell [true] [mkCell [] []])
    = load_directive no_load no_load "tlb.T" "Body" TCell "either . ^" ["^"]
        (VCell None) (mkCell [] [mkCell [] []])
  /\ store_field no_store "Body" TCell "either . ^" (VCell (Some (mkCell [] [])))
       BeginCell
     = Ok (mkCell [true] [mkCell [] []]).
Proof.
  split.
  - exact (proj1 (either_dispatch no_load no_load no_store "tlb.T" "Body" TCell
                    "either . ^" "." "^" [] (VCell None) true [] [mkCell [] []]
                    BeginCell eq_refl)).
  - rewrite (proj2 (either_dispatch no_load no_load no_store "tlb.T" "Body" TCell
                      "either . ^" "." "^" [] (VCell (Some (mkCell [] []))) true
                      [] [] BeginCell eq_refl)).
    vm_compute. reflexivity.
Defined.

(** Counterexample to C3 as stated: the width 0 is not rejected, on either path. *)
Lemma width_zero_is_not_rejected :
  load_field no_load no_load "tlb.T" "X" (TUint K64) "## 0" (VUint 0) (mkCell [] [])
    = Ok (VUint 0, mkCell [] [])
  /\ store_field no_store "X" (TUint K64) "## 0" (VUint 0) BeginCell = Ok BeginCell.
Proof. split; vm_compute; reflexivity. Qed.

Lemma fixed_width_bounds_witness :
  (load_field no_load no_load "tlb.T" "X" TBigInt "## 257" (VBigInt None)
     (mkCell [] [])
     = Panic "cannot deserialize field 'X' as tag '## 257'"
   /\ store_field no_store "X" TBigInt "## 257" (VBigInt None) BeginCell
     = Panic "cannot serialize field 'X' as tag '## 257', use manual serialization")
  /\ (is_panic (load_field no_load no_load "tlb.T" "X" TBigInt "## 256"
                  (VBigInt (Some 1)) (mkCell [] [])) = false
      /\ is_panic (store_field no_store "X" TBigInt "## 256" (VBigInt (Some 1))
                     BeginCell) = false)
  /\ load_field no_load no_load "tlb.T" "X" (TUint K8) "## 8" (VUint 0)
       (mkCell (bits_of 8 5 ++ [true]) [])
     = Ok (VUint 5, mkCell [true] [])
  /\ store_field no_store "X" (TUint K8) "## 8" (VUint 5) BeginCell
     = Ok (mkCell (bits_of 8 5) []).
Proof.
  assert (E257 : strconv.ParseUint "257" 10 = strconv.Num 257) by reflexivity.
  assert (E256 : strconv.ParseUint "256" 10 = strconv.Num 256) by reflexivity.
  assert (E8 : strconv.ParseUint "8" 10 = strconv.Num 8) by reflexivity.
  split; [|split; [|pose proof (fixed_width_bounds no_load no_load no_store
                                  "tlb.T" "X" (TUint K8) "## 8" "8" (VUint 5)
                                  (mkCell [] []) BeginCell eq_refl) as H;
                    rewrite E8 in H; destruct H as (_ & H & _);
                    destruct (H ltac:(cbn; lia)) as (_ & Hl & _ & _ & _ & Hs);
                    split;
                    [rewrite (Hl (VUint 0) (bits_of 8 5) [true] [] eq_refl);
                     vm_compute; reflexivity
                    |rewrite Hs by (vm_compute; discriminate);
                     vm_compute; reflexivity]]].
  - pose proof (fixed_width_bounds no_load no_load no_store "tlb.T" "X" TBigInt
                  "## 257" "257" (VBigInt None) (mkCell [] []) BeginCell eq_refl)
      as H.
    rewrite E257 in H. destruct H as [H _]. apply H. lia.
  - pose proof (fixed_width_bounds no_load no_load no_store "tlb.T" "X" TBigInt
                  "## 256" "256" (VBigInt (Some 1)) (mkCell [] []) BeginCell eq_refl)
      as H.
    rewrite E256 in H. destruct H as (_ & H & _).
    refine (proj1 (H _)). cbn. lia.
Defined.

Lemma int_path_follows_width_and_type_witness :
  load_field no_load no_load "tlb.T" "X" (TInt K16) "## 12" (VInt 0)
    (mkCell (bits_of 12 (-5)) [])
    = Ok (VInt (-5), mkCell [] [])
  /\ store_field no_store "X" (TInt K16) "## 12" (VInt (-5)) BeginCell
     = Ok (mkCell (bits_of 12 (-5)) []).
Proof.
  destruct (int_path_follows_width_and_type no_load no_load no_store "tlb.T" "X"
              (TInt K16) "## 12" "12" 12 (VInt 0) (mkCell (bits_of 12 (-5)) [])
              BeginCell eq_refl eq_refl ltac:(lia)) as [Hl _].
  destruct (int_path_follows_width_and_type no_load no_load no_store "tlb.T" "X"
              (TInt K16) "## 12" "12" 12 (VInt (-5)) (mkCell [] [])
              BeginCell eq_refl eq_refl ltac:(lia)) as [_ Hs].
  split; [rewrite Hl|rewrite Hs]; vm_compute; reflexivity.
Defined.

Lemma maybe_absent_witness :
  store_field no_store "Big" TBigInt "maybe ## 256" (VBigInt None) BeginCell
    = Ok (mkCell [false] [])
  /\ load_field no_load no_load "tlb.T" "Big" TBigInt "maybe ## 256" (VBigInt None)
       (mkCell [false; true] [])
     = Ok (VBigInt None, mkCell [true] []).
Proof.
  destruct (maybe_absent no_load no_load no_store "tlb.T" "Big" TBigInt
              "maybe ## 256" ["##"; "256"] (VBigInt None) BeginCell
              eq_refl eq_refl eq_refl) as (_ & Hs & Hl & _).
  split; [apply Hs; vm_compute; reflexivity|apply Hl].
Defined.

Lemma magic_check_witness :
  load_field no_load no_load "tlb.T" "_" TMagic "#deadbeef" VMagic
    (mkCell (bits_of 32 305419896 ++ [true]) [])
    = Err (Errorf "magic is not correct for %s, want %x, got %x"
                  [AStr "tlb.T"; ANum 3735928559; ANum 305419896])
  /\ store_field no_store "_" TMagic "#deadbeef" (VUint 7) BeginCell
     = Ok (mkCell (bits_of 32 3735928559) []).
Proof.
  destruct (magic_check no_load no_load no_store "tlb.T" "_" "#deadbeef" "#deadbeef"
              32 16 3735928559 VMagic (mkCell [] []) BeginCell
              eq_refl eq_refl ltac:(discriminate) ltac:(lia) eq_refl)
    as (Hl & _ & Hs).
  split.
  - rewrite (Hl (bits_of 32 305419896) [true] [] eq_refl). vm_compute. reflexivity.
  - rewrite (Hs no_store (VUint 7)). vm_compute. reflexivity.
Defined.

Lemma dict_array_transform_witness :
  load_field (structLoad (TSlice (TStruct Inner))) (structLoad (TStruct Inner))
    "tlb.Items" "Items" (TSlice (TStruct Inner)) "dict 8 -> array" (VSlice [])
    two_values
    = Ok (VSlice [VStruct [VInt 1]; VStruct [VInt 2]], mkCell [] []).
Proof.
  destruct (dict_array_transform
              (structLoad (TSlice (TStruct Inner))) (structLoad (TStruct Inner))
              "tlb.Items" "Items" (TSlice (TStruct Inner)) "dict 8 -> array"
              "8" "array" [] 8
              [(mkCell [] [], mkCell (bits_of 8 1) []);
               (mkCell [] [], mkCell (bits_of 8 2) [])]
              (VSlice []) two_values (mkCell [] [])
              eq_refl eq_refl eq_refl eq_refl) as [Harr _].
  refine (proj1 (Harr eq_refl [] [VStruct [VInt 1]; VStruct [VInt 2]] eq_refl _)).
  repeat constructor; eexists _, _; (split; [reflexivity|vm_compute; reflexivity]).
Defined.



(** Counterexample to C9 as stated: the malformed directive of [Lazy] stands under
    [maybe]; with the presence bit clear, or a nil pointer to encode, neither
    engine panics. *)
Lemma malformed_directive_goes_unnoticed :
  malformed TBigInt ["##"%string; "abc"%string] = true
  /\ structLoad (TStruct Lazy) (mkCell [false] [])
     = Ok (VStruct [VBigInt None], mkCell [] [])
  /\ ToCell (TStruct Lazy) (VStruct [VBigInt None]) = Ok (mkCell [false] []).
Proof. repeat split; vm_compute; reflexivity. Qed.

Lemma malformed_directive_panics_when_reached_witness :
  is_panic (load_fields (fapp Flagged (FCons "P" TBigInt "maybe ## abc" FNil))
              "tlb.T" 0 [VBool false; VBigInt None] (mkCell [true; true] [])) = true
  /\ is_panic (store_fields (fapp Flagged (FCons "P" TBigInt "maybe ## abc" FNil))
                 0 [VBool true; VBigInt (Some 1)] BeginCell) = true.
Proof.
  split.
  - refine (proj1 (malformed_directive_panics_when_reached "tlb.T" "P" TBigInt
                     "maybe ## abc" ["##"; "abc"] Flagged FNil
                     [VBool false; VBigInt None] [VBool true; VBigInt None]
                     (mkCell [true; true] []) (mkCell [true] []) BeginCell BeginCell
                     eq_refl) _ _ _).
    + vm_compute. reflexivity.
    + eexists. reflexivity.
    + right. split; [reflexivity|]. eexists _, _. reflexivity.
  - refine (proj2 (malformed_directive_panics_when_reached "tlb.T" "P" TBigInt
                     "maybe ## abc" ["##"; "abc"] Flagged FNil
                     [VBool true; VBigInt (Some 1)] []
                     (mkCell [] []) (mkCell [] []) BeginCell (mkCell [true] [])
                     eq_refl) _ _).
    + vm_compute. reflexivity.
    + eexists. split; [reflexivity|]. right.
      repeat split; vm_compute; reflexivity.
Defined.

Lemma magic_literal_above_int64_panics_witness :
  load_field no_load no_load "tlb.T" "_" TMagic "#ffffffffffffffff" VMagic
    (mkCell [] []) = Panic "corrupted magic value in tag"
  /\ store_field no_store "_" TMagic "#ffffffffffffffff" VMagic BeginCell
     = Panic "corrupted magic value in tag".
Proof.
  refine (proj2 (magic_literal_above_int64_panics no_load no_load no_store
                   "tlb.T" "_" "#ffffffffffffffff" "ffffffffffffffff" VMagic
                   (mkCell [] []) BeginCell eq_refl eq_refl _) _);
    vm_compute; congruence.
Defined.

End Concrete.

(** ** Further properties of the two engines

    Properties of [LoadFromCell], [ToCell], [structLoad] and [structStore]
    beyond the claims above, read off the code. *)

Section Further.
Context `{codecs : Codecs}.

Implicit Types (sl sl_elem : Slice -> outcome (value * Slice)).
Implicit Types (ss : value -> outcome (option Cell)).
Implicit Types (tyname name rawtag tag : string) (ft : gotype).
Implicit Types (fv : value) (loader : Slice) (builder : Builder).

(** *** Decoding under a checked schema *)

Lemma bind_no_panic {A B} (m : outcome A) (f : A -> outcome B) :
  is_panic m = false -> (forall a, m = Ok a -> is_panic (f a) = false) ->
  is_panic (m ≫= f) = false.
Proof. destruct m as [a| |]; cbn; intros Hm Hf; [apply Hf; reflexivity|reflexivity|discriminate]. Qed.

Lemma LoadUInt_no_panic (sz : Z) loader : is_panic (LoadUInt sz loader) = false.
Proof. unfold LoadUInt, read. destruct (_ <=? _); reflexivity. Qed.

Lemma LoadBigInt_no_panic (sz : Z) loader : is_panic (LoadBigInt sz loader) = false.
Proof. unfold LoadBigInt, read. destruct (_ <=? _); reflexivity. Qed.

Lemma LoadBoolBit_no_panic loader : is_panic (LoadBoolBit loader) = false.
Proof. unfold LoadBoolBit, read. destruct (_ <=? _); reflexivity. Qed.

Lemma LoadSlice_no_panic (sz : Z) loader : is_panic (LoadSlice sz loader) = false.
Proof. unfold LoadSlice, read. destruct (_ <=? _); reflexivity. Qed.

Lemma LoadRef_no_panic loader : is_panic (LoadRef loader) = false.
Proof. unfold LoadRef. destruct (refs loader); reflexivity. Qed.

Lemma transform_array_no_panic sl_elem (isRef : bool) (kvs : list (Cell * Cell))
    (xs : list value) :
  (forall l, is_panic (sl_elem l) = false) ->
  is_panic (transform_array sl_elem isRef kvs (VSlice xs)) = false.
Proof.
  intros Hsl. revert xs. induction kvs as [|kv kvs IH]; intros xs; [reflexivity|].
  cbn [transform_array]. apply bind_no_panic.
  - destruct isRef; [|reflexivity]. apply bind_no_panic.
    + rewrite wrap_no_panic. apply LoadRef_no_panic.
    + intros [r l] _. reflexivity.
  - intros ld _. apply bind_no_panic.
    + rewrite wrap_no_panic. apply Hsl.
    + intros [nVal l] _. cbn. apply IH.
Qed.

Ltac no_panic :=
  repeat first
    [ reflexivity
    | rewrite wrap_no_panic
    | apply LoadUInt_no_panic | apply LoadBigInt_no_panic
    | apply LoadBoolBit_no_panic | apply LoadSlice_no_panic
    | apply LoadRef_no_panic
    | apply bind_no_panic; [|intros [? ?] _] ].

Lemma directive_ok_no_panic (nested_ok elem_ok : bool) sl sl_elem tyname name ft tag
    (settings : list string) fv loader :
  (forall l, is_panic (LoadAddr l) = false) ->
  (forall sz l, is_panic (LoadDict sz l) = false) ->
  (nested_ok = true -> forall l, is_panic (sl l) = false) ->
  (elem_ok = true ->
   (exists xs, fv = VSlice xs) /\ forall l, is_panic (sl_elem l) = false) ->
  directive_ok nested_ok elem_ok ft settings = true ->
  is_panic (load_directive sl sl_elem tyname name ft tag settings fv loader) = false.
Proof.
  intros Haddr Hdict Hsl Helem Hok.
  destruct settings as [|s0 args]; [discriminate Hok|].
  unfold directive_ok in Hok. unfold load_directive.
  destruct (String.eqb s0 "##").
  { destruct args as [|tok args]; [discriminate Hok|].
    destruct (strconv.ParseUint tok 10) as [N| |]; try discriminate Hok.
    destruct (N <=? 64).
    - destruct ft; try discriminate Hok;
        unfold LoadInt, LoadBigInt, LoadUInt, read;
        destruct (_ <=? Z.of_nat _); reflexivity.
    - apply andb_prop in Hok as [HN Hft]. rewrite HN.
      destruct ft; try discriminate Hft. no_panic. }
  destruct (String.eqb s0 "addr").
  { destruct ft; try discriminate Hok. no_panic. apply Haddr. }
  destruct (String.eqb s0 "bool").
  { destruct ft; try discriminate Hok. no_panic. }
  destruct (String.eqb s0 "bits").
  { destruct args as [|tok args]; [discriminate Hok|].
    destruct (strconv.Atoi tok) as [N| |]; try discriminate Hok.
    apply andb_prop in Hok as [_ Hft].
    destruct ft; try discriminate Hft. no_panic. }
  destruct (String.eqb s0 "^" || String.eqb s0 ".").
  { apply bind_no_panic.
    - destruct (String.eqb s0 "^"); no_panic.
    - intros [next after] _. destruct (is_TCell ft); [reflexivity|].
      cbn in Hok. apply bind_no_panic; [apply Hsl, Hok|]. intros [? ?] _. reflexivity. }
  destruct (is_TMagic ft).
  { destruct (magic_shape s0) as [[sz base]|]; [|discriminate Hok].
    apply andb_prop in Hok as [Hsz Hp].
    destruct (Z.ltb_spec 64 sz); [apply Z.leb_le in Hsz; lia|].
    destruct (strconv.ParseInt (tail1 s0) base) as [magic| |]; try discriminate Hp.
    apply bind_no_panic; [no_panic|]. intros [ld l] _.
    destruct (ld =? to_uint64 magic); reflexivity. }
  destruct (String.eqb s0 "dict"); [|discriminate Hok].
  destruct args as [|tok more]; [discriminate Hok|].
  apply andb_prop in Hok as [Hp Hrest].
  destruct (strconv.ParseUint tok 10) as [sz| |]; try discriminate Hp.
  apply bind_no_panic; [rewrite wrap_no_panic; apply Hdict|].
  intros [dict l] _.
  assert (Hplain : is_TDict ft = true ->
            is_panic (v ← Set_ (is_TDict ft) (VDict (Some dict)); Ok (v, l)) = false).
  { intros ->. reflexivity. }
  destruct more as [|s2 [|s3 more']]; try (apply Hplain, Hrest).
  destruct (String.eqb s2 "->"); [|apply Hplain, Hrest].
  apply andb_prop in Hrest as [Harr He]. rewrite Harr.
  destruct (Helem He) as [[xs ->] Hse].
  apply bind_no_panic; [|reflexivity]. apply transform_array_no_panic, Hse.
Qed.

Lemma either_ok_no_panic (nested_ok elem_ok : bool) sl sl_elem tyname name ft tag
    (settings : list string) fv loader :
  (forall l, is_panic (LoadAddr l) = false) ->
  (forall sz l, is_panic (LoadDict sz l) = false) ->
  (nested_ok = true -> forall l, is_panic (sl l) = false) ->
  (elem_ok = true ->
   (exists xs, fv = VSlice xs) /\ forall l, is_panic (sl_elem l) = false) ->
  either_ok nested_ok elem_ok ft settings = true ->
  is_panic (load_either sl sl_elem tyname name ft tag settings fv loader) = false.
Proof.
  intros Haddr Hdict Hsl Helem Hok.
  destruct settings as [|s0 args]; [discriminate Hok|].
  unfold either_ok in Hok. unfold load_either.
  destruct (String.eqb s0 "either");
    [|eapply directive_ok_no_panic; eassumption].
  destruct args as [|s1 [|s2 more]]; try discriminate Hok.
  apply andb_prop in Hok as [H1 H2].
  apply bind_no_panic; [no_panic|]. intros [isSecond l] _.
  destruct isSecond; eapply directive_ok_no_panic; eassumption.
Qed.

Lemma field_ok_no_panic (nested_ok elem_ok : bool) sl sl_elem tyname name ft rawtag
    fv loader :
  (forall l, is_panic (LoadAddr l) = false) ->
  (forall sz l, is_panic (LoadDict sz l) = false) ->
  (nested_ok = true -> forall l, is_panic (sl l) = false) ->
  (elem_ok = true ->
   (exists xs, fv = VSlice xs) /\ forall l, is_panic (sl_elem l) = false) ->
  field_ok nested_ok elem_ok ft rawtag = true ->
  is_panic (load_field sl sl_elem tyname name ft rawtag fv loader) = false.
Proof.
  intros Haddr Hdict Hsl Helem Hok.
  unfold field_ok, excluded, tokens in Hok. unfold load_field.
  destruct (String.eqb (strings.TrimSpace rawtag) "-"); [reflexivity|].
  cbn [orb] in Hok.
  destruct (strings.Split (strings.TrimSpace rawtag)) as [|s0 rest]; [reflexivity|].
  destruct (String.eqb s0 "maybe").
  - apply bind_no_panic; [no_panic|]. intros [has l] _.
    destruct has; [|reflexivity]. eapply either_ok_no_panic; eassumption.
  - eapply either_ok_no_panic; eassumption.
Qed.

Lemma types_no_panic :
  (forall l, is_panic (LoadAddr l) = false) ->
  (forall sz l, is_panic (LoadDict sz l) = false) ->
  (forall t,
      (type_ok t = true -> forall l, is_panic (structLoad t l) = false)
      /\ (forall e, t = TSlice e -> type_ok e = true ->
          forall l, is_panic (structLoad e l) = false))
  /\ (forall s, schema_ok s = true ->
        forall fname l, is_panic (load_schema s fname l) = false)
  /\ (forall fs, fields_ok fs = true ->
        forall tyname (pre : list value) l,
          is_panic (load_fields fs tyname (length pre) (pre ++ zero_fields fs) l)
            = false).
Proof.
  intros Haddr Hdict.
  apply types_mutind; try (intros; split; intros; discriminate).
  - (* TMagic *) split; [reflexivity|discriminate].
  - (* TStruct *) intros s IH. split; [|discriminate]. intros Hok l.
    cbn [structLoad]. apply bind_no_panic; [apply IH, Hok|]. intros [? ?] _. reflexivity.
  - intros s IH. split; [|discriminate]. intros Hok l.
    cbn [structLoad]. apply bind_no_panic; [apply IH, Hok|]. intros [? ?] _. reflexivity.
  - (* TSlice *) intros e [IH _]. split; [discriminate|].
    intros e' Heq. inversion Heq; subst e'. exact IH.
  - (* Schema *) intros n m fs IH Hok fname l. cbn [schema_ok] in Hok.
    cbn [load_schema]. destruct (mLoadFromCell m); [discriminate Hok|].
    rewrite wrap_no_panic. apply (IH Hok n []).
  - (* FCons *) intros n t [IHt IHe] tag rest IHrest Hok tyname pre l.
    cbn [fields_ok] in Hok. apply andb_prop in Hok as [Hf Hr].
    apply andb_prop in Hf as [Hf Hm].
    cbn [zero_fields].
    rewrite (load_fields_cons _ _ _ _ _ _ _ (zero t))
      by (try exact Hm; apply list_lookup_middle; reflexivity).
    apply bind_no_panic.
    + eapply field_ok_no_panic; try eassumption.
      intros He. apply andb_prop in He as [He Hn]. rewrite Hn.
      destruct t; try discriminate He. split; [eexists; reflexivity|].
      apply (IHe _ eq_refl He).
    + intros [fv' l'] _.
      rewrite insert_app_r_alt by lia. rewrite Nat.sub_diag. cbn [insert list_insert].
      specialize (IHrest Hr tyname (pre ++ [fv'])%list l').
      rewrite length_app, Nat.add_1_r, <- app_assoc in IHrest. exact IHrest.
Qed.

(** X1: a schema that passes the check [schema_ok] (every directive has
    the arguments it needs and stands on a field of a type it can fill,
    which is exported unless it is excluded with [-] or a [Magic] with its
    literal, in nested records and under [maybe] and [either] as well) is
    decoded without a panic whatever the cursor holds, as long as the
    address and dictionary readers of the cell library do not panic
    themselves: bad data ends in a returned error or a record, through
    [LoadFromCell] and through [structLoad] alike. *)
Theorem checked_schema_decodes_without_panic (s : schema) loader :
  (forall l, is_panic (LoadAddr l) = false) ->
  (forall sz l, is_panic (LoadDict sz l) = false) ->
  schema_ok s = true ->
  is_panic (LoadFromCell (TPtr s) (VPtr (Some (zero_schema s))) loader) = false
  /\ is_panic (structLoad (TStruct s) loader) = false
  /\ is_panic (structLoad (TPtr s) loader) = false.
Proof.
  intros Haddr Hdict Hok.
  destruct (types_no_panic Haddr Hdict) as (Ht & Hs & Hf).
  split; [|split; [apply (proj1 (Ht (TStruct s))), Hok
                  |apply (proj1 (Ht (TPtr s))), Hok]].
  destruct s as [n m fs]. cbn [schema_ok] in Hok.
  destruct (mLoadFromCell m); [discriminate Hok|].
  unfold LoadFromCell.
  cbn [kind_is_pointer IsNil negb andb schema_fields schema_name zero_schema].
  apply bind_no_panic; [apply (Hf fs Hok n [])|]. intros [? ?] _. reflexivity.
Qed.

(** *** Excluded fields *)

Lemma load_fields_frame (fs : fieldlist) tyname (i : nat) (rv rv' : list value)
    (loader l' : Slice) :
  load_fields fs tyname i rv loader = Ok (rv', l') ->
  length rv' = length rv
  /\ forall j, (j < i \/ i + NumField fs <= j)%nat -> rv' !! j = rv !! j.
Proof.
  revert i rv loader. induction fs as [|n t tag rest IH]; intros i rv loader H.
  - cbn in H. inversion H; subst. split; [reflexivity|]. intros; reflexivity.
  - cbn [load_fields] in H. destruct (rv !! i) as [fv|] eqn:Hi; [|discriminate H].
    match type of H with
    | context [load_field ?a ?b tyname n t tag fv loader] =>
        destruct (load_field a b tyname n t tag fv loader) as [[fv' l1]| |];
          try discriminate H
    end.
    cbn -[load_fields sets_field] in H.
    destruct (token.IsExported n || negb (sets_field t tag loader));
      [|discriminate H].
    apply IH in H as [Hlen Hframe].
    rewrite length_insert in Hlen. split; [exact Hlen|].
    intros j Hj. cbn [NumField] in Hj.
    rewrite Hframe by lia. apply list_lookup_insert_ne. lia.
Qed.

Lemma store_fields_frame (fs : fieldlist) (i j : nat) (rv : list value) (x : value)
    (b : Builder) :
  (j < i)%nat -> store_fields fs i (<[j:=x]> rv) b = store_fields fs i rv b.
Proof.
  revert i b. induction fs as [|n t tag rest IH]; intros i b Hj; [reflexivity|].
  cbn [store_fields]. rewrite list_lookup_insert_ne by lia.
  destruct (rv !! i) as [fv|]; [|reflexivity].
  destruct (negb (token.IsExported n) && reads_Interface t tag fv b);
    [reflexivity|].
  match goal with
  | |- context [store_field ?a n t tag fv b] =>
      destruct (store_field a n t tag fv b) as [b1| |]
  end; [|reflexivity..].
  cbn -[store_fields]. apply IH. lia.
Qed.

(** X2: a field excluded with [-] takes no part in either walk.  What it
    holds has no influence on what [ToCell] writes or returns, and
    [LoadFromCell], when it succeeds, returns the field as it found it. *)
Theorem excluded_field_is_inert (fs : fieldlist) (k : nat) (rawtag : string) :
  tag_at fs k = Some rawtag -> excluded rawtag = true ->
  (forall i rv x b,
      (i + k < length rv)%nat ->
      store_fields fs i (<[(i + k)%nat := x]> rv) b = store_fields fs i rv b)
  /\ (forall tyname i rv loader rv' l',
        load_fields fs tyname i rv loader = Ok (rv', l') ->
        rv' !! (i + k)%nat = rv !! (i + k)%nat).
Proof.
  revert k. induction fs as [|n t tag rest IH]; intros k Htag Hex; [discriminate|].
  destruct k as [|k]; cbn in Htag.
  - inversion Htag; subst tag. split.
    + intros i rv x b Hlen. rewrite Nat.add_0_r in *. cbn [store_fields].
      rewrite list_lookup_insert_eq by lia.
      destruct (lookup_lt_is_Some_2 rv i Hlen) as [fv Hfv]. rewrite Hfv.
      rewrite !(marked_not_read t rawtag _ b) by (rewrite Hex; reflexivity).
      rewrite !andb_false_r.
      unfold store_field. unfold excluded in Hex. rewrite Hex.
      cbn -[store_fields]. apply store_fields_frame. lia.
    + intros tyname i rv loader rv' l' H. rewrite Nat.add_0_r.
      cbn [load_fields] in H. destruct (rv !! i) as [fv|] eqn:Hi; [|discriminate H].
      rewrite (marked_not_set t rawtag loader) in H by (rewrite Hex; reflexivity).
      rewrite orb_true_r in H.
      unfold load_field in H. unfold excluded in Hex. rewrite Hex in H.
      cbn -[load_fields] in H. apply load_fields_frame in H as [_ Hframe].
      rewrite Hframe by lia. rewrite list_insert_id by exact Hi. exact Hi.
  - destruct (IH k Htag Hex) as [IHs IHl]. split.
    + intros i rv x b Hlen. cbn [store_fields].
      rewrite list_lookup_insert_ne by lia.
      destruct (rv !! i) as [fv|]; [|reflexivity].
      destruct (negb (token.IsExported n) && reads_Interface t tag fv b);
        [reflexivity|].
      match goal with
      | |- context [store_field ?a n t tag fv b] =>
          destruct (store_field a n t tag fv b) as [b1| |]
      end; [|reflexivity..].
      cbn -[store_fields]. replace (i + S k)%nat with (S i + k)%nat by lia.
      apply IHs. lia.
    + intros tyname i rv loader rv' l' H.
      cbn [load_fields] in H. destruct (rv !! i) as [fv|] eqn:Hi; [|discriminate H].
      match type of H with
      | context [load_field ?a ?b tyname n t tag fv loader] =>
          destruct (load_field a b tyname n t tag fv loader) as [[fv' l1]| |];
            try discriminate H
      end.
      cbn -[load_fields sets_field] in H.
      destruct (token.IsExported n || negb (sets_field t tag loader));
        [|discriminate H].
      replace (i + S k)%nat with (S i + k)%nat by lia.
      rewrite (IHl _ _ _ _ _ _ H). apply list_lookup_insert_ne. lia.
Qed.

(** *** The errors of the encoder and of nested records *)

Lemma wrap_err {A} fmt args (m : outcome A) (e : error) :
  wrap fmt args m = Err e -> exists c, e = Wrapf fmt args c.
Proof. destruct m; cbn; intros H; inversion H. eexists; reflexivity. Qed.

Ltac wrapped H :=
  apply wrap_err in H as [? ->]; constructor.

Lemma store_directive_error ss name ft tag (settings : list string) fv builder
    (e : error) :
  store_directive ss name ft tag settings fv builder = Err e ->
  encode_error ss name e.
Proof.
  intros H. unfold store_directive in H.
  destruct settings as [|s0 args]; [discriminate H|].
  destruct (String.eqb s0 "##").
  { destruct args as [|s1 ?]; [discriminate H|].
    destruct (strconv.ParseUint s1 10) as [num| |]; try discriminate H.
    destruct (num <=? 64).
    - destruct ft; try discriminate H; destruct fv; try discriminate H; wrapped H.
    - destruct (num <=? 256); [|discriminate H].
      destruct ft; try discriminate H; destruct fv; try discriminate H; wrapped H. }
  destruct (String.eqb s0 "addr").
  { destruct ft; try discriminate H; destruct fv; try discriminate H; wrapped H. }
  destruct (String.eqb s0 "bool").
  { destruct ft; try discriminate H; destruct fv; try discriminate H; wrapped H. }
  destruct (String.eqb s0 "bits").
  { destruct args as [|s1 ?]; [discriminate H|].
    destruct (strconv.Atoi s1) as [num| |]; try discriminate H.
    destruct ft; try discriminate H; destruct fv; try discriminate H; wrapped H. }
  destruct (String.eqb s0 "^" || String.eqb s0 ".").
  { assert (Hafter : forall c,
              (if String.eqb s0 "^"
               then wrap "failed to store cell to ref for %s, err: %w" [AStr name]
                         (StoreRef c builder)
               else match c with
                    | None => Panic "runtime error: invalid memory address or nil pointer dereference"
                    | Some c =>
                        wrap "failed to store cell to builder for %s, err: %w"
                             [AStr name] (StoreBuilder (ToBuilder c) builder)
                    end) = Err e -> encode_error ss name e).
    { intros c Hc. destruct (String.eqb s0 "^"); [wrapped Hc|].
      destruct c; [wrapped Hc|discriminate Hc]. }
    assert (Hnest : (c ← ss fv;
                     if String.eqb s0 "^"
                     then wrap "failed to store cell to ref for %s, err: %w" [AStr name]
                               (StoreRef c builder)
                     else match c with
                          | None => Panic "runtime error: invalid memory address or nil pointer dereference"
                          | Some c =>
                              wrap "failed to store cell to builder for %s, err: %w"
                                   [AStr name] (StoreBuilder (ToBuilder c) builder)
                          end) = Err e -> encode_error ss name e).
    { destruct (ss fv) as [c| |] eqn:Hss; cbn; intros Hc;
        [eapply Hafter; exact Hc|inversion Hc; subst; econstructor; exact Hss
        |discriminate Hc]. }
    destruct ft; try (apply Hnest; exact H).
    destruct fv; try discriminate H. eapply Hafter. exact H. }
  destruct (is_TMagic ft).
  { destruct (magic_shape s0) as [[sz base]|]; [|discriminate H].
    destruct (64 <? sz); [discriminate H|].
    destruct (strconv.ParseInt (tail1 s0) base) as [magic| |]; try discriminate H.
    wrapped H. }
  destruct (String.eqb s0 "dict"); [|discriminate H].
  destruct ft; try discriminate H; destruct fv; try discriminate H; wrapped H.
Qed.

Lemma store_directive_error_of ss name ft tag (settings : list string) fv builder
    (e : error) :
  store_directive ss name ft tag settings fv builder = Err e ->
  store_error_of ss name ft settings fv e.
Proof.
  intros H. unfold store_directive in H. unfold store_error_of.
  destruct settings as [|s0 args]; [discriminate H|].
  destruct (String.eqb s0 "##").
  { destruct args as [|s1 ?]; [discriminate H|].
    destruct (strconv.ParseUint s1 10) as [num| |]; try discriminate H.
    unfold spec_int_path.
    destruct (num <=? 64).
    - destruct ft; try discriminate H; destruct fv; try discriminate H;
        apply wrap_err in H as [c ->]; exists c; reflexivity.
    - destruct (num <=? 256); [|discriminate H].
      destruct ft; try discriminate H; destruct fv; try discriminate H;
        apply wrap_err in H as [c ->]; exists c; reflexivity. }
  destruct (String.eqb s0 "addr").
  { destruct ft; try discriminate H; destruct fv; try discriminate H;
      apply wrap_err in H; exact H. }
  destruct (String.eqb s0 "bool").
  { destruct ft; try discriminate H; destruct fv; try discriminate H;
      apply wrap_err in H; exact H. }
  destruct (String.eqb s0 "bits").
  { destruct args as [|s1 ?]; [discriminate H|].
    destruct (strconv.Atoi s1) as [num| |]; try discriminate H.
    destruct ft; try discriminate H; destruct fv; try discriminate H;
      apply wrap_err in H; exact H. }
  destruct (String.eqb s0 "^" || String.eqb s0 ".").
  { assert (Hafter : forall c,
              (if String.eqb s0 "^"
               then wrap "failed to store cell to ref for %s, err: %w" [AStr name]
                         (StoreRef c builder)
               else match c with
                    | None => Panic "runtime error: invalid memory address or nil pointer dereference"
                    | Some c =>
                        wrap "failed to store cell to builder for %s, err: %w"
                             [AStr name] (StoreBuilder (ToBuilder c) builder)
                    end) = Err e ->
              if String.eqb s0 "^"
              then exists c,
                     e = Wrapf "failed to store cell to ref for %s, err: %w"
                               [AStr name] c
              else exists c,
                     e = Wrapf "failed to store cell to builder for %s, err: %w"
                               [AStr name] c).
    { intros c Hc. destruct (String.eqb s0 "^");
        [apply wrap_err in Hc; exact Hc|].
      destruct c; [apply wrap_err in Hc; exact Hc|discriminate Hc]. }
    destruct (is_TCell ft) eqn:Hcell.
    - right. destruct ft; try discriminate Hcell.
      destruct fv; try discriminate H. exact (Hafter _ H).
    - assert (Hss : (c ← ss fv;
                     if String.eqb s0 "^"
                     then wrap "failed to store cell to ref for %s, err: %w"
                               [AStr name] (StoreRef c builder)
                     else match c with
                          | None => Panic "runtime error: invalid memory address or nil pointer dereference"
                          | Some c =>
                              wrap "failed to store cell to builder for %s, err: %w"
                                   [AStr name] (StoreBuilder (ToBuilder c) builder)
                          end) = Err e)
        by (destruct ft; try discriminate Hcell; exact H).
      destruct (ss fv) as [c| |]; cbn in Hss;
        [right; exact (Hafter _ Hss)
        |left; split; [reflexivity|inversion Hss; reflexivity]
        |discriminate Hss]. }
  destruct (is_TMagic ft).
  { destruct (magic_shape s0) as [[sz base]|]; [|discriminate H].
    destruct (64 <? sz); [discriminate H|].
    destruct (strconv.ParseInt (tail1 s0) base) as [magic| |]; try discriminate H.
    apply wrap_err in H; exact H. }
  destruct (String.eqb s0 "dict"); [|discriminate H].
  destruct ft; try discriminate H; destruct fv; try discriminate H;
    apply wrap_err in H; exact H.
Qed.

Lemma store_field_error_of ss name ft rawtag fv builder (e : error) :
  store_field ss name ft rawtag fv builder = Err e ->
  field_store_error ss name ft (tokens rawtag) fv e.
Proof.
  intros H. unfold store_field in H. unfold field_store_error, tokens.
  destruct (String.eqb (strings.TrimSpace rawtag) "-"); [discriminate H|].
  destruct (strings.Split (strings.TrimSpace rawtag)) as [|s0 rest];
    [discriminate H|].
  assert (Heither : forall settings b,
             store_either ss name ft (strings.TrimSpace rawtag) settings fv b = Err e ->
             match settings with
             | [] => False
             | t0 :: targs =>
                 if String.eqb t0 "either" then
                   match targs with
                   | s1 :: s2 :: _ =>
                       (exists c, e = Wrapf "cannot store maybe bit: %w" [] c)
                       \/ store_error_of ss name ft
                             [if strings.HasPrefix s2 "^" then s2 else s1] fv e
                   | _ => False
                   end
                 else store_error_of ss name ft settings fv e
             end).
  { intros settings b He. unfold store_either in He.
    destruct settings as [|t0 targs]; [discriminate He|].
    destruct (String.eqb t0 "either");
      [|eapply store_directive_error_of; exact He].
    destruct targs as [|t1 [|t2 ?]]; try discriminate He.
    destruct (StoreBoolBit (strings.HasPrefix t2 "^") b) as [b1| |];
      cbn -[store_directive] in He;
      [|inversion He; left; eexists; reflexivity|discriminate He].
    right. eapply store_directive_error_of; exact He. }
  destruct (String.eqb s0 "maybe"); [|exact (Heither _ _ H)].
  destruct (kind_is_pointer ft && IsNil fv);
    [left; apply wrap_err in H; exact H|].
  destruct (StoreBoolBit true builder) as [b1| |]; cbn -[store_either] in H;
    [|inversion H; left; eexists; reflexivity|discriminate H].
  right. exact (Heither _ _ H).
Qed.

(** X3: the error returned by the encoding of one field has the form of
    the directive it comes from ([field_store_error], over the tokens of
    the tag).  A reference under [^], an inline cell under [.] and a
    dictionary give an error wrapped with the identifier of the field;
    [## N] gives the message of the way [N] and the declared type select
    with the width [N] of the tag, [bits N] its own message with [N]; the
    presence and choice bits, [addr], [bool] and a [Magic] give a message
    with neither; the error of a nested record is returned as
    [structStore] made it.  In particular the error is one of the forms of
    [encode_error]. *)
Theorem encode_errors_by_origin ss name ft rawtag fv builder (e : error) :
  store_field ss name ft rawtag fv builder = Err e ->
  field_store_error ss name ft (tokens rawtag) fv e
  /\ encode_error ss name e.
Proof.
  intros H. split; [exact (store_field_error_of _ _ _ _ _ _ _ H)|].
  unfold store_field in H.
  destruct (String.eqb (strings.TrimSpace rawtag) "-"); [discriminate H|].
  destruct (strings.Split (strings.TrimSpace rawtag)) as [|s0 rest];
    [discriminate H|].
  assert (Heither : forall settings b,
             store_either ss name ft (strings.TrimSpace rawtag) settings fv b = Err e ->
             encode_error ss name e).
  { intros settings b He. unfold store_either in He.
    destruct settings as [|t0 targs]; [discriminate He|].
    destruct (String.eqb t0 "either");
      [|eapply store_directive_error; exact He].
    destruct targs as [|t1 [|t2 ?]]; try discriminate He.
    destruct (StoreBoolBit (strings.HasPrefix t2 "^") b) as [b1| |];
      cbn -[store_directive] in He;
      [|inversion He; constructor|discriminate He].
    eapply store_directive_error; exact He. }
  destruct (String.eqb s0 "maybe"); [|eapply Heither; exact H].
  destruct (kind_is_pointer ft && IsNil fv); [wrapped H|].
  destruct (StoreBoolBit true builder) as [b1| |]; cbn -[store_either] in H;
    [|inversion H; constructor|discriminate H].
  eapply Heither; exact H.
Qed.

(** X4: every error [structLoad] returns is wrapped once, with the name of
    the type of the nested record, which is empty for a pointer type; every
    error [structStore] returns is wrapped once with the name it was called
    with.  The identifier of the field appears in neither. *)
Theorem nested_errors_name_the_type (t : gotype) (name : string) (x : value)
    loader (e : error) :
  (structLoad t loader = Err e ->
   exists c,
     e = Wrapf "failed to load from cell for %s, err: %w" [AStr (type_name t)] c
     \/ e = Wrapf "failed to load from cell for %s, using manual loader, err: %w"
              [AStr (type_name t)] c)
  /\ (structStore t name x = Err e ->
      exists c,
        e = Wrapf "failed to store to cell for %s, err: %w" [AStr name] c
        \/ e = Wrapf "failed to store to cell for %s, using manual storer, err: %w"
                 [AStr name] c).
Proof.
  split.
  - intros H. destruct t; try discriminate H; destruct s as [n m fs];
      cbn [structLoad load_schema type_name schema_name] in H.
    + destruct (mLoadFromCell m).
      * match type of H with
        | (?w ≫= _) = _ => destruct w as [[r l]| |] eqn:Hw; try discriminate H
        end.
        inversion H; subst. apply wrap_err in Hw as [c ->]. exists c. right. reflexivity.
      * match type of H with
        | (?w ≫= _) = _ => destruct w as [[r l]| |] eqn:Hw; try discriminate H
        end.
        inversion H; subst. apply wrap_err in Hw as [c ->]. exists c. left. reflexivity.
    + destruct (mLoadFromCell m).
      * match type of H with
        | (?w ≫= _) = _ => destruct w as [[r l]| |] eqn:Hw; try discriminate H
        end.
        inversion H; subst. apply wrap_err in Hw as [c ->]. exists c. right. reflexivity.
      * match type of H with
        | (?w ≫= _) = _ => destruct w as [[r l]| |] eqn:Hw; try discriminate H
        end.
        inversion H; subst. apply wrap_err in Hw as [c ->]. exists c. left. reflexivity.
  - intros H.
    assert (Hs : forall s is_ptr p, store_schema s name is_ptr p = Err e ->
              exists c,
                e = Wrapf "failed to store to cell for %s, err: %w" [AStr name] c
                \/ e = Wrapf "failed to store to cell for %s, using manual storer, err: %w"
                         [AStr name] c).
    { intros [n m fs] is_ptr p Hs. cbn [store_schema] in Hs.
      match type of Hs with
      | match ?man with _ => _ end = _ => destruct man
      end; apply wrap_err in Hs as [c ->]; exists c; [right|left]; reflexivity. }
    destruct t; cbn [structStore] in H;
      try (destruct (kind_is_pointer _ && IsNil x); [|discriminate H];
           apply wrap_err in H as [c ->]; exists c; left; reflexivity);
      try discriminate H.
    + destruct x; try discriminate H. eapply Hs; exact H.
    + destruct x; try discriminate H. eapply Hs; exact H.
Qed.

(** X5: a record type with methods of its own.  [structStore] and
    [structLoad] call these methods instead of walking the fields, so when
    what the type's [ToCell] makes is read back by its [LoadFromCell], a
    field of that type under [^] or [.] is read back as it was written,
    whatever tags its own fields carry. *)
Theorem custom_codec_round_trip
    (n : string) (m : methods) (fs : fieldlist)
    (ld : Slice -> outcome (list value * Slice))
    (st : list value -> outcome (option Cell))
    sl_elem tyname name rawtag (rv : list value) (b b' : Builder) :
  mLoadFromCell m = Some ld -> mToCellVal m = Some st ->
  (forall rv oc, st rv = Ok oc ->
     exists c, oc = Some c
       /\ forall e r, ld (mkCell (bits c ++ e) (refs c ++ r)) = Ok (rv, mkCell e r)) ->
  tokens rawtag = ["^"%string] \/ tokens rawtag = ["."%string] ->
  store_field (structStore (TStruct (Schema n m fs)) n) name
              (TStruct (Schema n m fs)) rawtag (VStruct rv) b = Ok b' ->
  reads_back (load_field (structLoad (TStruct (Schema n m fs))) sl_elem tyname name
                         (TStruct (Schema n m fs)) rawtag
                         (zero (TStruct (Schema n m fs))))
             (VStruct rv) b b'.
Proof.
  intros Hld Hst Hinv Htok Hstore.
  eapply (field_round_trip (fun x => exists rv, x = VStruct rv)); [| |exact Hstore].
  - intros x oc [rv0 ->] Hx. cbn [structStore store_schema] in Hx.
    rewrite Hst in Hx. cbn [option_map] in Hx.
    apply wrap_ok in Hx. destruct (Hinv _ _ Hx) as (c & -> & Hc).
    exists c. split; [reflexivity|]. intros e r.
    cbn [structLoad load_schema schema_name]. rewrite Hld, Hc. reflexivity.
  - unfold field_domain.
    destruct Htok as [Htok|Htok]; rewrite Htok.
    + rewrite (Split_dash _ _ Htok ltac:(discriminate)). cbn. eexists; reflexivity.
    + rewrite (Split_dash _ _ Htok ltac:(discriminate)). cbn. eexists; reflexivity.
Qed.

(** *** What follows an encoding *)

Lemma denoted_after_store (s : schema) (rv : list value) (c : Cell) :
  schema_domain s rv ->
  ToCell (TPtr s) (VPtr (Some rv)) = Ok c ->
  forall e r,
    denoted_schema s (mkCell (bits c ++ e) (refs c ++ r)) = Ok (rv, mkCell e r).
Proof.
  destruct s as [sname m fs]. intros (Hl & Hv & Hp & Hdom) Henc e r.
  cbn [ToCell schema_fields] in Henc.
  destruct (store_fields fs 0 rv BeginCell) as [b1| |] eqn:Hf; try discriminate Henc.
  inversion Henc; subst c.
  destruct types_denoted as (_ & _ & Hfields).
  destruct (Hfields fs [] rv BeginCell b1 Hdom Hf sname []) as (d & r0 & -> & H).
  cbn [denoted_schema]. rewrite Hl.
  specialize (H e r). cbn [length app] in H.
  unfold EndCell, bapp, BeginCell. cbn [bits refs app]. exact H.
Qed.

Lemma load_after_store (s : schema) (rv : list value) (c : Cell) :
  exported_schema s = true ->
  schema_domain s rv ->
  ToCell (TPtr s) (VPtr (Some rv)) = Ok c ->
  forall e r,
    LoadFromCell (TPtr s) (VPtr (Some (zero_schema s)))
                 (mkCell (bits c ++ e) (refs c ++ r))
    = Ok (VPtr (Some rv), mkCell e r).
Proof.
  destruct s as [sname m fs]. intros He (Hl & Hv & Hp & Hdom) Henc e r.
  cbn [ToCell schema_fields] in Henc.
  destruct (store_fields fs 0 rv BeginCell) as [b1| |] eqn:Hf; try discriminate Henc.
  inversion Henc; subst c.
  destruct types_round_trip as (_ & _ & Hfields).
  destruct (Hfields fs He [] rv BeginCell b1 Hdom Hf sname []) as (d & r0 & -> & H).
  unfold LoadFromCell.
  cbn [kind_is_pointer IsNil negb andb schema_fields schema_name zero_schema].
  specialize (H e r). cbn [length app] in H.
  unfold EndCell, bapp, BeginCell. cbn [bits refs app]. rewrite H. reflexivity.
Qed.

(** X6: [LoadFromCell] does not ask for the end of the cell.  For a record
    type whose fields are exported ([exported_schema]) and a record within
    the domain of its schema, the bits and references that follow its
    encoding are left in the cursor, and the record is decoded as if they
    were not there. *)
Theorem decode_leaves_what_follows (s : schema) (rv : list value) (c : Cell)
    (e : list bool) (r : list Cell) :
  exported_schema s = true ->
  schema_domain s rv ->
  ToCell (TPtr s) (VPtr (Some rv)) = Ok c ->
  LoadFromCell (TPtr s) (VPtr (Some (zero_schema s)))
               (mkCell (bits c ++ e) (refs c ++ r))
    = Ok (VPtr (Some rv), mkCell e r).
Proof. intros He Hdom Henc. apply load_after_store; assumption. Qed.

(** X7: within the domain of a schema no encoding is the beginning of
    another one: if the cell of one record continues the cell of a second
    record, the two records, and the two cells, are the same.  In
    particular [ToCell] is injective there. *)
Theorem encoding_is_prefix_free (s : schema) (rv1 rv2 : list value) (c1 c2 : Cell)
    (e : list bool) (r : list Cell) :
  schema_domain s rv1 -> schema_domain s rv2 ->
  ToCell (TPtr s) (VPtr (Some rv1)) = Ok c1 ->
  ToCell (TPtr s) (VPtr (Some rv2)) = Ok c2 ->
  c2 = mkCell (bits c1 ++ e) (refs c1 ++ r) ->
  rv1 = rv2 /\ c1 = c2.
Proof.
  intros H1 H2 E1 E2 Hc.
  pose proof (denoted_after_store s rv1 c1 H1 E1 e r) as L1.
  pose proof (denoted_after_store s rv2 c2 H2 E2 [] []) as L2.
  rewrite !app_nil_r, cell_eta in L2. rewrite <- Hc in L1.
  rewrite L1 in L2. inversion L2; subst. split; [reflexivity|].
  rewrite !app_nil_r. symmetry. apply cell_eta.
Qed.

(** *** Widths and references on the decoding side *)

Lemma digits_nonneg (base : Z) (s : string) (n v : Z) :
  0 <= base -> 0 <= n -> strconv.digits base s n = strconv.Num v -> 0 <= v.
Proof.
  intros Hb. revert n. induction s as [|c r IH]; intros n Hn H; cbn [strconv.digits] in H.
  - inversion H; subst. exact Hn.
  - destruct (strconv.digit c) as [d|] eqn:Hd; [|discriminate H].
    pose proof (digit_nonneg _ _ Hd).
    destruct (base <=? d); [discriminate H|].
    destruct (_ <=? n); [discriminate H|].
    destruct (_ <? _); [discriminate H|].
    apply (IH (n * base + d)); [nia|exact H].
Qed.

(** What [ParseInt] returns fits an [int64]. *)
Lemma ParseInt_range (s : string) (base v : Z) :
  0 <= base -> strconv.ParseInt s base = strconv.Num v -> - 2 ^ 63 <= v < 2 ^ 63.
Proof.
  intros Hb. unfold strconv.ParseInt. destruct s as [|c r]; [discriminate|].
  destruct (strconv.ParseUint _ base) as [un| |] eqn:Hu; try discriminate.
  assert (0 <= un).
  { unfold strconv.ParseUint in Hu.
    destruct (if Ascii.eqb c "+" || Ascii.eqb c "-" then r else String c r);
      [discriminate Hu|].
    eapply digits_nonneg; [exact Hb| |exact Hu]. lia. }
  destruct (Ascii.eqb c "-"); cbn [negb andb].
  - destruct (Z.ltb_spec (2 ^ 63) un); [discriminate|]. intros E; inversion E. lia.
  - destruct (Z.leb_spec (2 ^ 63) un); [discriminate|]. intros E; inversion E. lia.
Qed.

(** X8: the width of [bits N] is parsed as a signed number and converted
    to an unsigned one, so a negative [N] is not reported as a defect of
    the tag: it becomes a width no cell can hold, and both engines return
    an error, wrapped with the width as written, for every cursor and every
    byte string. *)
Theorem negative_bits_width_is_a_returned_error
    sl sl_elem ss tyname name ft rawtag (tok : string) (n : Z) fv loader
    (bytes : list Z) builder :
  tokens rawtag = ["bits"%string; tok] ->
  strconv.Atoi tok = strconv.Num n -> n < 0 ->
  (Z.of_nat (length (bits loader)) < 2 ^ 63 ->
   exists c,
     load_field sl sl_elem tyname name ft rawtag fv loader
       = Err (Wrapf "failed to load uint %d, err: %w" [ANum n] c))
  /\ (Z.of_nat (length bytes) * 8 < 2 ^ 63 ->
      exists c,
        store_field ss name TBytes rawtag (VBytes bytes) builder
          = Err (Wrapf "failed to store bits %d, err: %w" [ANum n] c)).
Proof.
  intros Htok Hn Hneg.
  pose proof (ParseInt_range tok 10 n ltac:(lia) Hn) as Hrange.
  assert (Hu : to_uint64 n = n + 2 ^ 64).
  { unfold to_uint64. symmetry. apply (Z.mod_unique_pos _ _ (-1)); lia. }
  split; intros Hlen.
  - exists ErrNoMoreData.
    rewrite (load_field_tokens _ _ _ _ _ _ _ _ _ _ Htok) by discriminate.
    change (String.eqb "bits" "maybe") with false. cbv iota.
    unfold load_either.
    change (String.eqb "bits" "either") with false. cbv iota.
    unfold load_directive.
    change (String.eqb "bits" "##") with false.
    change (String.eqb "bits" "addr") with false.
    change (String.eqb "bits" "bool") with false.
    change (String.eqb "bits" "bits") with true. cbv iota.
    rewrite Hn, Hu. unfold LoadSlice, read.
    destruct (Z.leb_spec (n + 2 ^ 64) (Z.of_nat (length (bits loader)))); [lia|].
    reflexivity.
  - exists ErrSmallSlice.
    rewrite (store_field_tokens _ _ _ _ _ _ _ _ Htok) by discriminate.
    change (String.eqb "bits" "maybe") with false. cbv iota.
    unfold store_either.
    change (String.eqb "bits" "either") with false. cbv iota.
    unfold store_directive.
    change (String.eqb "bits" "##") with false.
    change (String.eqb "bits" "addr") with false.
    change (String.eqb "bits" "bool") with false.
    change (String.eqb "bits" "bits") with true. cbv iota.
    rewrite Hn, Hu. unfold StoreSlice.
    destruct (Z.ltb_spec (Z.of_nat (length bytes) * 8) (n + 2 ^ 64)); [|lia].
    reflexivity.
Qed.

(** X9: a field under [^] is read from the first reference the cursor has
    left: an opaque cell is that child as it is, a nested record is decoded
    from the child, and what the decoding leaves of the child is dropped
    without a check.  The cursor of the parent loses that reference and no
    bit; with no reference left the error names the field. *)
Theorem reference_is_read_from_its_own_cell
    sl sl_elem tyname name ft rawtag fv (bs : list bool) (child : Cell)
    (rs : list Cell) :
  tokens rawtag = ["^"%string] ->
  load_field sl sl_elem tyname name ft rawtag fv (mkCell bs (child :: rs))
    = (if is_TCell ft then Ok (VCell (Some child), mkCell bs rs)
       else '(x, _) ← sl child; Ok (x, mkCell bs rs))
  /\ load_field sl sl_elem tyname name ft rawtag fv (mkCell bs [])
     = Err (Wrapf "failed to load ref for %s, err: %w" [AStr name] ErrNoMoreRefs).
Proof.
  intros Htok.
  split; rewrite (load_field_tokens _ _ _ _ _ _ _ _ _ _ Htok) by discriminate;
    change (String.eqb "^" "maybe") with false; cbv iota;
    unfold load_either; change (String.eqb "^" "either") with false; cbv iota;
    unfold load_directive;
    change (String.eqb "^" "##") with false;
    change (String.eqb "^" "addr") with false;
    change (String.eqb "^" "bool") with false;
    change (String.eqb "^" "bits") with false;
    change (String.eqb "^" "^") with true; cbn [orb]; cbv iota.
  - cbn [LoadRef refs bits wrap]. cbn -[is_TCell]. unfold BeginParse.
    destruct (is_TCell ft).
    + unfold cell.ToCell. cbn. rewrite cell_eta. reflexivity.
    + destruct (sl child) as [[x l]| |]; reflexivity.
  - reflexivity.
Qed.

(** *** Encoding within the domain *)

Lemma room_bind {A B} (m : outcome A) (f : A -> outcome B) :
  fails_only_for_room m -> (forall a, m = Ok a -> fails_only_for_room (f a)) ->
  fails_only_for_room (m ≫= f).
Proof.
  destruct m as [a| |]; cbn; intros Hm Hf; [apply Hf; reflexivity|exact Hm|exact Hm].
Qed.

Lemma room_wrap {A} fmt args (m : outcome A) :
  fails_only_for_room m -> fails_only_for_room (wrap fmt args m).
Proof. destruct m; cbn; auto. Qed.

Lemma room_write (bs : list bool) builder : fails_only_for_room (write bs builder).
Proof. unfold write. destruct (_ <? _); cbn; [left; reflexivity|exact I]. Qed.

Lemma room_StoreUInt (z N : Z) builder :
  fails_only_for_room (StoreUInt z N builder).
Proof. apply room_write. Qed.

Lemma room_StoreInt (z N : Z) builder :
  fails_only_for_room (StoreInt z N builder).
Proof. apply room_write. Qed.

Lemma room_StoreRef (c : Cell) builder : fails_only_for_room (StoreRef (Some c) builder).
Proof. unfold StoreRef. destruct (_ <=? _); cbn; [right; reflexivity|exact I]. Qed.

Lemma room_StoreBuilder (c : Cell) builder : fails_only_for_room (StoreBuilder c builder).
Proof.
  unfold StoreBuilder. destruct (_ <? _); cbn; [right; reflexivity|].
  apply room_bind; [apply room_write|]. intros; exact I.
Qed.

Lemma room_StoreSlice (N : Z) (bytes : list Z) builder :
  bits_domain N bytes -> fails_only_for_room (StoreSlice bytes N builder).
Proof.
  intros (HN & Hlen & _ & _). unfold StoreSlice.
  destruct (Z.ltb_spec (Z.of_nat (length bytes) * 8) N); [|apply room_write].
  exfalso. rewrite Hlen in H. rewrite Z2Nat.id in H by (apply Z.div_pos; lia).
  pose proof (Z.mul_succ_div_gt (N + 7) 8 ltac:(lia)). lia.
Qed.

Lemma room_base (nested : value -> Prop) ss name ft tag (settings : list string)
    (x : value) builder :
  (forall a b, fails_only_for_room (StoreAddr a b)) ->
  (forall d b, fails_only_for_room (StoreDict d b)) ->
  (forall y, nested y -> fails_only_for_room (ss y) /\ ss y <> Ok None) ->
  base_domain nested ft settings x ->
  fails_only_for_room (store_directive ss name ft tag settings x builder).
Proof.
  intros Haddr Hdict Hss Hdom.
  destruct settings as [|s0 args]; [contradiction|].
  unfold base_domain in Hdom. unfold store_directive.
  destruct (String.eqb s0 "##").
  { destruct args as [|tok args]; [contradiction|].
    destruct (strconv.ParseUint tok 10) as [N| |]; try contradiction.
    unfold int_domain in Hdom.
    destruct ft; try contradiction; destruct x as [| | | |[z|]| | | | | | |];
      try contradiction.
    - destruct Hdom as (HN & Hz & _). destruct (Z.leb_spec N 64); [|lia].
      apply room_wrap, room_StoreInt.
    - destruct Hdom as (HN & Hz & _). destruct (Z.leb_spec N 64); [|lia].
      apply room_wrap, room_StoreUInt.
    - destruct Hdom as (HN & Hz). destruct (Z.leb_spec N 64).
      + apply room_wrap. cbn. apply room_StoreInt.
      + destruct (Z.leb_spec N 256); [|lia].
        apply room_wrap. cbn. apply room_StoreInt. }
  destruct (String.eqb s0 "addr").
  { destruct ft; try contradiction. destruct x; try contradiction.
    apply room_wrap, Haddr. }
  destruct (String.eqb s0 "bool").
  { destruct ft; try contradiction. destruct x; try contradiction.
    apply room_wrap, room_write. }
  destruct (String.eqb s0 "bits").
  { destruct args as [|tok args]; [contradiction|].
    destruct ft; try contradiction. destruct x; try contradiction.
    destruct (strconv.Atoi tok) as [N| |]; try contradiction.
    apply room_wrap. unfold to_uint64. rewrite (Z.mod_small N) by (destruct Hdom; lia).
    apply room_StoreSlice, Hdom. }
  destruct (String.eqb s0 "^") eqn:Hup.
  { cbn [orb].
    assert (Hnest : nested x ->
              fails_only_for_room
                (c ← ss x;
                 wrap "failed to store cell to ref for %s, err: %w" [AStr name]
                      (StoreRef c builder))).
    { intros Hx. destruct (Hss x Hx) as [Hroom Hsome].
      apply room_bind; [exact Hroom|]. intros [c|] Hc; [|contradiction].
      apply room_wrap, room_StoreRef. }
    destruct ft; try (apply Hnest, Hdom).
    destruct x as [| | | | | |[c|]| | | | |]; try contradiction.
    cbn. apply room_wrap, room_StoreRef. }
  destruct (String.eqb s0 ".").
  { cbn [orb].
    assert (Hnest : nested x ->
              fails_only_for_room
                (c ← ss x;
                 match c with
                 | None => Panic "runtime error: invalid memory address or nil pointer dereference"
                 | Some c =>
                     wrap "failed to store cell to builder for %s, err: %w" [AStr name]
                          (StoreBuilder (ToBuilder c) builder)
                 end)).
    { intros Hx. destruct (Hss x Hx) as [Hroom Hsome].
      apply room_bind; [exact Hroom|]. intros [c|] Hc; [|contradiction].
      apply room_wrap, room_StoreBuilder. }
    destruct ft; try contradiction; apply Hnest, Hdom. }
  cbn [orb]. destruct (is_TMagic ft).
  { destruct Hdom as [_ Hdom].
    destruct (magic_shape s0) as [[sz base]|] eqn:Hshape; [|contradiction].
    destruct Hdom as [Hsz Hdom]. destruct (Z.ltb_spec 64 sz); [lia|].
    destruct (strconv.ParseInt (tail1 s0) base) as [magic| |] eqn:Hp;
      try contradiction.
    apply room_wrap, room_StoreUInt. }
  destruct (String.eqb s0 "dict"); [|contradiction].
  destruct args as [|tok [|? ?]]; try contradiction.
  destruct ft; try contradiction. destruct x; try contradiction.
  apply room_wrap, Hdict.
Qed.

Lemma room_field (nested : value -> Prop) ss name ft rawtag (x : value) builder :
  (forall a b, fails_only_for_room (StoreAddr a b)) ->
  (forall d b, fails_only_for_room (StoreDict d b)) ->
  (forall y, nested y -> fails_only_for_room (ss y) /\ ss y <> Ok None) ->
  field_domain nested ft rawtag x ->
  fails_only_for_room (store_field ss name ft rawtag x builder).
Proof.
  intros Haddr Hdict Hss Hdom.
  assert (Heither : forall settings b,
            directive_domain nested ft settings x ->
            fails_only_for_room
              (store_either ss name ft (strings.TrimSpace rawtag) settings x b)).
  { intros settings b Hd. destruct settings as [|s0 args]; [contradiction|].
    unfold directive_domain in Hd. unfold store_either.
    destruct (String.eqb s0 "either"); [|eapply room_base; eassumption].
    destruct args as [|s1 [|s2 more]]; try contradiction.
    apply room_bind; [apply room_wrap, room_write|]. intros b1 _.
    eapply room_base; eassumption. }
  unfold field_domain, tokens in Hdom. unfold store_field.
  destruct (String.eqb (strings.TrimSpace rawtag) "-"); [exact I|].
  destruct (strings.Split (strings.TrimSpace rawtag)) as [|s0 rest]; [exact I|].
  destruct (String.eqb s0 "maybe"); [|apply Heither, Hdom].
  destruct (kind_is_pointer ft && IsNil x); [apply room_wrap, room_write|].
  apply room_bind; [apply room_wrap, room_write|]. intros b1 _. apply Heither, Hdom.
Qed.

Lemma types_room :
  (forall a b, fails_only_for_room (StoreAddr a b)) ->
  (forall d b, fails_only_for_room (StoreDict d b)) ->
  (forall t, exported_type t = true -> forall name x, nested_domain t x ->
     fails_only_for_room (structStore t name x) /\ structStore t name x <> Ok None)
  /\ (forall s, exported_schema s = true -> forall name is_ptr rv,
        schema_domain s rv ->
        fails_only_for_room (store_schema s name is_ptr (Some rv))
        /\ store_schema s name is_ptr (Some rv) <> Ok None)
  /\ (forall fs, exported_fields fs = true -> forall (pre vs : list value) b,
        fields_domain fs vs ->
        fails_only_for_room (store_fields fs (length pre) (pre ++ vs) b)).
Proof.
  intros Haddr Hdict.
  apply types_mutind; try (intros; cbn in *; contradiction).
  - intros s IH He name x (rv & -> & Hrv). cbn [structStore]. apply IH; assumption.
  - intros s IH He name x (rv & -> & Hrv). cbn [structStore]. apply IH; assumption.
  - intros n m fs IH He name is_ptr rv (Hl & Hv & Hp & Hrv).
    cbn [store_schema]. rewrite Hv, Hp. cbn [option_map].
    replace (if is_ptr then None else None) with (@None (outcome (option Cell)))
      by (destruct is_ptr; reflexivity).
    specialize (IH He [] rv BeginCell Hrv). cbn [length app] in IH.
    destruct (store_fields fs 0 rv BeginCell) as [b| |]; cbn in *;
      [split; [exact I|discriminate]|split; [exact IH|discriminate]|contradiction].
  - intros _ pre vs b Hvs. cbn in Hvs. subst. exact I.
  - intros n t IHt tag rest IHrest He pre vs b Hvs.
    cbn [exported_fields] in He.
    apply andb_true_iff in He as (He & Herest).
    apply andb_true_iff in He as (Hmark & Het).
    specialize (IHt Het). specialize (IHrest Herest).
    destruct vs as [|x xs]; [contradiction|]. destruct Hvs as [Hx Hxs].
    rewrite (store_fields_cons _ _ _ _ _ _ x)
      by (try exact Hmark; apply list_lookup_middle; reflexivity).
    apply room_bind.
    + eapply room_field; try eassumption. intros y Hy. apply IHt, Hy.
    + intros b1 _. specialize (IHrest (pre ++ [x])%list xs b1 Hxs).
      rewrite length_app, Nat.add_1_r, <- app_assoc in IHrest. exact IHrest.
Qed.

(** X10: for a record type whose fields are exported ([exported_schema])
    and a record within the domain of its schema [ToCell] does not panic,
    and when it returns an error the cause at the bottom of the chain is a
    cell without room for more bits or more references, provided the
    address and dictionary writers of the cell library fail for no other
    reason. *)
Theorem in_domain_encode_fails_only_for_room (s : schema) (rv : list value) :
  (forall a b, fails_only_for_room (StoreAddr a b)) ->
  (forall d b, fails_only_for_room (StoreDict d b)) ->
  exported_schema s = true ->
  schema_domain s rv ->
  fails_only_for_room (ToCell (TPtr s) (VPtr (Some rv)))
  /\ fails_only_for_room (ToCell (TStruct s) (VStruct rv)).
Proof.
  intros Haddr Hdict He Hrv.
  destruct (types_room Haddr Hdict) as (_ & _ & Hf).
  destruct s as [n m fs]. destruct Hrv as (_ & _ & _ & Hrv).
  specialize (Hf fs He [] rv BeginCell Hrv). cbn [length app] in Hf.
  unfold ToCell. cbn [schema_fields].
  split; (apply room_bind; [exact Hf|intros; exact I]).
Qed.

(** *** The bits of a magic literal *)

Lemma value_from_mono (base : Z) (s : string) (n : Z) :
  1 <= base -> 0 <= n -> all_digits base s = true -> n <= value_from base s n.
Proof.
  intros Hb. revert n. induction s as [|c r IH]; intros n Hn Hs; cbn in *; [lia|].
  destruct (strconv.digit c) as [d|] eqn:Hd; [|discriminate Hs].
  apply andb_prop in Hs as [_ Hr]. pose proof (digit_nonneg _ _ Hd). cbn.
  specialize (IH (n * base + d) ltac:(nia) Hr). nia.
Qed.

Lemma digits_value (base : Z) (s : string) (n : Z) :
  2 <= base -> 0 <= n <= strconv.maxUint64 -> all_digits base s = true ->
  strconv.digits base s n =
    if value_from base s n <=? strconv.maxUint64
    then strconv.Num (value_from base s n) else strconv.ErrRange.
Proof.
  intros Hb. revert n. induction s as [|c r IH]; intros n Hn Hs;
    cbn [strconv.digits value_from all_digits] in *.
  - destruct (Z.leb_spec n strconv.maxUint64); [reflexivity|lia].
  - destruct (strconv.digit c) as [d|] eqn:Hd; [|discriminate Hs].
    apply andb_prop in Hs as [Hc Hr]. apply Z.ltb_lt in Hc.
    pose proof (digit_nonneg _ _ Hd) as Hd0. cbn [default from_option id].
    destruct (Z.leb_spec base d); [lia|].
    pose proof (value_from_mono base r (n * base + d) ltac:(lia) ltac:(nia) Hr)
      as Hmono.
    pose proof (Z.mul_succ_div_gt strconv.maxUint64 base ltac:(lia)) as Hcut.
    destruct (Z.leb_spec (strconv.maxUint64 / base + 1) n).
    { destruct (Z.leb_spec (value_from base r (n * base + d)) strconv.maxUint64);
        [nia|reflexivity]. }
    destruct (Z.ltb_spec strconv.maxUint64 (n * base + d)).
    { destruct (Z.leb_spec (value_from base r (n * base + d)) strconv.maxUint64);
        [lia|reflexivity]. }
    apply IH; [nia|assumption].
Qed.

Lemma value_from_bound (base : Z) (s : string) (n : Z) :
  2 <= base -> 0 <= n -> all_digits base s = true ->
  value_from base s n < (n + 1) * base ^ strings.len s.
Proof.
  intros Hb. revert n. unfold strings.len.
  induction s as [|c r IH]; intros n Hn Hs; cbn [value_from all_digits String.length] in *.
  - cbn. lia.
  - destruct (strconv.digit c) as [d|] eqn:Hd; [|discriminate Hs].
    apply andb_prop in Hs as [Hc Hr]. apply Z.ltb_lt in Hc.
    pose proof (digit_nonneg _ _ Hd) as Hd0. cbn [default from_option id].
    specialize (IH (n * base + d) ltac:(nia) Hr).
    rewrite Nat2Z.inj_succ, Z.pow_succ_r by lia.
    assert (0 < base ^ Z.of_nat (String.length r)) by (apply Z.pow_pos_nonneg; lia).
    nia.
Qed.

(** A literal of digits, without a sign, that stays below [2^63] parses to
    the number it denotes. *)
Lemma ParseInt_value (base : Z) (d : string) :
  2 <= base -> d <> EmptyString -> all_digits base d = true ->
  value_from base d 0 < 2 ^ 63 ->
  strconv.ParseInt d base = strconv.Num (value_from base d 0).
Proof.
  intros Hb Hne Hd Hv. destruct d as [|c r]; [contradiction|].
  unfold strconv.ParseInt.
  assert (Hsign : Ascii.eqb c "+" = false /\ Ascii.eqb c "-" = false).
  { cbn [all_digits] in Hd.
    split; [destruct (Ascii.eqb_spec c "+") as [->|]
           |destruct (Ascii.eqb_spec c "-") as [->|]];
      try reflexivity; discriminate Hd. }
  destruct Hsign as [-> ->]. cbn [orb negb andb].
  unfold strconv.ParseUint.
  rewrite digits_value by (try assumption; unfold strconv.maxUint64; lia).
  destruct (Z.leb_spec (value_from base (String c r) 0) strconv.maxUint64);
    [|unfold strconv.maxUint64 in *; lia].
  destruct (Z.leb_spec (2 ^ 63) (value_from base (String c r) 0)); [lia|reflexivity].
Qed.

Lemma bits_of_split (m k : nat) (z : Z) :
  bits_of (m + k) z = (bits_of m (z / 2 ^ Z.of_nat k) ++ bits_of k z)%list.
Proof.
  induction m as [|m IH]; [reflexivity|].
  cbn [Nat.add bits_of app]. rewrite IH. f_equal.
  rewrite Z.div_pow2_bits by lia. f_equal. lia.
Qed.

Lemma bits_of_mod (k : nat) (z : Z) (j : Z) :
  Z.of_nat k <= j -> bits_of k (z mod 2 ^ j) = bits_of k z.
Proof.
  intros Hj. induction k as [|k IH]; [reflexivity|].
  cbn [bits_of]. rewrite IH by lia. f_equal.
  apply Z.mod_pow2_bits_low. lia.
Qed.

Lemma bits_of_digit (m k : nat) (a x : Z) :
  0 <= x < 2 ^ Z.of_nat k ->
  bits_of (m + k) (a * 2 ^ Z.of_nat k + x) = (bits_of m a ++ bits_of k x)%list.
Proof.
  intros Hx. rewrite bits_of_split. f_equal.
  - f_equal. rewrite Z.div_add_l by lia. rewrite Z.div_small by exact Hx. lia.
  - rewrite <- (bits_of_mod k _ (Z.of_nat k)) by lia.
    rewrite Z.add_comm, Z.mod_add by lia. rewrite Z.mod_small by exact Hx.
    reflexivity.
Qed.

Lemma bits_of_value (k : nat) (r : string) (m : nat) (n : Z) :
  all_digits (2 ^ Z.of_nat k) r = true ->
  bits_of (m + k * String.length r) (value_from (2 ^ Z.of_nat k) r n)
  = (bits_of m n ++ literal_bits k r)%list.
Proof.
  revert m n. induction r as [|c r IH]; intros m n Hr.
  - cbn [String.length value_from]. unfold literal_bits. cbn.
    rewrite Nat.mul_0_r, Nat.add_0_r, app_nil_r. reflexivity.
  - cbn [all_digits] in Hr. destruct (strconv.digit c) as [d|] eqn:Hd; [|discriminate Hr].
    apply andb_prop in Hr as [Hc Hr]. apply Z.ltb_lt in Hc.
    pose proof (digit_nonneg _ _ Hd) as Hd0.
    cbn [String.length value_from]. rewrite Hd. cbn [default from_option id].
    replace (m + k * S (String.length r))%nat
      with ((m + k) + k * String.length r)%nat by lia.
    rewrite IH by exact Hr. rewrite bits_of_digit by lia.
    unfold literal_bits. cbn [list_ascii_of_string flat_map]. rewrite Hd. cbn [default from_option id].
    rewrite <- app_assoc. reflexivity.
Qed.

Lemma fold_bits (l : list bool) (acc : Z) :
  fold_left (fun a b => 2 * a + Z.b2z b) l acc
  = acc * 2 ^ Z.of_nat (length l) + Z_of_bits l.
Proof.
  unfold Z_of_bits. revert acc. induction l as [|b l IH]; intros acc.
  - cbn. lia.
  - cbn [fold_left length]. rewrite IH, (IH (2 * 0 + Z.b2z b)).
    rewrite Nat2Z.inj_succ, Z.pow_succ_r by lia. lia.
Qed.

Lemma Z_of_bits_range (l : list bool) : 0 <= Z_of_bits l < 2 ^ Z.of_nat (length l).
Proof.
  induction l as [|b l IH]; [cbn; lia|].
  unfold Z_of_bits in *. cbn [fold_left length]. rewrite fold_bits.
  fold (Z_of_bits l) in IH. unfold Z_of_bits at 1.
  rewrite Nat2Z.inj_succ, Z.pow_succ_r by lia.
  destruct b; cbn [Z.b2z]; unfold Z_of_bits in *; lia.
Qed.

Lemma Z_of_bits_inj (l1 l2 : list bool) :
  length l1 = length l2 -> Z_of_bits l1 = Z_of_bits l2 -> l1 = l2.
Proof.
  revert l2. induction l1 as [|a l1 IH]; intros [|b l2] Hlen Heq;
    try discriminate Hlen; [reflexivity|].
  cbn [length] in Hlen. injection Hlen as Hlen.
  unfold Z_of_bits in Heq. cbn [fold_left] in Heq. rewrite !fold_bits in Heq.
  rewrite Hlen in Heq.
  pose proof (Z_of_bits_range l1) as H1. pose proof (Z_of_bits_range l2) as H2.
  rewrite Hlen in H1.
  assert (0 < 2 ^ Z.of_nat (length l2)) by (apply Z.pow_pos_nonneg; lia).
  destruct a, b; cbn [Z.b2z] in Heq; try nia.
  - f_equal. apply IH; [exact Hlen|lia].
  - f_equal. apply IH; [exact Hlen|lia].
Qed.

(** X11: the bits of a [Magic] are the digits of its literal: four bits
    for each digit after [#], one for each digit after [$], in the order of
    the text.  [ToCell] appends exactly these bits; [LoadFromCell] accepts
    a cursor that starts with them and consumes nothing else, and answers
    any other bits of the same length with the mismatch error. *)
Theorem magic_literal_wire_image
    sl sl_elem ss tyname name rawtag (p : ascii) (k : nat) (d : string)
    fv builder :
  tokens rawtag = [String p d] ->
  (p = "#"%char /\ k = 4%nat) \/ (p = "$"%char /\ k = 1%nat) ->
  d <> EmptyString ->
  all_digits (2 ^ Z.of_nat k) d = true ->
  (k * String.length d <= 64)%nat ->
  value_from (2 ^ Z.of_nat k) d 0 < 2 ^ 63 ->
  store_field ss name TMagic rawtag fv builder
    = wrap "failed to store magic: %w" [] (write (literal_bits k d) builder)
  /\ (forall (rest : list bool) (rs : list Cell),
        load_field sl sl_elem tyname name TMagic rawtag fv
                   (mkCell (literal_bits k d ++ rest) rs)
          = Ok (fv, mkCell rest rs))
  /\ (forall (got rest : list bool) (rs : list Cell),
        length got = (k * String.length d)%nat -> got <> literal_bits k d ->
        load_field sl sl_elem tyname name TMagic rawtag fv (mkCell (got ++ rest) rs)
          = Err (Errorf "magic is not correct for %s, want %x, got %x"
                   [AStr tyname; ANum (value_from (2 ^ Z.of_nat k) d 0);
                    ANum (Z_of_bits got)])).
Proof.
  intros Htok Hp Hne Hd Hlen Hv.
  set (v := value_from (2 ^ Z.of_nat k) d 0) in *.
  set (sz := Z.of_nat (k * String.length d)).
  assert (Hk : (0 < k)%nat) by (destruct Hp as [[_ ->]|[_ ->]]; lia).
  assert (Hb : 2 <= 2 ^ Z.of_nat k).
  { change 2 with (2 ^ 1) at 1. apply Z.pow_le_mono_r; lia. }
  assert (Hshape : magic_shape (String p d) = Some (sz, 2 ^ Z.of_nat k)).
  { unfold magic_shape, strings.len, sz. cbn [String.length].
    destruct Hp as [[-> ->]|[-> ->]]; cbn [strings.HasPrefix Ascii.eqb Bool.eqb andb];
      f_equal; f_equal; lia. }
  assert (Hnot : String p d <> "##"%string).
  { intros Heq. inversion Heq; subst. discriminate Hd. }
  assert (Hparse : strconv.ParseInt (tail1 (String p d)) (2 ^ Z.of_nat k)
                   = strconv.Num v).
  { cbn [tail1]. apply ParseInt_value; assumption. }
  assert (Hv0 : 0 <= v).
  { apply (value_from_mono (2 ^ Z.of_nat k) d 0); [lia|lia|exact Hd]. }
  assert (Hfit : v < 2 ^ sz).
  { pose proof (value_from_bound (2 ^ Z.of_nat k) d 0 Hb ltac:(lia) Hd) as Hbd.
    fold v in Hbd. unfold strings.len in Hbd. unfold sz.
    rewrite Nat2Z.inj_mul, Z.pow_mul_r by lia. lia. }
  assert (Hu : to_uint64 v = v) by (unfold to_uint64; apply Z.mod_small; lia).
  assert (Hbits : bits_of (Z.to_nat sz) v = literal_bits k d).
  { unfold sz. rewrite Nat2Z.id.
    pose proof (bits_of_value k d 0 0 Hd) as Hbv. cbn [Nat.add bits_of app] in Hbv.
    exact Hbv. }
  assert (Hll : length (literal_bits k d) = (k * String.length d)%nat).
  { rewrite <- Hbits. rewrite length_bits_of. unfold sz. apply Nat2Z.id. }
  assert (Hload : forall got rest rs, length got = (k * String.length d)%nat ->
            load_field sl sl_elem tyname name TMagic rawtag fv (mkCell (got ++ rest) rs)
            = if Z_of_bits got =? v then Ok (fv, mkCell rest rs)
              else Err (Errorf "magic is not correct for %s, want %x, got %x"
                          [AStr tyname; ANum v; ANum (Z_of_bits got)])).
  { intros got rest rs Hg.
    rewrite (load_magic_field _ _ _ _ _ _ _ _ _ _ Htok Hshape Hnot).
    destruct (Z.ltb_spec 64 sz); [unfold sz in *; lia|].
    rewrite Hparse. unfold LoadUInt.
    rewrite read_app by (unfold sz; rewrite Hg; reflexivity).
    cbn. rewrite Hu. reflexivity. }
  split; [|split].
  - rewrite (store_magic_field _ _ _ _ _ _ _ _ Htok Hshape Hnot).
    destruct (Z.ltb_spec 64 sz); [unfold sz in *; lia|].
    rewrite Hparse, Hu. unfold StoreUInt. rewrite Hbits. reflexivity.
  - intros rest rs. rewrite Hload by exact Hll.
    rewrite <- Hbits, Z_of_bits_of. rewrite Z2Nat.id by (unfold sz; lia).
    rewrite Z.mod_small by lia. rewrite Z.eqb_refl. reflexivity.
  - intros got rest rs Hg Hdiff. rewrite Hload by exact Hg.
    destruct (Z.eqb_spec (Z_of_bits got) v) as [Heq|]; [|reflexivity].
    exfalso. apply Hdiff. apply Z_of_bits_inj; [congruence|].
    rewrite Heq, <- Hbits, Z_of_bits_of. rewrite Z2Nat.id by (unfold sz; lia).
    symmetry. apply Z.mod_small. lia.
Qed.

(** *** The builder is only appended to *)

Lemma appends_ok : appends (fun b => Ok b).
Proof.
  intros b b' H. inversion H; subst. exists [], [].
  split; [symmetry; apply bapp_nil|]. split; [left; reflexivity|].
  split; [left; reflexivity|]. intros b2 _ _. rewrite bapp_nil. reflexivity.
Qed.

Lemma appends_err (e : error) : appends (fun _ => Err e).
Proof. intros b b' H. discriminate H. Qed.

Lemma appends_panic (msg : string) : appends (fun _ => Panic msg).
Proof. intros b b' H. discriminate H. Qed.

Lemma appends_ext (f g : Builder -> outcome Builder) :
  (forall b, f b = g b) -> appends g -> appends f.
Proof.
  intros Hfg Hg b b' H. rewrite Hfg in H.
  destruct (Hg b b' H) as (d & r & Hb & Hd & Hr & Ht).
  exists d, r. repeat split; try assumption. intros b2 H1 H2. rewrite Hfg. auto.
Qed.

Lemma appends_wrap fmt args (f : Builder -> outcome Builder) :
  appends f -> appends (fun b => wrap fmt args (f b)).
Proof.
  intros Hf b b' H. apply wrap_ok in H.
  destruct (Hf b b' H) as (d & r & Hb & Hd & Hr & Ht).
  exists d, r. repeat split; try assumption. intros b2 H1 H2.
  rewrite (Ht b2 H1 H2). reflexivity.
Qed.

Lemma appends_bind (f g : Builder -> outcome Builder) :
  appends f -> appends g -> appends (fun b => b1 ← f b; g b1).
Proof.
  intros Hf Hg b b' H.
  destruct (f b) as [b1| |] eqn:Hfb; try discriminate H. cbn in H.
  destruct (Hf b b1 Hfb) as (d1 & r1 & -> & Hd1 & Hr1 & Ht1).
  destruct (Hg _ b' H) as (d2 & r2 & -> & Hd2 & Hr2 & Ht2).
  exists (d1 ++ d2)%list, (r1 ++ r2)%list.
  unfold bapp in *. cbn [bits refs] in *. rewrite ?length_app in *.
  rewrite <- !app_assoc.
  split; [reflexivity|]. split; [|split].
  - destruct Hd2 as [->|Hd2]; [|right; lia].
    rewrite app_nil_r, Nat.add_0_r. exact Hd1.
  - destruct Hr2 as [->|Hr2]; [|right; lia].
    rewrite app_nil_r, Nat.add_0_r. exact Hr1.
  - intros b2 H1 H2. rewrite ?length_app in *.
    rewrite (Ht1 b2) by lia. cbn.
    rewrite Ht2; cbn [bits refs]; rewrite ?length_app; try lia.
    rewrite <- !app_assoc. reflexivity.
Qed.

Lemma appends_write (bs : list bool) : appends (write bs).
Proof.
  intros b b' H. unfold write in *.
  destruct (Z.ltb_spec maxBits (Z.of_nat (length (bits b)) + Z.of_nat (length bs)));
    [discriminate H|].
  inversion H; subst. exists bs, []. unfold bapp. rewrite app_nil_r.
  split; [reflexivity|]. split; [right; lia|]. split; [left; reflexivity|].
  intros b2 Hb2 _.
  destruct (Z.ltb_spec maxBits (Z.of_nat (length (bits b2)) + Z.of_nat (length bs)));
    [lia|].
  rewrite app_nil_r. reflexivity.
Qed.

Lemma appends_StoreUInt (z N : Z) : appends (StoreUInt z N).
Proof. apply appends_write. Qed.

Lemma appends_StoreInt (z N : Z) : appends (StoreInt z N).
Proof. apply appends_write. Qed.

Lemma appends_StoreBigInt (p : option Z) (N : Z) : appends (StoreBigInt p N).
Proof.
  destruct p; [apply appends_StoreInt|apply appends_panic].
Qed.

Lemma appends_StoreSlice (bytes : list Z) (N : Z) : appends (StoreSlice bytes N).
Proof.
  unfold StoreSlice. destruct (_ <? _); [apply appends_err|apply appends_write].
Qed.

Lemma appends_StoreRef (c : option Cell) : appends (StoreRef c).
Proof.
  intros b b' H. unfold StoreRef in *.
  destruct (Z.leb_spec maxRefs (Z.of_nat (length (refs b)))); [discriminate H|].
  destruct c as [c|]; [|discriminate H]. inversion H; subst.
  exists [], [c]. unfold bapp. rewrite app_nil_r. cbn [length].
  split; [reflexivity|]. split; [left; reflexivity|]. split; [right; lia|].
  intros b2 _ Hr2.
  destruct (Z.leb_spec maxRefs (Z.of_nat (length (refs b2)))); [lia|].
  rewrite app_nil_r. reflexivity.
Qed.

Lemma appends_StoreBuilder (other : Builder) : appends (StoreBuilder other).
Proof.
  intros b b' H. unfold StoreBuilder, write in *.
  destruct (Z.ltb_spec maxRefs
              (Z.of_nat (length (refs b)) + Z.of_nat (length (refs other))));
    [discriminate H|].
  destruct (Z.ltb_spec maxBits
              (Z.of_nat (length (bits b)) + Z.of_nat (length (bits other))));
    [discriminate H|].
  inversion H; subst. exists (bits other), (refs other).
  split; [reflexivity|]. split; [right; lia|]. split; [right; lia|].
  intros b2 Hb2 Hr2.
  destruct (Z.ltb_spec maxRefs
              (Z.of_nat (length (refs b2)) + Z.of_nat (length (refs other)))); [lia|].
  destruct (Z.ltb_spec maxBits
              (Z.of_nat (length (bits b2)) + Z.of_nat (length (bits other)))); [lia|].
  reflexivity.
Qed.

Ltac appends_leaf :=
  first [ apply appends_panic | apply appends_err | apply appends_ok
        | apply appends_wrap;
          first [ apply appends_StoreUInt | apply appends_StoreInt
                | apply appends_StoreBigInt | apply appends_StoreSlice
                | apply appends_StoreRef | apply appends_StoreBuilder
                | apply appends_write | assumption | auto ] ].

Lemma appends_store_directive ss name ft tag (settings : list string) fv :
  (forall a, appends (StoreAddr a)) -> (forall d, appends (StoreDict d)) ->
  appends (store_directive ss name ft tag settings fv).
Proof.
  intros Haddr Hdict. unfold store_directive.
  destruct settings as [|s0 args]; [appends_leaf|].
  destruct (String.eqb s0 "##").
  { destruct args as [|s1 ?]; [appends_leaf|].
    destruct (strconv.ParseUint s1 10) as [num| |]; try appends_leaf.
    destruct (num <=? 64); [|destruct (num <=? 256)];
      destruct ft; try appends_leaf; destruct fv; appends_leaf. }
  destruct (String.eqb s0 "addr").
  { destruct ft; try appends_leaf; destruct fv; appends_leaf. }
  destruct (String.eqb s0 "bool").
  { destruct ft; try appends_leaf; destruct fv; appends_leaf. }
  destruct (String.eqb s0 "bits").
  { destruct args as [|s1 ?]; [appends_leaf|].
    destruct (strconv.Atoi s1) as [num| |]; try appends_leaf.
    destruct ft; try appends_leaf; destruct fv; appends_leaf. }
  destruct (String.eqb s0 "^" || String.eqb s0 ".").
  { match goal with
    | |- appends (fun b => ?m ≫= _) => destruct m as [c| |]
    end; cbn [mbind outcome_bind]; try appends_leaf.
    destruct (String.eqb s0 "^"); [appends_leaf|].
    destruct c; appends_leaf. }
  destruct (is_TMagic ft).
  { destruct (magic_shape s0) as [[sz base]|]; [|appends_leaf].
    destruct (64 <? sz); [appends_leaf|].
    destruct (strconv.ParseInt (tail1 s0) base) as [magic| |]; appends_leaf. }
  destruct (String.eqb s0 "dict"); [|appends_leaf].
  destruct ft; try appends_leaf; destruct fv; appends_leaf.
Qed.

Lemma appends_store_either ss name ft tag (settings : list string) fv :
  (forall a, appends (StoreAddr a)) -> (forall d, appends (StoreDict d)) ->
  appends (store_either ss name ft tag settings fv).
Proof.
  intros Haddr Hdict. unfold store_either.
  destruct settings as [|s0 args]; [appends_leaf|].
  destruct (String.eqb s0 "either");
    [|apply appends_store_directive; assumption].
  destruct args as [|s1 [|s2 ?]]; try appends_leaf.
  apply (appends_bind
           (fun b => wrap "cannot store maybe bit: %w" []
                       (StoreBoolBit (strings.HasPrefix s2 "^") b))).
  - apply appends_wrap, appends_write.
  - apply appends_store_directive; assumption.
Qed.

Lemma appends_store_field ss name ft rawtag fv :
  (forall a, appends (StoreAddr a)) -> (forall d, appends (StoreDict d)) ->
  appends (store_field ss name ft rawtag fv).
Proof.
  intros Haddr Hdict. unfold store_field.
  destruct (String.eqb (strings.TrimSpace rawtag) "-"); [appends_leaf|].
  destruct (strings.Split (strings.TrimSpace rawtag)) as [|s0 rest]; [appends_leaf|].
  destruct (String.eqb s0 "maybe"); [|apply appends_store_either; assumption].
  destruct (kind_is_pointer ft && IsNil fv).
  - apply appends_wrap, appends_write.
  - apply (appends_bind
             (fun b => wrap "cannot store maybe bit: %w" [] (StoreBoolBit true b))).
    + apply appends_wrap, appends_write.
    + apply appends_store_either; assumption.
Qed.

(** The directive a field reaches does not depend on the builder, once
    the field is written. *)
Lemma reached_on_store_stable ss name ft rawtag fv (b b' b2 : Builder)
    (st : list string) :
  store_field ss name ft rawtag fv b = Ok b' ->
  reached_on_store ft rawtag fv b2 = Some st ->
  reached_on_store ft rawtag fv b = Some st.
Proof.
  unfold store_field, reached_on_store. intros H H2.
  destruct (String.eqb (strings.TrimSpace rawtag) "-"); [discriminate H2|].
  destruct (strings.Split (strings.TrimSpace rawtag)) as [|s0 rest];
    [discriminate H2|].
  assert (Heither : forall (settings : list string) (bA bB : Builder),
            store_either ss name ft (strings.TrimSpace rawtag) settings fv bA = Ok b' ->
            match settings with
            | [] => None
            | t0 :: targs =>
                if String.eqb t0 "either" then
                  match targs with
                  | s1 :: s2 :: _ =>
                      match StoreBoolBit (strings.HasPrefix s2 "^") bB with
                      | Ok _ => Some [if strings.HasPrefix s2 "^" then s2 else s1]
                      | _ => None
                      end
                  | _ => None
                  end
                else Some settings
            end = Some st ->
            match settings with
            | [] => None
            | t0 :: targs =>
                if String.eqb t0 "either" then
                  match targs with
                  | s1 :: s2 :: _ =>
                      match StoreBoolBit (strings.HasPrefix s2 "^") bA with
                      | Ok _ => Some [if strings.HasPrefix s2 "^" then s2 else s1]
                      | _ => None
                      end
                  | _ => None
                  end
                else Some settings
            end = Some st).
  { intros settings bA bB HA HB. unfold store_either in HA.
    destruct settings as [|t0 targs]; [discriminate HB|].
    destruct (String.eqb t0 "either"); [|exact HB].
    destruct targs as [|s1 [|s2 ?]]; try discriminate HB.
    destruct (StoreBoolBit (strings.HasPrefix s2 "^") bA); try discriminate HA.
    destruct (StoreBoolBit (strings.HasPrefix s2 "^") bB); try discriminate HB.
    exact HB. }
  destruct (String.eqb s0 "maybe"); [|exact (Heither _ _ _ H H2)].
  destruct (kind_is_pointer ft && IsNil fv); [discriminate H2|].
  destruct (StoreBoolBit true b) as [b1| |]; try discriminate H.
  destruct (StoreBoolBit true b2) as [b3| |]; try discriminate H2.
  exact (Heither _ _ _ H H2).
Qed.

Lemma appends_store_field_checked ss name ft rawtag fv :
  (forall a, appends (StoreAddr a)) -> (forall d, appends (StoreDict d)) ->
  appends (fun b =>
             if negb (token.IsExported name) && reads_Interface ft rawtag fv b
             then read_only_panic
             else store_field ss name ft rawtag fv b).
Proof.
  intros Haddr Hdict b b' H.
  destruct (negb (token.IsExported name)); cbn [andb] in *;
    [|exact (appends_store_field _ _ _ _ _ Haddr Hdict b b' H)].
  destruct (reads_Interface ft rawtag fv b) eqn:Eg; [discriminate H|].
  destruct (appends_store_field _ _ _ _ _ Haddr Hdict b b' H)
    as (d & r & Hb & Hd & Hr & Ht).
  exists d, r. repeat split; try assumption. intros b2 H1 H2.
  assert (reads_Interface ft rawtag fv b2 = false) as ->; [|apply Ht; assumption].
  unfold reads_Interface in *.
  destruct (reached_on_store ft rawtag fv b2) as [st|] eqn:E2; [|reflexivity].
  rewrite (reached_on_store_stable _ _ _ _ _ _ _ _ _ H E2) in Eg. exact Eg.
Qed.

Lemma appends_store_fields (fs : fieldlist) (i : nat) (rv : list value) :
  (forall a, appends (StoreAddr a)) -> (forall d, appends (StoreDict d)) ->
  appends (store_fields fs i rv).
Proof.
  intros Haddr Hdict. revert i. induction fs as [|n t tag rest IH]; intros i.
  - apply appends_ok.
  - cbn [store_fields]. destruct (rv !! i) as [x|]; [|apply appends_panic].
    apply (appends_bind
             (fun b =>
                if negb (token.IsExported n) && reads_Interface t tag x b
                then read_only_panic
                else store_field (structStore t (type_name t)) n t tag x b)).
    + apply appends_store_field_checked; assumption.
    + apply IH.
Qed.

(** X12: under [maybe], a field that is not a nil pointer, and so every
    field of a type that is no pointer, is written as present: the first
    bit [ToCell] appends for it is 1, and a value of such a type cannot be
    encoded as absent. *)
Theorem present_value_is_flagged
    ss name ft rawtag (rest : list string) fv builder (b' : Builder) :
  (forall a, appends (StoreAddr a)) -> (forall d, appends (StoreDict d)) ->
  tokens rawtag = "maybe"%string :: rest ->
  kind_is_pointer ft = false \/ IsNil fv = false ->
  store_field ss name ft rawtag fv builder = Ok b' ->
  exists dbits drefs, b' = bapp builder (true :: dbits) drefs.
Proof.
  intros Haddr Hdict Htok Hpresent H.
  rewrite (store_field_tokens _ _ _ _ _ _ _ _ Htok) in H by discriminate.
  change (String.eqb "maybe" "maybe") with true in H. cbv iota in H.
  assert (Hnil : kind_is_pointer ft && IsNil fv = false).
  { destruct Hpresent as [->| ->]; [reflexivity|apply andb_false_r]. }
  rewrite Hnil in H.
  destruct (StoreBoolBit true builder) as [b1| |] eqn:Hbit; try discriminate H.
  cbn -[store_either] in H.
  unfold StoreBoolBit, write in Hbit.
  destruct (_ <? _); [discriminate Hbit|]. inversion Hbit; subst b1.
  destruct (appends_store_either _ _ _ _ _ _ Haddr Hdict _ _ H)
    as (d & r & -> & _).
  exists d, r. unfold bapp. cbn [bits refs]. rewrite <- app_assoc. reflexivity.
Qed.

(** X13: [ToCell] takes the value of a [dict] field as a
    [*cell.Dictionary] without looking at the rest of the tag, so on a
    field of any other type, such as the sequence of a
    [dict N -> array] transform, it panics, whatever the value. *)
Theorem dict_field_of_other_type_cannot_be_encoded
    ss name ft rawtag (args : list string) fv builder :
  tokens rawtag = "dict"%string :: args ->
  is_TDict ft = false ->
  is_panic (store_field ss name ft rawtag fv builder) = true.
Proof.
  intros Htok Hft.
  rewrite (store_field_tokens _ _ _ _ _ _ _ _ Htok) by discriminate.
  change (String.eqb "dict" "maybe") with false. cbv iota.
  unfold store_either. change (String.eqb "dict" "either") with false. cbv iota.
  unfold store_directive.
  change (String.eqb "dict" "##") with false.
  change (String.eqb "dict" "addr") with false.
  change (String.eqb "dict" "bool") with false.
  change (String.eqb "dict" "bits") with false.
  change (String.eqb "dict" "^") with false.
  change (String.eqb "dict" ".") with false. cbn [orb]. cbv iota.
  change (magic_shape "dict") with (@None (Z * Z)).
  change (String.eqb "dict" "dict") with true. cbv iota.
  destruct ft; try discriminate Hft; reflexivity.
Qed.

(** X14: the key size of a [dict] tag is read by [LoadFromCell] only.
    [ToCell] hands the dictionary to the cell library whatever follows
    [dict] in the tag, also when the size is missing or is no number, in
    which case [LoadFromCell] panics. *)
Theorem dict_size_is_read_by_decode_only
    sl sl_elem ss tyname name rawtag (args : list string)
    (p : option Dictionary) fv loader builder :
  tokens rawtag = "dict"%string :: args ->
  store_field ss name TDict rawtag (VDict p) builder
    = wrap "failed to store dict for %s, err: %w" [AStr name] (StoreDict p builder)
  /\ (match args with
      | [] => True
      | tok :: _ => parses (strconv.ParseUint tok 10) = false
      end ->
      is_panic (load_field sl sl_elem tyname name TDict rawtag fv loader) = true).
Proof.
  intros Htok. split.
  - rewrite (store_field_tokens _ _ _ _ _ _ _ _ Htok) by discriminate.
    reflexivity.
  - intros Hbad.
    rewrite (load_field_tokens _ _ _ _ _ _ _ _ _ _ Htok) by discriminate.
    change (String.eqb "dict" "maybe") with false. cbv iota.
    unfold load_either. change (String.eqb "dict" "either") with false. cbv iota.
    unfold load_directive.
    change (String.eqb "dict" "##") with false.
    change (String.eqb "dict" "addr") with false.
    change (String.eqb "dict" "bool") with false.
    change (String.eqb "dict" "bits") with false.
    change (String.eqb "dict" "^") with false.
    change (String.eqb "dict" ".") with false. cbn [orb is_TMagic]. cbv iota.
    change (String.eqb "dict" "dict") with true. cbv iota.
    destruct args as [|tok more]; [reflexivity|].
    destruct (strconv.ParseUint tok 10); [discriminate Hbad|reflexivity..].
Qed.

(** X15: a nested record under [.] is flattened.  Building it in a cell
    of its own and appending that cell to the builder gives the result of
    writing its fields into the builder directly, and each of the two
    succeeds when the other does; the address and dictionary writers of
    the cell library are taken to append the same data wherever there is
    room. *)
Theorem inline_record_is_flattened
    (n : string) (m : methods) (fs : fieldlist) name rawtag (rv : list value)
    (builder b' : Builder) :
  (forall a, appends (StoreAddr a)) -> (forall d, appends (StoreDict d)) ->
  mToCellVal m = None ->
  tokens rawtag = ["."%string] ->
  Z.of_nat (length (bits builder)) <= maxBits ->
  Z.of_nat (length (refs builder)) <= maxRefs ->
  store_field (structStore (TStruct (Schema n m fs)) n) name
              (TStruct (Schema n m fs)) rawtag (VStruct rv) builder = Ok b'
  <-> store_fields fs 0 rv builder = Ok b'.
Proof.
  intros Haddr Hdict Hm Htok Hbits Hrefs.
  rewrite (store_field_tokens _ _ _ _ _ _ _ _ Htok) by discriminate.
  change (String.eqb "." "maybe") with false. cbv iota.
  unfold store_either. change (String.eqb "." "either") with false. cbv iota.
  unfold store_directive.
  change (String.eqb "." "##") with false.
  change (String.eqb "." "addr") with false.
  change (String.eqb "." "bool") with false.
  change (String.eqb "." "bits") with false.
  change (String.eqb "." "^") with false.
  change (String.eqb "." ".") with true. cbn [orb]. cbv iota.
  cbn [structStore store_schema]. rewrite Hm. cbn [option_map].
  pose proof (appends_store_fields fs 0 rv Haddr Hdict) as Happ.
  split.
  - intros H.
    destruct (store_fields fs 0 rv BeginCell) as [c| |] eqn:Hc; try discriminate H.
    cbn in H. apply wrap_ok in H.
    destruct (Happ _ _ Hc) as (d & r & -> & _ & _ & Ht).
    unfold StoreBuilder, ToBuilder, EndCell, write in H.
    unfold bapp, BeginCell in H. cbn [bits refs app] in H.
    destruct (Z.ltb_spec maxRefs
                (Z.of_nat (length (refs builder)) + Z.of_nat (length r)));
      [discriminate H|].
    destruct (Z.ltb_spec maxBits
                (Z.of_nat (length (bits builder)) + Z.of_nat (length d)));
      [discriminate H|].
    cbn in H. inversion H; subst. apply Ht; lia.
  - intros H.
    destruct (Happ _ _ H) as (d & r & -> & Hd & Hr & Ht).
    rewrite (Ht BeginCell) by (unfold BeginCell; cbn [bits refs length];
                               destruct Hd as [->|]; destruct Hr as [->|];
                               cbn [length]; unfold maxBits, maxRefs in *; lia).
    cbn. unfold StoreBuilder, ToBuilder, EndCell, write.
    unfold bapp, BeginCell. cbn [bits refs app].
    destruct (Z.ltb_spec maxRefs
                (Z.of_nat (length (refs builder)) + Z.of_nat (length r))).
    { destruct Hr as [->|]; cbn [length] in *; lia. }
    destruct (Z.ltb_spec maxBits
                (Z.of_nat (length (bits builder)) + Z.of_nat (length d))).
    { destruct Hd as [->|]; cbn [length] in *; lia. }
    reflexivity.
Qed.

(** X16: a cell that [ToCell] returns holds at most 1023 bits and at most
    four references, when the address and dictionary writers of the cell
    library append within the capacity of a cell. *)
Theorem encoded_cell_within_capacity (t : gotype) (v : value) (c : Cell) :
  (forall a, appends (StoreAddr a)) -> (forall d, appends (StoreDict d)) ->
  ToCell t v = Ok c ->
  Z.of_nat (length (bits c)) <= maxBits /\ Z.of_nat (length (refs c)) <= maxRefs.
Proof.
  intros Haddr Hdict H.
  assert (Hfs : forall fs rv,
            (b ← store_fields fs 0 rv BeginCell; Ok (EndCell b)) = Ok c ->
            Z.of_nat (length (bits c)) <= maxBits
            /\ Z.of_nat (length (refs c)) <= maxRefs).
  { intros fs rv Hc.
    destruct (store_fields fs 0 rv BeginCell) as [b| |] eqn:Hb; try discriminate Hc.
    inversion Hc; subst c.
    destruct (appends_store_fields fs 0 rv Haddr Hdict _ _ Hb)
      as (d & r & -> & Hd & Hr & _).
    unfold EndCell, bapp, BeginCell in *. cbn [bits refs app length Nat.add] in *.
    split; [destruct Hd as [->|Hd]|destruct Hr as [->|Hr]];
      cbn [length]; unfold maxBits, maxRefs in *; lia. }
  unfold ToCell in H.
  destruct t; destruct v as [| | | |[?|]|[?|]|[?|]|[?|]| | |[?|]|];
    try (cbn in H; discriminate H); eapply Hfs; exact H.
Qed.

End Further.

(** ** The further properties on concrete records *)

Section FurtherConcrete.
#[local] Existing Instance simple.codecs.

(** The example codec: its readers do not panic, its writers fail only for
    lack of room and append the same data to every builder. *)
Lemma simple_LoadAddr_no_panic (l : Slice) : is_panic (LoadAddr l) = false.
Proof.
  change (LoadAddr l) with (simple.LoadAddr l). unfold simple.LoadAddr, read.
  destruct (_ <=? _); [|reflexivity]. cbn. destruct (bool_decide _); reflexivity.
Qed.

Lemma simple_LoadDict_no_panic (sz : Z) (l : Slice) : is_panic (LoadDict sz l) = false.
Proof.
  change (LoadDict sz l) with (simple.LoadDict sz l).
  unfold simple.LoadDict, LoadBoolBit, read.
  destruct (_ <=? _); [|reflexivity]. cbn.
  destruct (bool_decide _); [|reflexivity].
  unfold LoadRef. cbn. destruct (refs l); reflexivity.
Qed.

Lemma simple_StoreAddr_room (a : option Address) (b : Builder) :
  fails_only_for_room (StoreAddr a b).
Proof. apply room_write. Qed.

Lemma simple_StoreDict_room (d : option Dictionary) (b : Builder) :
  fails_only_for_room (StoreDict d b).
Proof.
  change (StoreDict d b) with (simple.StoreDict d b). unfold simple.StoreDict.
  destruct d as [[|kv kvs]|]; try apply room_write.
  apply room_bind; [apply room_write|]. intros b1 _. apply room_StoreRef.
Qed.

Lemma simple_StoreAddr_appends (a : option Address) : appends (StoreAddr a).
Proof. apply appends_write. Qed.

Lemma simple_StoreDict_appends (d : option Dictionary) : appends (StoreDict d).
Proof.
  apply (appends_ext _ (simple.StoreDict d)); [reflexivity|].
  unfold simple.StoreDict.
  destruct d as [[|kv kvs]|]; try apply appends_write.
  apply (appends_bind (StoreBoolBit true)); [apply appends_write|].
  apply appends_StoreRef.
Qed.

Lemma message_in_domain : schema_domain Message message.
Proof.
  unfold Message, message. cbn [schema_domain fields_domain].
  repeat split;
    first [exact simple_addr_domain | apply simple_dict_domain | in_domain].
Qed.

Lemma inner_in_domain : schema_domain Inner [VInt 100].
Proof. unfold Inner. cbn [schema_domain fields_domain]. repeat split; in_domain. Qed.

Lemma checked_schema_decodes_without_panic_witness :
  schema_ok Message = true
  /\ is_panic (LoadFromCell (TPtr Message) (VPtr (Some (zero_schema Message)))
                 two_values) = false.
Proof.
  split; [vm_compute; reflexivity|].
  refine (proj1 (checked_schema_decodes_without_panic Message two_values
                   simple_LoadAddr_no_panic simple_LoadDict_no_panic _)).
  vm_compute. reflexivity.
Defined.

Lemma excluded_field_is_inert_witness :
  store_fields (schema_fields Message) 0 (<[10%nat := VUint 9]> message) BeginCell
    = store_fields (schema_fields Message) 0 message BeginCell.
Proof.
  refine (proj1 (excluded_field_is_inert (schema_fields Message) 10 "-" _ _)
            0%nat message (VUint 9) BeginCell _).
  - reflexivity.
  - reflexivity.
  - vm_compute. lia.
Defined.

Lemma encode_errors_by_origin_witness :
  field_store_error no_store "Body" TCell ["^"] (VCell (Some (mkCell [] [])))
    (Wrapf "failed to store cell to ref for %s, err: %w" [AStr "Body"]
           ErrTooMuchRefs)
  /\ encode_error no_store "Body"
       (Wrapf "failed to store cell to ref for %s, err: %w" [AStr "Body"]
              ErrTooMuchRefs).
Proof.
  apply (encode_errors_by_origin no_store "Body" TCell "^"
           (VCell (Some (mkCell [] [])))
           (mkCell [] [mkCell [] []; mkCell [] []; mkCell [] []; mkCell [] []])).
  vm_compute. reflexivity.
Defined.

Lemma nested_errors_name_the_type_witness :
  type_name (TStruct Inner) = "Inner"%string
  /\ exists c,
       Wrapf "failed to load from cell for %s, err: %w" [AStr "Inner"]
             (Wrapf "failed to load int %d, err: %w" [ANum 8] ErrNoMoreData)
       = Wrapf "failed to load from cell for %s, err: %w"
               [AStr (type_name (TStruct Inner))] c
       \/ Wrapf "failed to load from cell for %s, err: %w" [AStr "Inner"]
                (Wrapf "failed to load int %d, err: %w" [ANum 8] ErrNoMoreData)
          = Wrapf "failed to load from cell for %s, using manual loader, err: %w"
                  [AStr (type_name (TStruct Inner))] c.
Proof.
  split; [reflexivity|].
  apply (proj1 (nested_errors_name_the_type (TStruct Inner) "Value" VMagic
                  (mkCell [] []) _)).
  vm_compute. reflexivity.
Defined.

(** The two names of a record type in one error: [structLoad] wraps with
    [Type.Name()], the magic mismatch inside carries [Type.String()]. *)
Example nested_mismatch_has_both_names :
  structLoad (TStruct (Schema "tlb.Tagged" no_methods (FCons "_" TMagic "#ab" FNil)))
             (mkCell (bits_of 8 0) [])
    = Err (Wrapf "failed to load from cell for %s, err: %w" [AStr "Tagged"]
             (Errorf "magic is not correct for %s, want %x, got %x"
                     [AStr "tlb.Tagged"; ANum 171; ANum 0])).
Proof. vm_compute. reflexivity. Qed.

Lemma boxed_reads_back (rv : list value) (oc : option Cell) :
  boxed_store rv = Ok oc ->
  exists c, oc = Some c
    /\ forall e r, boxed_load (mkCell (bits c ++ e) (refs c ++ r))
                   = Ok (rv, mkCell e r).
Proof.
  intros H. destruct rv as [|[] [|? ?]]; try discriminate H.
  inversion H; subst. eexists. split; [reflexivity|]. intros e r.
  unfold boxed_load. cbn [bits refs app]. rewrite LoadBoolBit_cons. reflexivity.
Qed.

Lemma custom_codec_round_trip_witness :
  reads_back (load_field (structLoad (TStruct Boxed)) no_load "tlb.T" "Box"
                         (TStruct Boxed) "^" (zero (TStruct Boxed)))
             (VStruct [VBool true]) BeginCell (mkCell [] [mkCell [true] []]).
Proof.
  apply (custom_codec_round_trip "tlb.Boxed" boxed_methods boxed_fields
           boxed_load boxed_store no_load "tlb.T" "Box" "^" [VBool true]
           BeginCell (mkCell [] [mkCell [true] []]) eq_refl eq_refl
           boxed_reads_back (or_introl eq_refl)).
  vm_compute. reflexivity.
Defined.

Lemma decode_leaves_what_follows_witness :
  LoadFromCell (TPtr Inner) (VPtr (Some (zero_schema Inner)))
               (mkCell (bits_of 8 100 ++ [true]) [mkCell [] []])
    = Ok (VPtr (Some [VInt 100]), mkCell [true] [mkCell [] []]).
Proof.
  apply (decode_leaves_what_follows Inner [VInt 100] (mkCell (bits_of 8 100) [])
           [true] [mkCell [] []] eq_refl inner_in_domain).
  vm_compute. reflexivity.
Defined.

Lemma encoding_is_prefix_free_witness :
  [VInt 100] = [VInt 100] /\ mkCell (bits_of 8 100) [] = mkCell (bits_of 8 100) [].
Proof.
  apply (encoding_is_prefix_free Inner [VInt 100] [VInt 100]
           (mkCell (bits_of 8 100) []) (mkCell (bits_of 8 100) []) [] []
           inner_in_domain inner_in_domain);
    vm_compute; reflexivity.
Defined.

Lemma negative_bits_width_is_a_returned_error_witness :
  exists c,
    load_field no_load no_load "tlb.T" "Raw" TBytes "bits -8" (VBytes [])
               (mkCell [true] [])
      = Err (Wrapf "failed to load uint %d, err: %w" [ANum (-8)] c).
Proof.
  apply (proj1 (negative_bits_width_is_a_returned_error no_load no_load no_store
                  "tlb.T" "Raw" TBytes "bits -8" "-8" (-8) (VBytes [])
                  (mkCell [true] []) [] BeginCell eq_refl eq_refl ltac:(lia))).
  vm_compute. reflexivity.
Defined.

Lemma reference_is_read_from_its_own_cell_witness :
  load_field (structLoad (TPtr Inner)) no_load "tlb.T" "Next" (TPtr Inner) "^"
             (VPtr None)
             (mkCell [true] [mkCell (bits_of 8 5 ++ [true; true]) []; mkCell [] []])
    = Ok (VPtr (Some [VInt 5]), mkCell [true] [mkCell [] []]).
Proof.
  rewrite (proj1 (reference_is_read_from_its_own_cell (structLoad (TPtr Inner))
                    no_load "tlb.T" "Next" (TPtr Inner) "^" (VPtr None) [true]
                    (mkCell (bits_of 8 5 ++ [true; true]) []) [mkCell [] []]
                    eq_refl)).
  vm_compute. reflexivity.
Defined.

Lemma in_domain_encode_fails_only_for_room_witness :
  fails_only_for_room (ToCell (TPtr Message) (VPtr (Some message))).
Proof.
  exact (proj1 (in_domain_encode_fails_only_for_room Message message
                  simple_StoreAddr_room simple_StoreDict_room eq_refl
                  message_in_domain)).
Defined.

Lemma magic_literal_wire_image_witness :
  store_field no_store "_" TMagic "$1011" VMagic BeginCell
    = Ok (mkCell [true; false; true; true] [])
  /\ load_field no_load no_load "tlb.T" "_" TMagic "#a5" VMagic
       (mkCell [true; false; true; false; false; true; false; true; true] [])
     = Ok (VMagic, mkCell [true] []).
Proof.
  split.
  - rewrite (proj1 (magic_literal_wire_image no_load no_load no_store "tlb.T" "_"
                      "$1011" "$" 1 "1011" VMagic BeginCell eq_refl
                      (or_intror (conj eq_refl eq_refl)) ltac:(discriminate)
                      eq_refl ltac:(vm_compute; lia) ltac:(vm_compute; reflexivity))).
    vm_compute. reflexivity.
  - exact (proj1 (proj2 (magic_literal_wire_image no_load no_load no_store "tlb.T"
                           "_" "#a5" "#" 4 "a5" VMagic BeginCell eq_refl
                           (or_introl (conj eq_refl eq_refl)) ltac:(discriminate)
                           eq_refl ltac:(vm_compute; lia)
                           ltac:(vm_compute; reflexivity)))
                  [true] []).
Defined.

Lemma present_value_is_flagged_witness :
  exists dbits drefs,
    mkCell (true :: bits_of 8 0) [] = bapp BeginCell (true :: dbits) drefs.
Proof.
  apply (present_value_is_flagged no_store "X" (TUint K8) "maybe ## 8"
           ["##"; "8"] (VUint 0) BeginCell (mkCell (true :: bits_of 8 0) [])
           simple_StoreAddr_appends simple_StoreDict_appends eq_refl
           (or_introl eq_refl)).
  vm_compute. reflexivity.
Defined.

Lemma dict_field_of_other_type_cannot_be_encoded_witness :
  is_panic (store_field (structStore (TSlice (TStruct Inner)) EmptyString) "Items"
              (TSlice (TStruct Inner)) "dict 8 -> array"
              (VSlice [VStruct [VInt 1]]) BeginCell) = true.
Proof.
  exact (dict_field_of_other_type_cannot_be_encoded
           (structStore (TSlice (TStruct Inner)) EmptyString) "Items"
           (TSlice (TStruct Inner)) "dict 8 -> array" ["8"; "->"; "array"]
           (VSlice [VStruct [VInt 1]]) BeginCell eq_refl eq_refl).
Defined.

Lemma dict_size_is_read_by_decode_only_witness :
  store_field no_store "Table" TDict "dict abc" (VDict None) BeginCell
    = Ok (mkCell [false] [])
  /\ is_panic (load_field no_load no_load "tlb.T" "Table" TDict "dict abc"
                 (VDict None) (mkCell [false] [])) = true.
Proof.
  destruct (dict_size_is_read_by_decode_only no_load no_load no_store "tlb.T"
              "Table" "dict abc" ["abc"] None (VDict None) (mkCell [false] [])
              BeginCell eq_refl) as [Hs Hl].
  split; [rewrite Hs; vm_compute; reflexivity|apply Hl; reflexivity].
Defined.

Lemma inline_record_is_flattened_witness :
  store_field (structStore (TStruct Inner) "tlb.Inner") "Inline" (TStruct Inner) "."
              (VStruct [VInt 100]) (mkCell [true] [])
    = Ok (mkCell (true :: bits_of 8 100) []).
Proof.
  apply (proj2 (inline_record_is_flattened "tlb.Inner" no_methods
                  (FCons "X" (TInt K8) "## 8" FNil) "Inline" "." [VInt 100]
                  (mkCell [true] []) (mkCell (true :: bits_of 8 100) [])
                  simple_StoreAddr_appends simple_StoreDict_appends eq_refl eq_refl
                  ltac:(vm_compute; discriminate) ltac:(vm_compute; discriminate))).
  vm_compute. reflexivity.
Defined.

Lemma encoded_cell_within_capacity_witness :
  exists c, ToCell (TPtr Message) (VPtr (Some message)) = Ok c
    /\ Z.of_nat (length (bits c)) <= maxBits
    /\ Z.of_nat (length (refs c)) <= maxRefs.
Proof.
  eexists. split; [vm_compute; reflexivity|].
  apply (encoded_cell_within_capacity (TPtr Message) (VPtr (Some message)) _
           simple_StoreAddr_appends simple_StoreDict_appends).
  vm_compute. reflexivity.
Defined.

End FurtherConcrete.
